(** * VolRec: shape-from-silhouette reconstruction

    A shallow embedding of the calibration, mask-extraction and voxel-carving
    core of VolRec (camera.cpp, scene.cpp, model/volume.cpp) together with the
    properties of the design specification that concern it.

    Conventions of the embedding.
    - [int] values are integers of [Z] reduced to 32 bits in two's complement
      after every arithmetic operation; [size_t] values are reduced modulo
      2^64.
    - [float] and [double] values are IEEE 754 binary32 and binary64 numbers of
      the Standard Library's [spec_float], every operation rounded to nearest
      even.
    - An access [v[i]] to a [std::vector] outside its bounds has no defined
      behaviour; functions that index a vector return an [option] and [None]
      stands for such an access (or for a failed allocation).
    - A C++ exception is a value [Throw msg] of the type [outcome].
    - Calls into OpenCV and GLM whose results depend on image contents or on
      transcendental functions are fields of the classes [Projection],
      [ColorSpace], [Glm] and [Calibration]. *)

From Stdlib Require Import ZArith Lia Bool List Floats.SpecFloat.
From stdpp Require Import base option list gmap strings.

Local Open Scope Z_scope.

(** ** Machine integers *)

Module CInt.

Definition int_wrap (z : Z) : Z := (z + 2 ^ 31) mod 2 ^ 32 - 2 ^ 31.

Definition add (a b : Z) : Z := int_wrap (a + b).
Definition sub (a b : Z) : Z := int_wrap (a - b).
Definition mul (a b : Z) : Z := int_wrap (a * b).
(** C++ division truncates towards zero. *)
Definition div (a b : Z) : Z := int_wrap (Z.quot a b).
Definition rem (a b : Z) : Z := int_wrap (Z.rem a b).
Definition neg (a : Z) : Z := int_wrap (- a).

(** Conversion of an [int] to [size_t]. *)
Definition to_size_t (z : Z) : Z := z mod 2 ^ 64.

Definition in_range (z : Z) : Prop := - 2 ^ 31 <= z < 2 ^ 31.

End CInt.

(** ** Floating point numbers *)

Module F32.

Definition t := spec_float.

Definition prec : Z := 24.
Definition emax : Z := 128.

Definition of_int (n : Z) : t := binary_normalize prec emax n 0 false.
Definition add : t -> t -> t := SFadd prec emax.
Definition sub : t -> t -> t := SFsub prec emax.
Definition mul : t -> t -> t := SFmul prec emax.
Definition div : t -> t -> t := SFdiv prec emax.
Definition neg : t -> t := SFopp.
(** [std::sqrt] on [float]: correctly rounded. *)
Definition sqrt : t -> t := SFsqrt prec emax.
Definition leb : t -> t -> bool := SFleb.
Definition ltb : t -> t -> bool := SFltb.
(** [a >= b] and [a > b] of C++: false as soon as one side is a NaN. *)
Definition geb (a b : t) : bool := SFleb b a.
Definition gtb (a b : t) : bool := SFltb b a.

Definition zero : t := S754_zero false.
Definition one : t := of_int 1.
Definition two : t := of_int 2.
(** The literal [0.5f]. *)
Definition half : t := binary_normalize prec emax 1 (-1) false.
(** A decimal literal [n/10] is the binary32 number nearest to it, which is
    what the correctly rounded quotient gives. *)
Definition tenths (n : Z) : t := div (of_int n) (of_int 10).

End F32.

Module F64.

Definition t := spec_float.

Definition prec : Z := 53.
Definition emax : Z := 1024.

Definition of_int (n : Z) : t := binary_normalize prec emax n 0 false.
Definition add : t -> t -> t := SFadd prec emax.
Definition sub : t -> t -> t := SFsub prec emax.
Definition mul : t -> t -> t := SFmul prec emax.
Definition div : t -> t -> t := SFdiv prec emax.
Definition abs : t -> t := SFabs.
Definition ltb : t -> t -> bool := SFltb.

Definition zero : t := S754_zero false.
Definition two : t := of_int 2.
Definition half : t := binary_normalize prec emax 1 (-1) false.
(** [std::numeric_limits<double>::max()]. *)
Definition max_value : t := S754_finite false (2 ^ 53 - 1) (1024 - 53).

(** [float] to [double]: exact, in the normal form of binary64. *)
Definition of_f32 (x : F32.t) : t :=
  match x with
  | S754_finite s m e => binary_normalize prec emax (cond_Zopp s (Zpos m)) e s
  | _ => x
  end.

(** [static_cast<float>(x)] of a [double]: rounded to binary32. *)
Definition to_f32 (x : t) : F32.t :=
  match x with
  | S754_finite s m e => binary_normalize F32.prec F32.emax (cond_Zopp s (Zpos m)) e s
  | _ => x
  end.

(** [std::min(a, b)] is [(b < a) ? b : a]. *)
Definition min (a b : t) : t := if ltb b a then b else a.

End F64.

(** Equality of two floating point numbers as data (not [==], which
    identifies the two zeros and separates a NaN from itself). *)
#[local] Instance spec_float_eq_dec : EqDecision spec_float.
Proof. solve_decision. Defined.

(** ** GLM vectors *)

Record vec3 := Vec3 { v3x : F32.t; v3y : F32.t; v3z : F32.t }.
Record vec4 := Vec4 { v4r : F32.t; v4g : F32.t; v4b : F32.t; v4a : F32.t }.

(** [glm::vec3(s)] and [glm::vec4(s)] *)
Definition vec3_splat (s : F32.t) : vec3 := Vec3 s s s.
Definition vec4_splat (s : F32.t) : vec4 := Vec4 s s s s.

(** [a - b] and [glm::dot(a, b)] on [glm::vec3]: the products are summed
    from the left. *)
Definition vec3_sub (a b : vec3) : vec3 :=
  Vec3 (F32.sub (v3x a) (v3x b)) (F32.sub (v3y a) (v3y b)) (F32.sub (v3z a) (v3z b)).
Definition vec3_dot (a b : vec3) : F32.t :=
  F32.add (F32.add (F32.mul (v3x a) (v3x b)) (F32.mul (v3y a) (v3y b)))
          (F32.mul (v3z a) (v3z b)).

(** ** render/voxel.hpp *)

Record Voxel := MkVoxel {
  position : vec3;
  color : vec4;
  density : F32.t;
  active : bool
}.

(** [Voxel::Voxel()] *)
Definition Voxel_default : Voxel :=
  {| position := vec3_splat F32.zero;
     color := vec4_splat F32.one;
     density := F32.one;
     active := false |}.

Definition set_position (p : vec3) (v : Voxel) : Voxel :=
  {| position := p; color := color v; density := density v; active := active v |}.
Definition set_color (c : vec4) (v : Voxel) : Voxel :=
  {| position := position v; color := c; density := density v; active := active v |}.
Definition set_density (d : F32.t) (v : Voxel) : Voxel :=
  {| position := position v; color := color v; density := d; active := active v |}.
Definition set_active (a : bool) (v : Voxel) : Voxel :=
  {| position := position v; color := color v; density := density v; active := a |}.

(** ** Loops and vector accesses *)

(** [for (k : ks) body], stopping at the first undefined step. *)
Fixpoint for_each {K S : Type} (body : K -> S -> option S) (ks : list K) (s : S)
  : option S :=
  match ks with
  | [] => Some s
  | k :: ks' => s' ← body k s; for_each body ks' s'
  end.

(** [for (int i = lo; i < hi; ++i) body] *)
Definition for_range {S : Type} (lo hi : Z) (body : Z -> S -> option S) (s : S)
  : option S :=
  for_each body (seqZ lo (hi - lo)) s.

(** [v[i]] read and [v[i] = f(v[i])], for [i] of type [size_t]. *)
Definition vec_get {A : Type} (l : list A) (i : Z) : option A := l !! Z.to_nat i.
Definition vec_upd {A : Type} (l : list A) (i : Z) (f : A -> A) : option (list A) :=
  x ← l !! Z.to_nat i; Some (<[Z.to_nat i := f x]> l).

(** ** global.hpp *)

Definition VIEW_WIDTH : Z := 1280.
Definition VIEW_HEIGHT : Z := 720.
Definition VOLUME_VOXEL_SIZE : Z := 40.
Definition VOLUME_BOX_LENGTH : Z := 800.

(** ** model/volume.cpp *)

Module Volume.

(** The members of [class Volume] that the voxel grid consists of; the
    OpenGL buffer objects are left out. *)
Record t := Mk {
  gpu_data_dirty_ : bool;
  volume_texture_dirty_ : bool;
  width_ : Z;
  height_ : Z;
  depth_ : Z;
  voxel_size_ : F32.t;
  voxels_ : list Voxel
}.

Definition with_voxels (l : list Voxel) (gpu tex : bool) (v : t) : t :=
  {| gpu_data_dirty_ := gpu; volume_texture_dirty_ := tex;
     width_ := width_ v; height_ := height_ v; depth_ := depth_ v;
     voxel_size_ := voxel_size_ v; voxels_ := l |}.

(** [Volume::get_index] *)
Definition get_index (v : t) (x y z : Z) : Z :=
  CInt.to_size_t
    (CInt.add (CInt.add (CInt.mul (CInt.mul z (width_ v)) (height_ v))
                        (CInt.mul y (width_ v)))
              x).

(** [Volume::is_valid_coordinate] *)
Definition is_valid_coordinate (v : t) (x y z : Z) : bool :=
  (0 <=? x) && (x <? width_ v) && (0 <=? y) && (y <? height_ v)
  && (0 <=? z) && (z <? depth_ v).

(** [Volume::voxel_to_world] *)
Definition voxel_to_world (v : t) (x y z : Z) : vec3 :=
  let world_x :=
    F32.mul (F32.sub (F32.of_int x) (F32.mul (F32.of_int (width_ v)) F32.half))
            (voxel_size_ v) in
  let world_y :=
    F32.add (F32.mul (F32.of_int z) (voxel_size_ v))
            (F32.mul (voxel_size_ v) F32.half) in
  let world_z :=
    F32.mul (F32.neg (F32.sub (F32.of_int y)
                              (F32.mul (F32.of_int (height_ v)) F32.half)))
            (voxel_size_ v) in
  Vec3 world_x world_y world_z.

(** [Volume::Volume]: [resize] fails on a negative element count. *)
Definition make (width height depth : Z) (voxel_size : F32.t) : option t :=
  let n := CInt.mul (CInt.mul width height) depth in
  if n <? 0 then None
  else
    let v0 := {| gpu_data_dirty_ := true; volume_texture_dirty_ := true;
                 width_ := width; height_ := height; depth_ := depth;
                 voxel_size_ := voxel_size;
                 voxels_ := replicate (Z.to_nat n) Voxel_default |} in
    for_range 0 depth (fun z =>
      for_range 0 height (fun y =>
        for_range 0 width (fun x v =>
          let index := get_index v x y z in
          l ← vec_upd (voxels_ v) index (set_position (voxel_to_world v x y z));
          Some (with_voxels l (gpu_data_dirty_ v) (volume_texture_dirty_ v) v))))
      v0.

(** [Volume::set_voxel] *)
Definition set_voxel (x y z : Z) (voxel : Voxel) (v : t) : option t :=
  if negb (is_valid_coordinate v x y z) then Some v
  else
    let index := get_index v x y z in
    l ← vec_upd (voxels_ v) index (fun _ => voxel);
    l ← vec_upd l index (set_position (voxel_to_world v x y z));
    Some (with_voxels l true true v).

(** [Volume::set_voxel_active] *)
Definition set_voxel_active (x y z : Z) (a : bool) (v : t) : option t :=
  if negb (is_valid_coordinate v x y z) then Some v
  else
    let index := get_index v x y z in
    l ← vec_upd (voxels_ v) index (set_active a);
    Some (with_voxels l true true v).

(** [Volume::set_voxel_color] *)
Definition set_voxel_color (x y z : Z) (c : vec4) (v : t) : option t :=
  if negb (is_valid_coordinate v x y z) then Some v
  else
    let index := get_index v x y z in
    l ← vec_upd (voxels_ v) index (set_color c);
    Some (with_voxels l true true v).

(** [Volume::set_voxel_density] *)
Definition set_voxel_density (x y z : Z) (d : F32.t) (v : t) : option t :=
  if negb (is_valid_coordinate v x y z) then Some v
  else
    let index := get_index v x y z in
    l ← vec_upd (voxels_ v) index (set_density d);
    Some (with_voxels l (gpu_data_dirty_ v) true v).

(** [Volume::get_voxel] *)
Definition get_voxel (v : t) (x y z : Z) : option Voxel :=
  if negb (is_valid_coordinate v x y z) then Some Voxel_default
  else vec_get (voxels_ v) (get_index v x y z).

(** [Volume::is_voxel_active] *)
Definition is_voxel_active (v : t) (x y z : Z) : option bool :=
  if negb (is_valid_coordinate v x y z) then Some false
  else active <$> vec_get (voxels_ v) (get_index v x y z).

(** [Volume::active_voxel_count] *)
Definition active_voxel_count (v : t) : Z :=
  Z.of_nat (length (filter (fun vx => active vx = true) (voxels_ v))).

(** The test of [Volume::fill_box] on one voxel position. *)
Definition box_test (min_pos max_pos voxel_pos : vec3) : bool :=
  F32.geb (v3x voxel_pos) (v3x min_pos) && F32.leb (v3x voxel_pos) (v3x max_pos)
  || F32.geb (v3y voxel_pos) (v3y min_pos) && F32.leb (v3y voxel_pos) (v3y max_pos)
  || F32.geb (v3z voxel_pos) (v3z min_pos) && F32.leb (v3z voxel_pos) (v3z max_pos).

Definition fill_voxel (c : vec4) (vx : Voxel) : Voxel :=
  set_density F32.one (set_color c (set_active true vx)).

(** [Volume::fill_box] *)
Definition fill_box (min_pos max_pos : vec3) (c : vec4) (v : t) : option t :=
  v' ← for_range 0 (depth_ v) (fun z =>
         for_range 0 (height_ v) (fun y =>
           for_range 0 (width_ v) (fun x v =>
             let voxel_pos := voxel_to_world v x y z in
             if box_test min_pos max_pos voxel_pos then
               let index := get_index v x y z in
               l ← vec_upd (voxels_ v) index (fill_voxel c);
               Some (with_voxels l (gpu_data_dirty_ v) (volume_texture_dirty_ v) v)
             else Some v))) v;
  Some (with_voxels (voxels_ v') true true v').

(** [Volume::create_cube], with the default voxel size of the constructor
    and the multiplications [size * 0.5f] in binary32. *)
Definition create_cube (size : Z) (c : vec4) : option t :=
  volume ← make size size size (F32.of_int VOLUME_VOXEL_SIZE);
  let min_pos := vec3_splat (F32.mul (F32.of_int (CInt.neg size)) F32.half) in
  let max_pos := vec3_splat (F32.mul (F32.of_int size) F32.half) in
  fill_box min_pos max_pos c volume.

(** [Volume::create_plane] *)
Definition create_plane (width height : Z) (c : vec4) : option t :=
  volume ← make width height 1 (F32.of_int VOLUME_VOXEL_SIZE);
  let min_pos :=
    Vec3 (F32.mul (F32.of_int (CInt.neg width)) F32.half)
         (F32.mul (F32.of_int (CInt.neg height)) F32.half)
         (F32.neg F32.half) in
  let max_pos :=
    Vec3 (F32.mul (F32.of_int width) F32.half)
         (F32.mul (F32.of_int height) F32.half)
         F32.half in
  fill_box min_pos max_pos c volume.

(** What [fill_sphere] writes into a voxel at squared distance
    [distance_squared] from the centre. *)
Definition sphere_voxel (radius : F32.t) (c : vec4) (distance_squared : F32.t)
    (vx : Voxel) : Voxel :=
  set_density (F32.sub F32.one (F32.div (F32.sqrt distance_squared) radius))
              (set_color c (set_active true vx)).

(** The squared distance of a position from the centre of a sphere. *)
Definition distance_squared (center voxel_pos : vec3) : F32.t :=
  let diff := vec3_sub voxel_pos center in
  vec3_dot diff diff.

(** [Volume::fill_sphere] *)
Definition fill_sphere (center : vec3) (radius : F32.t) (c : vec4) (v : t)
  : option t :=
  let radius_squared := F32.mul radius radius in
  v' ← for_range 0 (depth_ v) (fun z =>
         for_range 0 (height_ v) (fun y =>
           for_range 0 (width_ v) (fun x v =>
             let voxel_pos := voxel_to_world v x y z in
             let distance_squared := distance_squared center voxel_pos in
             if F32.leb distance_squared radius_squared then
               let index := get_index v x y z in
               l ← vec_upd (voxels_ v) index (sphere_voxel radius c distance_squared);
               Some (with_voxels l (gpu_data_dirty_ v) (volume_texture_dirty_ v) v)
             else Some v))) v;
  Some (with_voxels (voxels_ v') true true v').

(** [Volume::create_sphere] *)
Definition create_sphere (radius : Z) (c : vec4) : option t :=
  let size := CInt.add (CInt.mul radius 2) 1 in
  volume ← make size size size (F32.of_int VOLUME_VOXEL_SIZE);
  fill_sphere (vec3_splat F32.zero) (F32.of_int radius) c volume.

(** [static_cast<int>(std::round(x))]: the nearest whole number, halves
    away from zero; the conversion is undefined for a value that is not a
    number, is infinite or lies outside of [int]. *)
Definition round_to_int (x : F32.t) : option Z :=
  match x with
  | S754_zero _ => Some 0
  | S754_finite s m e =>
      let r :=
        if 0 <=? e then Zpos m * 2 ^ e
        else
          let q := Zpos m / 2 ^ (- e) in
          if 2 * (Zpos m mod 2 ^ (- e)) <? 2 ^ (- e) then q else q + 1 in
      let n := cond_Zopp s r in
      if (- 2 ^ 31 <=? n) && (n <? 2 ^ 31) then Some n else None
  | _ => None
  end.

(** [Volume::world_to_voxel] *)
Definition world_to_voxel (v : t) (world_pos : vec3) : option (Z * Z * Z) :=
  let adjusted_y := F32.sub (v3y world_pos) (F32.mul (voxel_size_ v) F32.half) in
  let world_x := v3x world_pos in
  let world_y := adjusted_y in
  let world_z := v3z world_pos in
  x ← round_to_int (F32.add (F32.div world_x (voxel_size_ v))
                            (F32.mul (F32.of_int (width_ v)) F32.half));
  z ← round_to_int (F32.div world_y (voxel_size_ v));
  y ← round_to_int (F32.add (F32.div (F32.neg world_z) (voxel_size_ v))
                            (F32.mul (F32.of_int (height_ v)) F32.half));
  Some (x, y, z).

(** The axis-aligned containment test that a box would call for: inside on
    all three axes. *)
Definition inside_box (min_pos max_pos voxel_pos : vec3) : bool :=
  (F32.geb (v3x voxel_pos) (v3x min_pos) && F32.leb (v3x voxel_pos) (v3x max_pos))
  && (F32.geb (v3y voxel_pos) (v3y min_pos) && F32.leb (v3y voxel_pos) (v3y max_pos))
  && (F32.geb (v3z voxel_pos) (v3z min_pos) && F32.leb (v3z voxel_pos) (v3z max_pos)).

(** [Volume::clear_all] *)
Definition clear_all (v : t) : t :=
  with_voxels
    ((fun vx => set_density F32.zero
                  (set_color (vec4_splat F32.one) (set_active false vx)))
       <$> voxels_ v)
    true true v.

(** [Volume::activate_all] *)
Definition activate_all (v : t) : t :=
  with_voxels (set_active true <$> voxels_ v) true (volume_texture_dirty_ v) v.

(** [Volume::deactivate_all] *)
Definition deactivate_all (v : t) : t :=
  with_voxels (set_active false <$> voxels_ v) true (volume_texture_dirty_ v) v.

(** [Volume::set_all_color] *)
Definition set_all_color (c : vec4) (v : t) : t :=
  with_voxels (set_color c <$> voxels_ v) true true v.

(** [Volume::voxel_count] *)
Definition voxel_count (v : t) : Z := Z.of_nat (length (voxels_ v)).

(** [Volume::generate_active_voxel_data]: the positions and the colours of
    the active voxels, in the order of the voxel array. *)
Definition generate_active_voxel_data (v : t) : list vec3 * list vec4 :=
  foldl (fun pc voxel =>
           if active voxel
           then (pc.1 ++ [position voxel], pc.2 ++ [color voxel])
           else pc)
        ([], []) (voxels_ v).

(** A grid as the constructor leaves it: one voxel per cell, and a cell
    count that fits an [int]. *)
Definition wf (v : t) : Prop :=
  0 <= width_ v /\ 0 <= height_ v /\ 0 <= depth_ v
  /\ width_ v * height_ v * depth_ v < 2 ^ 31
  /\ Z.of_nat (length (voxels_ v)) = width_ v * height_ v * depth_ v.

End Volume.

(** ** OpenCV matrices and points *)

Module Mat.

(** A dense two-dimensional [cv::Mat], elements in row-major order. *)
Record t (A : Type) := Mk { rows : Z; cols : Z; data : list A }.
Arguments Mk {A} _ _ _.
Arguments rows {A} _.
Arguments cols {A} _.
Arguments data {A} _.

(** The invariant that [cv::Mat] keeps between its header and its buffer. *)
Definition wf {A} (m : t A) : Prop :=
  0 <= rows m /\ 0 <= cols m /\ Z.of_nat (length (data m)) = rows m * cols m.

(** [Mat::empty()]: no buffer or no element. *)
Definition empty {A} (m : t A) : bool :=
  match data m with
  | [] => true
  | _ :: _ => rows m * cols m =? 0
  end.

(** [m.at<A>(i, j)], undefined outside the buffer. *)
Definition at_ {A} (m : t A) (i j : Z) : option A :=
  if (0 <=? i) && (0 <=? j) then data m !! Z.to_nat (i * cols m + j) else None.

(** A matrix given by its elements. *)
Definition init {A} (r c : Z) (f : Z -> Z -> A) : t A :=
  Mk r c ((fun i => f (i / c) (i mod c)) <$> seqZ 0 (r * c)).

Definition same_size {A B} (a : t A) (b : t B) : bool :=
  (rows a =? rows b) && (cols a =? cols b).

(** [cv::Mat()] *)
Definition none {A} : t A := Mk 0 0 [].

(** [cv::Mat::zeros(r, c, CV_64F)] *)
Definition zeros (r c : Z) : t F64.t :=
  Mk r c (replicate (Z.to_nat (r * c)) F64.zero).

End Mat.

Record Point2f := MkPoint2f { p2x : F32.t; p2y : F32.t }.
Record Point3f := MkPoint3f { p3x : F32.t; p3y : F32.t; p3z : F32.t }.

(** A colour image: one (blue, green, red) triple of bytes per pixel; a fourth
    channel, when the file has one, plays no part in what follows. *)
Definition Image := Mat.t (Z * Z * Z).
(** A single-channel 8-bit image. *)
Definition Mask := Mat.t Z.

(** [glm::mat4], sixteen numbers in column-major order. *)
Definition mat4 := list F32.t.
Definition mat4_zero : mat4 := replicate 16%nat F32.zero.
(** [m[c][r] = x] *)
Definition mat4_set (c r : nat) (x : F32.t) (m : mat4) : mat4 :=
  <[(4 * c + r)%nat := x]> m.

(** ** Exceptions *)

Inductive outcome (A : Type) :=
| Ok (a : A)
| Throw (msg : string)
| Undefined.
Arguments Ok {A} _.
Arguments Throw {A} _.
Arguments Undefined {A}.

#[global] Instance outcome_ret : MRet outcome := fun _ a => Ok a.
#[global] Instance outcome_bind : MBind outcome := fun _ _ f m =>
  match m with
  | Ok a => f a
  | Throw msg => Throw msg
  | Undefined => Undefined
  end.

Definition of_option {A} (o : option A) : outcome A :=
  match o with Some a => Ok a | None => Undefined end.

Definition is_Ok {A} (o : outcome A) : bool :=
  match o with Ok _ => true | _ => false end.
Definition is_Throw {A} (o : outcome A) : bool :=
  match o with Throw _ => true | _ => false end.

(** [for (auto& x : xs) x = f(x)], stopping at the first exception. *)
Fixpoint map_outcome {A B} (f : A -> outcome B) (xs : list A) : outcome (list B) :=
  match xs with
  | [] => Ok []
  | x :: xs' => y ← f x; ys ← map_outcome f xs'; Ok (y :: ys)
  end.

(** ** Library calls *)

(** The OpenCV routines of the carver. *)
Class Projection := {
  (** [cv::projectPoints(obj_pts, rvec, tvec, camera, dist, img_pts)] *)
  projectPoints :
    list Point3f -> Mat.t F64.t -> Mat.t F64.t -> Mat.t F64.t -> Mat.t F64.t ->
    list Point2f;
  (** [cvRound] *)
  cvRound : F32.t -> Z
}.

(** [cv::cvtColor(_, _, cv::COLOR_BGR2HSV)] on one 8-bit pixel. *)
Class ColorSpace := {
  bgr2hsv : Z * Z * Z -> Z * Z * Z
}.

(** GLM and libm. *)
Class Glm := {
  (** [glm::perspective(fovy, aspect, near, far)] *)
  perspective : F32.t -> F32.t -> F32.t -> F32.t -> mat4;
  (** [glm::radians] *)
  radians : F32.t -> F32.t;
  (** [glm::degrees(2.0f * std::atan(x))] *)
  degrees_2atan : F32.t -> F32.t
}.

(** ** view.hpp *)

Definition DEFAULT_FOV : F32.t := F32.of_int 60.
Definition DEFAULT_NEAR : F32.t := F32.tenths 1.
Definition DEFAULT_FAR : F32.t := F32.of_int 10000.

Record View := MkView {
  (* OpenGL rendering data *)
  eye : vec3;
  at_ : vec3;
  up : vec3;
  fov : F32.t;
  near : F32.t;
  far : F32.t;
  forward : vec3;
  upward : vec3;
  right : vec3;
  proj : mat4;
  (* OpenCV calibration data *)
  intrinsic : Mat.t F64.t;
  distortion : Mat.t F64.t;
  rvec : Mat.t F64.t;
  tvec : Mat.t F64.t;
  tvec_proj : Mat.t F64.t;
  focal_length : Mat.t F64.t;
  principal_point : Mat.t F64.t;
  (* Background, foreground, mask images *)
  fg : Image;
  bg : Image;
  mask : Mask;
  (* Paths for background, foreground, and calibration files *)
  bg_path : string;
  fg_path : string;
  cb_path : string
}.

(** The four assignments at the end of [Camera::run_calibration] and in
    [Camera::read_calibration]. *)
Definition set_calibration (k d r t : Mat.t F64.t) (v : View) : View :=
  {| eye := eye v; at_ := at_ v; up := up v; fov := fov v; near := near v;
     far := far v; forward := forward v; upward := upward v; right := right v;
     proj := proj v;
     intrinsic := k; distortion := d; rvec := r; tvec := t;
     tvec_proj := tvec_proj v; focal_length := focal_length v;
     principal_point := principal_point v;
     fg := fg v; bg := bg v; mask := mask v;
     bg_path := bg_path v; fg_path := fg_path v; cb_path := cb_path v |}.

(** [view.mask = m; view.fov = f; view.proj = p] *)
Definition set_mask_fov_proj (m : Mask) (f : F32.t) (p : mat4) (v : View) : View :=
  {| eye := eye v; at_ := at_ v; up := up v; fov := f; near := near v;
     far := far v; forward := forward v; upward := upward v; right := right v;
     proj := p;
     intrinsic := intrinsic v; distortion := distortion v; rvec := rvec v;
     tvec := tvec v;
     tvec_proj := tvec_proj v; focal_length := focal_length v;
     principal_point := principal_point v;
     fg := fg v; bg := bg v; mask := m;
     bg_path := bg_path v; fg_path := fg_path v; cb_path := cb_path v |}.

(** ** project.hpp *)

Definition CHESS_COLS : Z := 7.
Definition CHESS_ROWS : Z := 7.
Definition CHESS_SQUARE : F32.t := F32.of_int 22.
Definition CHESS_PADDING : F32.t := F32.of_int 100.

Record Project := MkProject {
  empty : bool;
  initialized : bool;
  needs_calibration : bool;
  name : string;
  file : string;
  dir : string;
  chess_cols : Z;
  chess_rows : Z;
  square_size : F32.t;
  views : list View
}.

Definition set_views (vs : list View) (p : Project) : Project :=
  {| empty := empty p; initialized := initialized p;
     needs_calibration := needs_calibration p;
     name := name p; file := file p; dir := dir p;
     chess_cols := chess_cols p; chess_rows := chess_rows p;
     square_size := square_size p; views := vs |}.

(** [empty = false; initialized = true; needs_calibration = false] *)
Definition mark_initialized (p : Project) : Project :=
  {| empty := false; initialized := true; needs_calibration := false;
     name := name p; file := file p; dir := dir p;
     chess_cols := chess_cols p; chess_rows := chess_rows p;
     square_size := square_size p; views := views p |}.

(** ** scene.cpp *)

Module Scene.
Section Carving.
Context `{Projection}.

(** The lambda [voxel_visible] of [Scene::create_volume]. *)
Definition voxel_visible (view : View) (vox_pos : Point3f) : option bool :=
  if Mat.empty (mask view) then Some false
  else
    let img_pts :=
      projectPoints [vox_pos] (rvec view) (tvec_proj view) (intrinsic view)
                    (distortion view) in
    match img_pts with
    | [] => Some false
    | pt :: _ =>
        let px := cvRound (p2x pt) in
        let py := cvRound (p2y pt) in
        if (px <? 0) || (px >=? Mat.cols (mask view))
           || (py <? 0) || (py >=? Mat.rows (mask view))
        then Some false
        else m ← Mat.at_ (mask view) py px; Some (m =? 255)
    end.

(** [std::ranges::all_of(views, pred)]: true on an empty range, and it
    stops at the first view for which [pred] is false. *)
Fixpoint all_of (pred : View -> option bool) (vs : list View) : option bool :=
  match vs with
  | [] => Some true
  | view :: vs' =>
      b ← pred view; if (b : bool) then all_of pred vs' else Some false
  end.

Definition num_x : Z := CInt.div (CInt.mul VOLUME_BOX_LENGTH 2) VOLUME_VOXEL_SIZE.
Definition num_y : Z := CInt.div (CInt.mul VOLUME_BOX_LENGTH 2) VOLUME_VOXEL_SIZE.
Definition num_z : Z := CInt.div VOLUME_BOX_LENGTH VOLUME_VOXEL_SIZE.

(** The colour given to carved voxels, [glm::vec4(0.8f, 0.3f, 0.2f, 0.9f)]. *)
Definition carve_color : vec4 :=
  Vec4 (F32.tenths 8) (F32.tenths 3) (F32.tenths 2) (F32.tenths 9).

(** The position that the carving loop tests for the voxel of index
    [(xi, yi, zi)], in calibration coordinates. *)
Definition carve_position (xi yi zi : Z) : Point3f :=
  let x := CInt.add (CInt.neg VOLUME_BOX_LENGTH) (CInt.mul xi VOLUME_VOXEL_SIZE) in
  let y := CInt.add (CInt.neg VOLUME_BOX_LENGTH) (CInt.mul yi VOLUME_VOXEL_SIZE) in
  let z := CInt.mul zi VOLUME_VOXEL_SIZE in
  MkPoint3f (F32.of_int x) (F32.of_int y) (F32.of_int z).

(** One iteration of the loop of [Scene::create_volume]. *)
Definition carve_voxel (views : list View) (idx : Z) (volume : Volume.t)
  : option Volume.t :=
  let xi := CInt.div idx (CInt.mul num_y num_z) in
  let yi := CInt.rem (CInt.div idx num_z) num_y in
  let zi := CInt.rem idx num_z in
  all_visible ←
    all_of (fun view => voxel_visible view (carve_position xi yi zi)) views;
  if (all_visible : bool) then
    volume ← Volume.set_voxel_active xi yi zi true volume;
    Volume.set_voxel_color xi yi zi carve_color volume
  else Some volume.

(** [Scene::create_volume].  The iterations of the OpenMP loop write to
    distinct voxels; they are run here in index order.  The per-thread
    lists [thread_voxels] are filled and never read, and are left out. *)
Definition create_volume (views : list View) : option Volume.t :=
  volume ← Volume.make num_x num_y num_z (F32.of_int VOLUME_VOXEL_SIZE);
  volume ← for_range 0 (CInt.mul (CInt.mul num_x num_y) num_z)
             (carve_voxel views) volume;
  (* volume_->initialize() *)
  Some (Volume.with_voxels (Volume.voxels_ volume) true
          (Volume.volume_texture_dirty_ volume) volume).

(** One iteration of the loop of [Scene::create_empty_volume]. *)
Definition fill_voxel_at (idx : Z) (volume : Volume.t) : option Volume.t :=
  let xi := CInt.div idx (CInt.mul num_y num_z) in
  let yi := CInt.rem (CInt.div idx num_z) num_y in
  let zi := CInt.rem idx num_z in
  volume ← Volume.set_voxel_active xi yi zi true volume;
  Volume.set_voxel_color xi yi zi carve_color volume.

(** [Scene::create_empty_volume] *)
Definition create_empty_volume : option Volume.t :=
  volume ← Volume.make num_x num_y num_z (F32.of_int VOLUME_VOXEL_SIZE);
  volume ← for_range 0 (CInt.mul (CInt.mul num_x num_y) num_z)
             fill_voxel_at volume;
  Some (Volume.with_voxels (Volume.voxels_ volume) true
          (Volume.volume_texture_dirty_ volume) volume).

End Carving.
End Scene.

(** ** OpenCV image arithmetic

    The element-wise routines that [Camera::calc_mask] calls, on 8-bit
    single-channel images, written out from their documented behaviour. *)

Module Cv.
Section Ops.
Context `{ColorSpace}.

(** [cv::cvtColor(src, dst, cv::COLOR_BGR2HSV)]: refuses an empty source. *)
Definition cvtColor_BGR2HSV (src : Image) : outcome Image :=
  if Mat.empty src then Throw "cvtColor: empty source"%string
  else Ok (Mat.Mk (Mat.rows src) (Mat.cols src) (bgr2hsv <$> Mat.data src)).

(** [cv::split] of a three-channel image. *)
Definition split (src : Image) : Mask * Mask * Mask :=
  let chan (f : Z * Z * Z -> Z) :=
    Mat.Mk (Mat.rows src) (Mat.cols src) (f <$> Mat.data src) in
  (chan (fun p => p.1.1), chan (fun p => p.1.2), chan (fun p => p.2)).

(** A binary element-wise operation; the inputs must agree in size. *)
Definition binary_op (f : Z -> Z -> Z) (a b : Mask) : outcome Mask :=
  if Mat.same_size a b
  then Ok (Mat.Mk (Mat.rows a) (Mat.cols a) (zip_with f (Mat.data a) (Mat.data b)))
  else Throw "arithmetic: sizes of the inputs do not match"%string.

Definition absdiff : Mask -> Mask -> outcome Mask :=
  binary_op (fun x y => Z.abs (x - y)).
Definition bitwise_and : Mask -> Mask -> outcome Mask := binary_op Z.land.
Definition bitwise_or : Mask -> Mask -> outcome Mask := binary_op Z.lor.

(** [cv::threshold(src, dst, thresh, maxval, cv::THRESH_BINARY)] *)
Definition threshold (src : Mask) (thresh maxval : Z) : Mask :=
  Mat.Mk (Mat.rows src) (Mat.cols src)
    ((fun x => if x >? thresh then maxval else 0) <$> Mat.data src).

Inductive MorphShape := MORPH_RECT | MORPH_CROSS.

(** [cv::getStructuringElement(shape, cv::Size(w, h))], anchored at its
    centre. *)
Definition getStructuringElement (shape : MorphShape) (w h : Z) : Mask :=
  Mat.init h w (fun i j =>
    match shape with
    | MORPH_RECT => 1
    | MORPH_CROSS => if (i =? h / 2) || (j =? w / 2) then 1 else 0
    end).

(** The offsets, from the anchor, of the non-zero elements of a kernel. *)
Definition kernel_offsets (k : Mask) : list (Z * Z) :=
  omap (fun '(i, e) =>
          if e =? 0 then None
          else Some (Z.of_nat i / Mat.cols k - Mat.rows k / 2,
                     Z.of_nat i mod Mat.cols k - Mat.cols k / 2))
       (imap (fun i e => (i, e)) (Mat.data k)).

(** The pixel at [(i, j)], or the border value outside the image. *)
Definition pixel_or (border : Z) (src : Mask) (i j : Z) : Z :=
  if (0 <=? i) && (i <? Mat.rows src) && (0 <=? j) && (j <? Mat.cols src)
  then default border (Mat.data src !! Z.to_nat (i * Mat.cols src + j))
  else border.

(** One pass of a morphological filter. *)
Definition morph (op : Z -> Z -> Z) (border : Z) (offsets : list (Z * Z))
    (src : Mask) : Mask :=
  Mat.init (Mat.rows src) (Mat.cols src) (fun y x =>
    foldr (fun d acc => op (pixel_or border src (y + d.1) (x + d.2)) acc)
          border offsets).

(** [cv::erode] and [cv::dilate] with the default anchor and border: an
    empty kernel stands for the 3x3 rectangle, any other kernel (here
    always one that is not a full rectangle) is applied [iterations] times.
    Outside the image erosion sees the largest byte and dilation the
    smallest. *)
Definition morphOp (op : Z -> Z -> Z) (border : Z) (kernel : option Mask)
    (iterations : nat) (src : Mask) : Mask :=
  match kernel with
  | None =>
      let side := 1 + 2 * Z.of_nat iterations in
      morph op border (kernel_offsets (getStructuringElement MORPH_RECT side side)) src
  | Some k => Nat.iter iterations (morph op border (kernel_offsets k)) src
  end.

Definition erode : option Mask -> nat -> Mask -> Mask := morphOp Z.min 255.
Definition dilate : option Mask -> nat -> Mask -> Mask := morphOp Z.max 0.

End Ops.
End Cv.

(** ** camera.cpp *)

(** The persisted calibration record of one view: four named matrices. *)
Record CalibRecord := MkCalibRecord {
  camera_matrix : Mat.t F64.t;
  dist_coeffs : Mat.t F64.t;
  rec_rvec : Mat.t F64.t;
  rec_tvec : Mat.t F64.t
}.

(** A file under a calibration path: one that [cv::FileStorage] opens for
    reading, with the four matrices that the four keys give (an entry that
    the file lacks reads as an empty matrix), or one that exists and that
    [cv::FileStorage] does not open. *)
Inductive CalibFile :=
| Readable (r : CalibRecord)
| Unreadable.

(** The calibration files on disk, by path; a path without a file has no
    entry. *)
Abbreviation FileSystem := (gmap string CalibFile).

(** The OpenCV routines of the calibrator and the parts of
    [Camera::calibrate_view] that are matrix arithmetic in floating point. *)
Class Calibration := {
  (** [cv::imread(path, cv::IMREAD_GRAYSCALE)] *)
  imread_grayscale : string -> Mask;
  (** [cv::findChessboardCorners(img, cv::Size(w, h), corners, flags)]:
      the corners when the pattern is found. *)
  findChessboardCorners : Mask -> Z -> Z -> option (list Point2f);
  (** [cv::cornerSubPix] *)
  cornerSubPix : Mask -> list Point2f -> list Point2f;
  (** The key that [cv::waitKey(0)] returns for the preview of the [i]-th
      image. *)
  waitKey : nat -> Mask -> list Point2f -> Z;
  (** [cv::calibrateCamera]: camera matrix, distortion coefficients, and
      one rotation and one translation vector per image. *)
  calibrateCamera :
    list (list Point3f) -> list (list Point2f) -> Z * Z ->
    outcome (Mat.t F64.t * Mat.t F64.t * list (Mat.t F64.t) * list (Mat.t F64.t));
  (** The conversions to double precision and the extraction of focal length
      and principal point at the start of [calibrate_view]. *)
  intrinsic_parts : View -> outcome View;
  (** The end of [calibrate_view], from [cv::Rodrigues] on: camera centre,
      [tvec_proj], orientation basis and eye position. *)
  pose_geometry : View -> outcome View
}.

Module Camera.
Section Core.
Context `{ColorSpace} `{Glm} `{Calibration}.

(** Mask thresholding values *)
Definition THRESHOLD_H : Z := 20.
Definition THRESHOLD_S : Z := 20.
Definition THRESHOLD_V : Z := 40.

(** [Camera::calc_mask] *)
Definition calc_mask (fg_img bg_img : Image) : outcome Mask :=
  fg_hsv ← Cv.cvtColor_BGR2HSV fg_img;
  bg_hsv ← Cv.cvtColor_BGR2HSV bg_img;
  let '(fg_h, fg_s, fg_v) := Cv.split fg_hsv in
  let '(bg_h, bg_s, bg_v) := Cv.split bg_hsv in
  diff_h ← Cv.absdiff fg_h bg_h;
  diff_s ← Cv.absdiff fg_s bg_s;
  diff_v ← Cv.absdiff fg_v bg_v;
  let maxval := 255 in
  let mask_h := Cv.threshold diff_h THRESHOLD_H maxval in
  let mask_s := Cv.threshold diff_s THRESHOLD_S maxval in
  let mask_v := Cv.threshold diff_v THRESHOLD_V maxval in
  mask ← Cv.bitwise_and mask_h mask_s;
  mask ← Cv.bitwise_or mask mask_v;
  let mask := Cv.erode None 1 mask in
  let mask :=
    Cv.dilate (Some (Cv.getStructuringElement Cv.MORPH_CROSS 5 5)) 2 mask in
  let mask := Cv.erode None 1 mask in
  Ok mask.

(** [Camera::calc_fov] *)
Definition calc_fov (focal_length view_width : F32.t) : F32.t :=
  degrees_2atan (F32.div view_width (F32.mul F32.two focal_length)).

Definition common_res : list (Z * Z) :=
  [(640, 480); (800, 600); (1024, 768); (1280, 720); (1280, 960); (1920, 1080)].

(** The loop of [Camera::calc_proj] over [common_res]; the state is
    [(best_err, calib_w, calib_h)]. *)
Definition guess_resolution (cx cy : F64.t) : F64.t * F64.t * F64.t :=
  foldl (fun st r =>
           let '(best_err, calib_w, calib_h) := st in
           if F64.ltb cx (F64.of_int r.1) && F64.ltb cy (F64.of_int r.2) then
             let hx := F64.div (F64.of_int r.1) F64.two in
             let hy := F64.div (F64.of_int r.2) F64.two in
             let err := F64.add (F64.div (F64.abs (F64.sub cx hx)) hx)
                                (F64.div (F64.abs (F64.sub cy hy)) hy) in
             if F64.ltb err best_err
             then (err, F64.of_int r.1, F64.of_int r.2)
             else st
           else st)
        (F64.max_value, F64.mul cx F64.two, F64.mul cy F64.two)
        common_res.

(** [Camera::calc_proj] *)
Definition calc_proj (intrinsic : Mat.t F64.t) (width height near_plane far_plane : F32.t)
  : option mat4 :=
  if Mat.empty intrinsic || (Mat.rows intrinsic <? 3) || (Mat.cols intrinsic <? 3)
  then Some (perspective (radians DEFAULT_FOV) (F32.div width height)
                         near_plane far_plane)
  else
    fx ← Mat.at_ intrinsic 0 0;
    fy ← Mat.at_ intrinsic 1 1;
    cx ← Mat.at_ intrinsic 0 2;
    cy ← Mat.at_ intrinsic 1 2;
    let '(_, calib_w, calib_h) := guess_resolution cx cy in
    let scale := F64.min (F64.div (F64.of_f32 width) calib_w)
                         (F64.div (F64.of_f32 height) calib_h) in
    let fx_s := F64.mul fx scale in
    let fy_s := F64.mul fy scale in
    let cx_s := F64.add (F64.mul cx scale)
                  (F64.mul (F64.sub (F64.of_f32 width) (F64.mul calib_w scale))
                           F64.half) in
    let cy_s := F64.add (F64.mul cy scale)
                  (F64.mul (F64.sub (F64.of_f32 height) (F64.mul calib_h scale))
                           F64.half) in
    let m := mat4_zero in
    let m := mat4_set 0 0 (F32.div (F32.mul F32.two (F64.to_f32 fx_s)) width) m in
    let m := mat4_set 1 1 (F32.div (F32.mul F32.two (F64.to_f32 fy_s)) height) m in
    let m := mat4_set 2 0
               (F32.sub F32.one (F32.div (F32.mul F32.two (F64.to_f32 cx_s)) width)) m in
    let m := mat4_set 2 1
               (F32.sub (F32.div (F32.mul F32.two (F64.to_f32 cy_s)) height) F32.one) m in
    let m := mat4_set 2 2
               (F32.div (F32.neg (F32.add far_plane near_plane))
                        (F32.sub far_plane near_plane)) m in
    let m := mat4_set 2 3 (F32.neg F32.one) m in
    let m := mat4_set 3 2
               (F32.div (F32.mul (F32.mul (F32.neg F32.two) far_plane) near_plane)
                        (F32.sub far_plane near_plane)) m in
    Some m.

(** [Camera::calibrate_view] *)
Definition calibrate_view (view : View) : outcome View :=
  let view_width := F32.of_int VIEW_WIDTH in
  let view_height := F32.of_int VIEW_HEIGHT in
  view ← intrinsic_parts view;
  mask ← calc_mask (fg view) (bg view);
  fx ← of_option (Mat.at_ (intrinsic view) 0 0);
  let fov := calc_fov (F64.to_f32 fx) view_width in
  proj ← of_option (calc_proj (intrinsic view) view_width view_height
                              DEFAULT_NEAR DEFAULT_FAR);
  pose_geometry (set_mask_fov_proj mask fov proj view).

(** The object-point template of the chessboard corners. *)
Definition object_template (cols rows : Z) (square_size : F32.t) : list Point3f :=
  (fun i =>
     MkPoint3f
       (F32.mul (F32.of_int (CInt.div i rows)) (F32.add square_size CHESS_PADDING))
       (F32.mul (F32.of_int (CInt.rem i rows)) (F32.add square_size CHESS_PADDING))
       F32.zero)
  <$> seqZ 0 (CInt.mul cols rows).

(** The detection loop of [Camera::run_calibration]: the grayscale image
    and the refined corners of every view in which the chessboard is found,
    in the order of the views. *)
Fixpoint detect_corners (cols rows : Z) (vs : list View)
  : list (Mask * list Point2f) :=
  match vs with
  | [] => []
  | view :: vs' =>
      let img := imread_grayscale (bg_path view) in
      match findChessboardCorners img rows cols with
      | Some corners =>
          (img, cornerSubPix img corners) :: detect_corners cols rows vs'
      | None => detect_corners cols rows vs'
      end
  end.

(** Whether the chessboard is found in the background image of a view. *)
Definition detected (cols rows : Z) (view : View) : bool :=
  match findChessboardCorners (imread_grayscale (bg_path view)) rows cols with
  | Some _ => true
  | None => false
  end.

(** The messages of the two [std::runtime_error]s of [run_calibration]. *)
Definition aborted_by_user : string := "Calibration aborted by user.".
Definition not_enough_chessboards : string :=
  "Calibration failed: not enough chessboards detected (need at least 75% of views).".

(** The preview loop: ESC (27) aborts. *)
Fixpoint preview (i : nat) (shots : list (Mask * list Point2f)) : outcome unit :=
  match shots with
  | [] => Ok ()
  | (img, pts) :: shots' =>
      if waitKey i img pts =? 27
      then Throw aborted_by_user
      else preview (S i) shots'
  end.

(** [images.size() < project_->views.size() * 0.75].  The product is exact
    in binary64 for any number of views that fits in memory, so the
    comparison is the one of the rationals. *)
Definition too_few_detections (n_images n_views : nat) : bool :=
  4 * Z.of_nat n_images <? 3 * Z.of_nat n_views.

(** One iteration of the loop that saves the calibration results. *)
Definition save_result (k d : Mat.t F64.t) (rvecs tvecs : list (Mat.t F64.t))
    (i : nat) (vs : list View) : outcome (list View) :=
  match vs !! i, rvecs !! i, tvecs !! i with
  | Some v, Some r, Some t => Ok (<[i := set_calibration k d r t v]> vs)
  | _, _, _ => Undefined
  end.

Fixpoint save_results (k d : Mat.t F64.t) (rvecs tvecs : list (Mat.t F64.t))
    (ixs : list nat) (vs : list View) : outcome (list View) :=
  match ixs with
  | [] => Ok vs
  | i :: ixs' =>
      vs' ← save_result k d rvecs tvecs i vs;
      save_results k d rvecs tvecs ixs' vs'
  end.

(** [Camera::run_calibration] *)
Definition run_calibration (project : Project) : outcome Project :=
  let cols := chess_cols project in
  let rows := chess_rows project in
  let obj_points := object_template cols rows (square_size project) in
  let shots := detect_corners cols rows (views project) in
  let images := shots.*1 in
  let image_points := shots.*2 in
  let object_points := replicate (length shots) obj_points in
  _ ← preview 0 shots;
  if too_few_detections (length images) (length (views project)) then
    Throw not_enough_chessboards
  else
    first ← of_option (head images);
    '(camera_matrix, distortion_coeffs, rvecs, tvecs) ←
      calibrateCamera object_points image_points (Mat.cols first, Mat.rows first);
    vs ← save_results camera_matrix distortion_coeffs rvecs tvecs
           (seq 0 (length images)) (views project);
    Ok (set_views vs project).

Definition record_of (view : View) : CalibRecord :=
  {| camera_matrix := intrinsic view; dist_coeffs := distortion view;
     rec_rvec := rvec view; rec_tvec := tvec view |}.

(** [Camera::read_calibration] on one view, paired with whether the view
    was loaded.  The three tests of the loop body come in the order of the
    source: an empty path, a path without a file, a file that
    [cv::FileStorage] does not open; each of them leaves the view as it
    is. *)
Definition read_view (fs : FileSystem) (view : View) : bool * View :=
  if String.eqb (cb_path view) EmptyString then (false, view)
  else
    match fs !! cb_path view with
    | None => (false, view)
    | Some Unreadable => (false, view)
    | Some (Readable r) =>
        (true, set_calibration (camera_matrix r) (dist_coeffs r) (rec_rvec r)
                 (rec_tvec r) view)
    end.

(** [Camera::read_calibration] *)
Definition read_calibration (fs : FileSystem) (project : Project) : bool * Project :=
  let rs := read_view fs <$> views project in
  (forallb fst rs, set_views rs.*2 project).

(** [Camera::write_calibration]: one file per view of the project. *)
Definition write_calibration (project : Project) (fs : FileSystem) : FileSystem :=
  foldl (fun fs view => <[cb_path view := Readable (record_of view)]> fs) fs
        (views project).

(** [Camera::load_project], as far as the project and the calibration files
    go; the free-form camera state is left out.  The result pairs what the
    call returns or throws with the files it leaves behind. *)
Definition load_project (project : Project) (fs : FileSystem)
  : outcome Project * FileSystem :=
  let finish (project : Project) (fs : FileSystem) :=
    (vs ← map_outcome calibrate_view (views project);
     Ok (mark_initialized (set_views vs project)), fs) in
  if needs_calibration project then
    match run_calibration project with
    | Ok project => finish project (write_calibration project fs)
    | Throw msg => (Throw msg, fs)
    | Undefined => (Undefined, fs)
    end
  else finish (read_calibration fs project).2 fs.

(** The camera besides the calibration files: the index of the static
    view, the project, and the one [View] object of the camera.  The class
    has two members for that object, [freeform_view_] and the reference
    [current_view_], which the constructor binds to [freeform_view_]; a
    reference is never bound again, so both name the same object in every
    state. *)
Record State := MkState {
  current_view_index_ : Z;
  project_ : Project;
  freeform_view_ : View
}.

(** Reading through the reference [current_view_]: [Camera::current_view]. *)
Definition current_view (c : State) : View := freeform_view_ c.

(** [freeform_view_ = view] *)
Definition assign_freeform_view (view : View) (c : State) : State :=
  {| current_view_index_ := current_view_index_ c; project_ := project_ c;
     freeform_view_ := view |}.

(** [current_view_ = view]: an assignment to the object that the reference
    names. *)
Definition assign_current_view (view : View) (c : State) : State :=
  assign_freeform_view view c.

(** [current_view_index_ = i] *)
Definition assign_current_view_index (i : Z) (c : State) : State :=
  {| current_view_index_ := i; project_ := project_ c;
     freeform_view_ := freeform_view_ c |}.

(** [Camera::in_static_view] *)
Definition in_static_view (c : State) : bool := current_view_index_ c >=? 0.

(** [Camera::set_view].  The index is compared with the size of the vector
    and used as a subscript after conversion to [size_t]. *)
Definition set_view (view_index : Z) (c : State) : option State :=
  let c :=
    if current_view_index_ c =? -1
    then assign_freeform_view (current_view c) c
    else c in
  if (view_index >=? 0)
     && (CInt.to_size_t view_index <? Z.of_nat (length (views (project_ c))))
  then
    let c := assign_current_view_index view_index c in
    view ← vec_get (views (project_ c)) (CInt.to_size_t view_index);
    Some (assign_current_view view c)
  else Some c.

(** [Camera::resize] *)
Definition resize (width height : Z) (c : State) : option State :=
  let width_f := F32.of_int width in
  let height_f := F32.of_int height in
  let c :=
    assign_freeform_view
      (set_mask_fov_proj (mask (freeform_view_ c))
         (calc_fov DEFAULT_FOV width_f)
         (perspective (radians DEFAULT_FOV) (F32.div width_f height_f)
                      DEFAULT_NEAR DEFAULT_FAR)
         (freeform_view_ c)) c in
  vs ← mapM (fun view =>
               fx ← Mat.at_ (intrinsic view) 0 0;
               proj ← calc_proj (intrinsic view) width_f height_f
                                DEFAULT_NEAR DEFAULT_FAR;
               Some (set_mask_fov_proj (mask view)
                       (calc_fov (F64.to_f32 fx) width_f) proj view))
            (views (project_ c));
  Some {| current_view_index_ := current_view_index_ c;
          project_ := set_views vs (project_ c);
          freeform_view_ := freeform_view_ c |}.

End Core.
End Camera.

(** ** Visibility as the specification words it

    A voxel is visible in a view when its projected pixel falls inside the
    image bounds and the mask of the view is fully on at that pixel. *)

Module CarveSpec.
Section Spec.
Context `{Projection}.

(** The pixel, column first, on which a view sees a point. *)
Definition projected_pixel (view : View) (pos : Point3f) : option (Z * Z) :=
  match projectPoints [pos] (rvec view) (tvec_proj view) (intrinsic view)
                      (distortion view) with
  | pt :: _ => Some (cvRound (p2x pt), cvRound (p2y pt))
  | [] => None
  end.

Definition inside_bounds (m : Mask) (px py : Z) : bool :=
  (0 <=? px) && (px <? Mat.cols m) && (0 <=? py) && (py <? Mat.rows m).

Definition visible (view : View) (pos : Point3f) : bool :=
  match projected_pixel view pos with
  | Some (px, py) =>
      inside_bounds (mask view) px py
      && match Mat.at_ (mask view) py px with
         | Some m => m =? 255
         | None => false
         end
  | None => false
  end.

(** The same, as a proposition. *)
Definition fully_on_at (view : View) (pos : Point3f) : Prop :=
  exists px py,
    projected_pixel view pos = Some (px, py)
    /\ 0 <= px < Mat.cols (mask view) /\ 0 <= py < Mat.rows (mask view)
    /\ Mat.at_ (mask view) py px = Some 255.

End Spec.
End CarveSpec.

(** ** The mask extractor as the specification words it

    Convert both images to hue, saturation and value; a pixel of the raw mask
    is fully on when the two images differ by more than 20 in hue and by more
    than 20 in saturation, or by more than 40 in value; clean the raw mask by
    one erosion, two dilations with the 5x5 cross, and one more erosion.  The
    specification names no element for the erosions; they use the 3x3 square
    that the library takes when none is given. *)

Module MaskSpec.
Section Spec.
Context `{ColorSpace}.

Definition differs_enough (fg_px bg_px : Z * Z * Z) : bool :=
  let '(fh, fs, fv) := bgr2hsv fg_px in
  let '(bh, bs, bv) := bgr2hsv bg_px in
  (Z.abs (fh - bh) >? 20) && (Z.abs (fs - bs) >? 20) || (Z.abs (fv - bv) >? 40).

Definition raw_mask (fg_img bg_img : Image) : Mask :=
  Mat.Mk (Mat.rows fg_img) (Mat.cols fg_img)
    (zip_with (fun f b => if differs_enough f b then 255 else 0)
              (Mat.data fg_img) (Mat.data bg_img)).

(** The 3x3 square and the 5x5 cross, as offsets from their centre. *)
Definition square3 : list (Z * Z) :=
  [(-1, -1); (-1, 0); (-1, 1); (0, -1); (0, 0); (0, 1); (1, -1); (1, 0); (1, 1)].
Definition cross5 : list (Z * Z) :=
  [(-2, 0); (-1, 0); (0, -2); (0, -1); (0, 0); (0, 1); (0, 2); (1, 0); (2, 0)].

(** The pixel at [(y, x)], if the image has one. *)
Definition pixel (src : Mask) (y x : Z) : option Z :=
  if (0 <=? y) && (y <? Mat.rows src) && (0 <=? x) && (x <? Mat.cols src)
  then Mat.data src !! Z.to_nat (y * Mat.cols src + x)
  else None.

(** The pixels of the image under the element centred at [(y, x)]. *)
Definition neighbours (offsets : list (Z * Z)) (src : Mask) (y x : Z) : list Z :=
  omap (fun d => pixel src (y + d.1) (x + d.2)) offsets.

(** Erosion takes the least and dilation the greatest byte under the
    element. *)
Definition erosion (offsets : list (Z * Z)) (src : Mask) : Mask :=
  Mat.init (Mat.rows src) (Mat.cols src) (fun y x =>
    foldr Z.min 255 (neighbours offsets src y x)).
Definition dilation (offsets : list (Z * Z)) (src : Mask) : Mask :=
  Mat.init (Mat.rows src) (Mat.cols src) (fun y x =>
    foldr Z.max 0 (neighbours offsets src y x)).

Definition calc_mask (fg_img bg_img : Image) : Mask :=
  erosion square3 (dilation cross5 (dilation cross5 (erosion square3
    (raw_mask fg_img bg_img)))).

End Spec.
End MaskSpec.

(** ** Sample inputs

    Small instances of the library interfaces and small inputs on which the
    model runs by computation. *)

Module Sample.

(** Round to nearest, ties to even, of [m * 2^e]. *)
Definition round_int (x : F32.t) : Z :=
  match x with
  | S754_finite s m e =>
      let r :=
        if 0 <=? e then Zpos m * 2 ^ e
        else
          let q := Zpos m / 2 ^ (- e) in
          let twice_rest := 2 * (Zpos m mod 2 ^ (- e)) in
          if twice_rest <? 2 ^ (- e) then q
          else if 2 ^ (- e) <? twice_rest then q + 1
          else if Z.even q then q else q + 1 in
      cond_Zopp s r
  | _ => 0
  end.

(** An orthographic camera looking down the z axis: a point lands on the
    pixel of its x and y coordinates. *)
#[export] Instance projection : Projection := {|
  projectPoints := fun pts _ _ _ _ => (fun p => MkPoint2f (p3x p) (p3y p)) <$> pts;
  cvRound := round_int
|}.

(** Hue, saturation and value replaced by the three bytes themselves. *)
#[export] Instance color_space : ColorSpace := {| bgr2hsv := fun p => p |}.

#[export] Instance glm : Glm := {|
  perspective := fun fovy aspect n f =>
    mat4_set 0 0 fovy (mat4_set 1 1 aspect (mat4_set 2 2 n (mat4_set 3 2 f mat4_zero)));
  radians := fun x => x;
  degrees_2atan := fun x => x
|}.

Definition vol2 : Volume.t :=
  {| Volume.gpu_data_dirty_ := false; Volume.volume_texture_dirty_ := false;
     Volume.width_ := 2; Volume.height_ := 2; Volume.depth_ := 2;
     Volume.voxel_size_ := F32.of_int 40;
     Volume.voxels_ := replicate 8%nat Voxel_default |}.

(** A calibration back end for examples.  The image of a file is one row of
    two bytes, the first character of its path and the length of the path; the
    chessboard is found in the images whose path starts with the letter b (98),
    with one corner at the abscissa given by the second byte; nobody presses
    ESC; the pose of an image has the abscissa of its corner as first
    component. *)
Definition image_of_path (path : string) : Mask :=
  Mat.Mk 1 2
    [match path with
     | String c _ => Z.of_N (Ascii.N_of_ascii c)
     | EmptyString => 0
     end;
     Z.of_nat (String.length path)].

Definition corner_of_image (img : Mask) : option (list Point2f) :=
  match Mat.data img with
  | [c; n] => if c =? 98 then Some [MkPoint2f (F32.of_int n) F32.zero] else None
  | _ => None
  end.

Definition pose_of_corners (pts : list Point2f) : Mat.t F64.t :=
  Mat.Mk 3 1 [match pts with p :: _ => F64.of_f32 (p2x p) | [] => F64.zero end;
              F64.zero; F64.zero].

Definition shared_intrinsic : Mat.t F64.t :=
  Mat.Mk 3 3 [F64.of_int 500; F64.zero; F64.of_int 320;
              F64.zero; F64.of_int 500; F64.of_int 240;
              F64.zero; F64.zero; F64.of_int 1].

#[export] Instance calibration : Calibration := {|
  imread_grayscale := image_of_path;
  findChessboardCorners := fun img _ _ => corner_of_image img;
  cornerSubPix := fun _ pts => pts;
  waitKey := fun _ _ _ => 32;
  calibrateCamera := fun _ image_points _ =>
    Ok (shared_intrinsic, Mat.zeros 1 5,
        pose_of_corners <$> image_points, pose_of_corners <$> image_points);
  intrinsic_parts := fun view => Ok view;
  pose_geometry := fun view => Ok view
|}.

(** The same back end with an operator who presses ESC at the second
    preview. *)
Definition escaping : Calibration := {|
  imread_grayscale := image_of_path;
  findChessboardCorners := fun img _ _ => corner_of_image img;
  cornerSubPix := fun _ pts => pts;
  waitKey := fun i _ _ => if (i =? 1)%nat then 27 else 32;
  calibrateCamera := fun _ image_points _ =>
    Ok (shared_intrinsic, Mat.zeros 1 5,
        pose_of_corners <$> image_points, pose_of_corners <$> image_points);
  intrinsic_parts := fun view => Ok view;
  pose_geometry := fun view => Ok view
|}.

(** Two images of two rows and two columns that differ in brightness. *)
Definition dark_image : Image :=
  Mat.Mk 2 2 [(10, 20, 30); (10, 20, 30); (10, 20, 30); (10, 20, 30)].
Definition bright_image : Image :=
  Mat.Mk 2 2 [(10, 20, 90); (10, 20, 90); (10, 20, 90); (10, 20, 90)].

(** The pose that this back end gives to the image of a file. *)
Definition pose_of_path (path : string) : Mat.t F64.t :=
  pose_of_corners (default [] (corner_of_image (image_of_path path))).

Definition pixel_image (p : Z * Z * Z) : Image := Mat.Mk 1 1 [p].

(** A view as [App::load_project] builds it, with the calibration that the
    member initialisers of [View] give. *)
Definition view_at (bg_file cb_file : string) : View :=
  {| eye := vec3_splat (F32.of_int 1500); at_ := vec3_splat F32.zero;
     up := Vec3 F32.zero F32.one F32.zero;
     fov := DEFAULT_FOV; near := DEFAULT_NEAR; far := DEFAULT_FAR;
     forward := Vec3 F32.zero F32.zero (F32.neg F32.one);
     upward := Vec3 F32.zero F32.one F32.zero;
     right := Vec3 F32.one F32.zero F32.zero;
     proj := mat4_zero;
     intrinsic := Mat.zeros 3 3; distortion := Mat.zeros 1 5;
     rvec := Mat.zeros 3 1; tvec := Mat.zeros 3 1; tvec_proj := Mat.zeros 3 1;
     focal_length := Mat.zeros 2 1; principal_point := Mat.zeros 2 1;
     fg := pixel_image (10, 20, 30); bg := pixel_image (10, 20, 30);
     mask := Mat.none;
     bg_path := bg_file; fg_path := "fg.png"; cb_path := cb_file |}.

(** A view whose mask is a single pixel, fully on. *)
Definition one_pixel_view : View :=
  {| eye := eye (view_at "bg.png" "cb.yml"); at_ := at_ (view_at "bg.png" "cb.yml");
     up := up (view_at "bg.png" "cb.yml"); fov := DEFAULT_FOV;
     near := DEFAULT_NEAR; far := DEFAULT_FAR;
     forward := forward (view_at "bg.png" "cb.yml");
     upward := upward (view_at "bg.png" "cb.yml");
     right := right (view_at "bg.png" "cb.yml");
     proj := mat4_zero;
     intrinsic := shared_intrinsic; distortion := Mat.zeros 1 5;
     rvec := Mat.zeros 3 1; tvec := Mat.zeros 3 1; tvec_proj := Mat.zeros 3 1;
     focal_length := Mat.zeros 2 1; principal_point := Mat.zeros 2 1;
     fg := pixel_image (10, 20, 90); bg := pixel_image (10, 20, 30);
     mask := Mat.Mk 1 1 [255];
     bg_path := "bg.png"; fg_path := "fg.png"; cb_path := "cb.yml" |}.

Definition project_of (vs : list View) : Project :=
  {| empty := false; initialized := false; needs_calibration := true;
     name := "sample"; file := "sample.json"; dir := EmptyString;
     chess_cols := CHESS_COLS; chess_rows := CHESS_ROWS;
     square_size := CHESS_SQUARE; views := vs |}.

(** Four views; the chessboard is found in the last three only. *)
Definition first_view_fails : Project :=
  project_of [view_at "empty.png" "cb1.yml"; view_at "board1.png" "cb2.yml";
              view_at "board22.png" "cb3.yml"; view_at "board333.png" "cb4.yml"].

(** Four views; the chessboard is found in the first one only. *)
Definition one_board : Project :=
  project_of [view_at "board1.png" "cb1.yml"; view_at "empty.png" "cb2.yml";
              view_at "empty.png" "cb3.yml"; view_at "empty.png" "cb4.yml"].

(** Four views; the chessboard is found in the first three only. *)
Definition last_view_fails : Project :=
  project_of [view_at "board1.png" "cb1.yml"; view_at "board22.png" "cb2.yml";
              view_at "board333.png" "cb3.yml"; view_at "empty.png" "cb4.yml"].

End Sample.

(** ** Vocabulary of the properties *)

(** A mask whose pixels are fully off or fully on. *)
Definition binary_valued (m : Mask) : Prop :=
  Forall (fun p => p = 0 \/ p = 255) (Mat.data m).

(** The cell number of a valid coordinate, without wrap-around. *)
Definition cell (w h x y z : Z) : Z := z * w * h + y * w + x.
Arguments cell : simpl never.

(** Two grids of the same dimensions, voxel size and number of voxels. *)
Definition same_shape (v v' : Volume.t) : Prop :=
  Volume.width_ v' = Volume.width_ v /\ Volume.height_ v' = Volume.height_ v
  /\ Volume.depth_ v' = Volume.depth_ v
  /\ Volume.voxel_size_ v' = Volume.voxel_size_ v
  /\ length (Volume.voxels_ v') = length (Volume.voxels_ v).

(** The cells of a grid in the order in which three nested loops over
    [z], [y] and [x] visit them. *)
Definition grid_keys (w h d : Z) : list (Z * Z * Z) :=
  z ← seqZ 0 d; y ← seqZ 0 h; x ← seqZ 0 w; [(x, y, z)].

(** * Properties *)

(** Arithmetic and geometry stay folded under [simpl]. *)
Arguments CInt.int_wrap : simpl never.
Arguments CInt.to_size_t : simpl never.
Arguments CInt.add : simpl never.
Arguments CInt.mul : simpl never.
Arguments CInt.div : simpl never.
Arguments CInt.rem : simpl never.
Arguments CInt.neg : simpl never.
Arguments F32.of_int : simpl never.
Arguments F32.add : simpl never.
Arguments F32.sub : simpl never.
Arguments F32.mul : simpl never.
Arguments F32.div : simpl never.
Arguments F32.neg : simpl never.
Arguments F32.leb : simpl never.
Arguments F32.geb : simpl never.
Arguments F32.sqrt : simpl never.
Arguments Volume.distance_squared : simpl never.
Arguments Volume.sphere_voxel : simpl never.
Arguments Volume.round_to_int : simpl never.
Arguments Volume.get_index : simpl never.
Arguments Volume.is_valid_coordinate : simpl never.
Arguments Volume.voxel_to_world : simpl never.
Arguments Volume.box_test : simpl never.
Arguments Volume.fill_voxel : simpl never.
Arguments Scene.carve_position : simpl never.
Arguments Scene.carve_color : simpl never.

(** ** Accessors of the voxel grid *)

Lemma invalid_coordinate (v : Volume.t) (x y z : Z) :
  x < 0 \/ Volume.width_ v <= x \/ y < 0 \/ Volume.height_ v <= y
  \/ z < 0 \/ Volume.depth_ v <= z ->
  Volume.is_valid_coordinate v x y z = false.
Proof.
  intros Hout. unfold Volume.is_valid_coordinate.
  repeat rewrite andb_false_iff.
  rewrite !Z.leb_gt, !Z.ltb_ge. lia.
Qed.

(** C9.  For a coordinate outside the grid, on any axis, the four mutating
    accessors return the volume as it was (no voxel and no flag changes), the
    two reading accessors return the default voxel and [false], and every
    call is defined: none of them addresses the voxel array. *)
Theorem accessors_outside_grid (v : Volume.t) (x y z : Z)
    (voxel : Voxel) (a : bool) (c : vec4) (d : F32.t) :
  x < 0 \/ Volume.width_ v <= x \/ y < 0 \/ Volume.height_ v <= y
  \/ z < 0 \/ Volume.depth_ v <= z ->
  Volume.set_voxel x y z voxel v = Some v
  /\ Volume.set_voxel_active x y z a v = Some v
  /\ Volume.set_voxel_color x y z c v = Some v
  /\ Volume.set_voxel_density x y z d v = Some v
  /\ Volume.get_voxel v x y z = Some Voxel_default
  /\ Volume.is_voxel_active v x y z = Some false.
Proof.
  intros Hout. apply invalid_coordinate in Hout.
  unfold Volume.set_voxel, Volume.set_voxel_active, Volume.set_voxel_color,
    Volume.set_voxel_density, Volume.get_voxel, Volume.is_voxel_active.
  rewrite Hout. simpl. repeat split.
Qed.

Lemma accessors_outside_grid_witness :
  Volume.set_voxel 2 0 0 Voxel_default Sample.vol2 = Some Sample.vol2
  /\ Volume.set_voxel_active 2 0 0 true Sample.vol2 = Some Sample.vol2
  /\ Volume.set_voxel_color 2 0 0 (vec4_splat F32.zero) Sample.vol2 = Some Sample.vol2
  /\ Volume.set_voxel_density 2 0 0 F32.zero Sample.vol2 = Some Sample.vol2
  /\ Volume.get_voxel Sample.vol2 2 0 0 = Some Voxel_default
  /\ Volume.is_voxel_active Sample.vol2 2 0 0 = Some false.
Proof.
  apply (accessors_outside_grid Sample.vol2 2 0 0). simpl. lia.
Defined.

(** ** Projection matrix *)

(** C7.  For an intrinsic matrix that is empty or has fewer than three rows
    or fewer than three columns, [calc_proj] is defined and returns the
    symmetric perspective projection of the default field of view, the aspect
    ratio [width / height] and the given near and far planes. *)
Theorem calc_proj_degenerate `{Glm} (intrinsic : Mat.t F64.t)
    (width height near_plane far_plane : F32.t) :
  Mat.empty intrinsic = true \/ Mat.rows intrinsic < 3 \/ Mat.cols intrinsic < 3 ->
  Camera.calc_proj intrinsic width height near_plane far_plane
  = Some (perspective (radians DEFAULT_FOV) (F32.div width height)
                      near_plane far_plane).
Proof.
  intros Hdeg. unfold Camera.calc_proj.
  assert (Mat.empty intrinsic || (Mat.rows intrinsic <? 3)
          || (Mat.cols intrinsic <? 3) = true) as ->; [|reflexivity].
  rewrite !orb_true_iff, !Z.ltb_lt. tauto.
Qed.

Lemma calc_proj_degenerate_witness :
  @Camera.calc_proj Sample.glm (Mat.zeros 2 3) (F32.of_int 1280) (F32.of_int 720)
                    DEFAULT_NEAR DEFAULT_FAR
  = Some (@perspective Sample.glm (@radians Sample.glm DEFAULT_FOV)
            (F32.div (F32.of_int 1280) (F32.of_int 720))
            DEFAULT_NEAR DEFAULT_FAR).
Proof.
  apply (@calc_proj_degenerate Sample.glm (Mat.zeros 2 3)).
  right. left. simpl. lia.
Defined.

(** The projection of a 640x480 calibration (focal length 500, principal
    point at the centre) on the 1280x720 window: the image is scaled by 1.5
    and centred. *)
Example calc_proj_sample :
  @Camera.calc_proj Sample.glm Sample.shared_intrinsic
    (F32.of_int VIEW_WIDTH) (F32.of_int VIEW_HEIGHT) (F32.of_int 1) (F32.of_int 3)
  = Some [F32.div (F32.of_int 75) (F32.of_int 64); F32.zero; F32.zero; F32.zero;
          F32.zero; F32.div (F32.of_int 25) (F32.of_int 12); F32.zero; F32.zero;
          F32.zero; F32.zero; F32.of_int (-2); F32.of_int (-1);
          F32.zero; F32.zero; F32.of_int (-3); F32.zero].
Proof. vm_compute. reflexivity. Qed.

(** ** Calibration *)

Section CalibrationFacts.
Context `{ColorSpace} `{Glm} `{Calibration}.

Lemma detect_corners_length (cols rows : Z) (vs : list View) :
  length (Camera.detect_corners cols rows vs)
  = length (filter (fun v => Camera.detected cols rows v = true) vs).
Proof.
  induction vs as [|v vs IH]; [reflexivity|].
  rewrite filter_cons. simpl.
  destruct (decide (Camera.detected cols rows v = true)) as [Hd | Hd];
    unfold Camera.detected in Hd;
    destruct (findChessboardCorners _ _ _); simpl; try congruence.
Qed.

Lemma preview_outcome (i : nat) (shots : list (Mask * list Point2f)) :
  Camera.preview i shots = Ok ()
  \/ Camera.preview i shots = Throw Camera.aborted_by_user.
Proof.
  revert i. induction shots as [|[img pts] shots IH]; intros i; simpl.
  - now left.
  - destruct (waitKey i img pts =? 27); [now right | apply IH].
Qed.

(** C4.  When fewer than three quarters of the views of a project yield a
    chessboard detection, [run_calibration] throws: the error of too few
    detections, or that of the operator's abort when ESC was pressed in a
    preview, which comes first.  [load_project] on a project that needs
    calibration then throws the same exception and leaves the calibration
    files exactly as they were. *)
Theorem calibration_fails_below_threshold (project : Project) (fs : FileSystem) :
  4 * Z.of_nat (length (filter (fun v => Camera.detected (chess_cols project)
                                           (chess_rows project) v = true)
                               (views project)))
  < 3 * Z.of_nat (length (views project)) ->
  exists msg,
    (msg = Camera.not_enough_chessboards \/ msg = Camera.aborted_by_user)
    /\ Camera.run_calibration project = Throw msg
    /\ (needs_calibration project = true ->
        Camera.load_project project fs = (Throw msg, fs)).
Proof.
  intros Hfew. rewrite <- detect_corners_length in Hfew.
  assert (exists msg,
            (msg = Camera.not_enough_chessboards \/ msg = Camera.aborted_by_user)
            /\ Camera.run_calibration project = Throw msg) as (msg & Hmsg & Hrun).
  { unfold Camera.run_calibration.
    destruct (preview_outcome 0 (Camera.detect_corners (chess_cols project)
                (chess_rows project) (views project))) as [-> | ->]; simpl.
    - unfold Camera.too_few_detections. rewrite length_fmap.
      apply Z.ltb_lt in Hfew. rewrite Hfew. eauto.
    - eauto. }
  exists msg. split; [exact Hmsg|]. split; [exact Hrun|].
  intros Hneeds. unfold Camera.load_project. now rewrite Hneeds, Hrun.
Qed.

Lemma save_result_paths k d rvecs tvecs i vs vs' :
  Camera.save_result k d rvecs tvecs i vs = Ok vs' ->
  cb_path <$> vs' = cb_path <$> vs.
Proof.
  unfold Camera.save_result.
  destruct (vs !! i) as [v|] eqn:Hv; [|discriminate].
  destruct (rvecs !! i); [|discriminate].
  destruct (tvecs !! i); [|discriminate].
  intros [= <-]. rewrite list_fmap_insert. simpl.
  apply list_insert_id. now rewrite list_lookup_fmap, Hv.
Qed.

Lemma save_results_paths k d rvecs tvecs ixs vs vs' :
  Camera.save_results k d rvecs tvecs ixs vs = Ok vs' ->
  cb_path <$> vs' = cb_path <$> vs.
Proof.
  revert vs. induction ixs as [|i ixs IH]; intros vs; simpl.
  - now intros [= <-].
  - destruct (Camera.save_result k d rvecs tvecs i vs) as [vs1| |] eqn:Hstep;
      simpl; try discriminate.
    intros Hrest. rewrite (IH _ Hrest). eapply save_result_paths, Hstep.
Qed.

Lemma run_calibration_paths (project project' : Project) :
  Camera.run_calibration project = Ok project' ->
  cb_path <$> views project' = cb_path <$> views project.
Proof.
  unfold Camera.run_calibration.
  destruct (Camera.preview _ _); simpl; try discriminate.
  destruct (Camera.too_few_detections _ _); [discriminate|].
  destruct (head _); simpl; [|discriminate].
  destruct (calibrateCamera _ _ _) as [[[[k d] rvecs] tvecs]| |]; simpl;
    try discriminate.
  destruct (Camera.save_results _ _ _ _ _ _) as [vs| |] eqn:Hsave; simpl;
    try discriminate.
  intros [= <-]. simpl. eapply save_results_paths, Hsave.
Qed.

Lemma write_calibration_lookup (vs : list View) (fs : FileSystem) (view : View) :
  NoDup (cb_path <$> vs) -> view ∈ vs ->
  foldl (fun fs view => <[cb_path view := Readable (Camera.record_of view)]> fs) fs vs
    !! cb_path view
  = Some (Readable (Camera.record_of view)).
Proof.
  revert fs. induction vs as [|v vs IH]; intros fs Hnd Hin.
  - now apply elem_of_nil in Hin.
  - rewrite fmap_cons in Hnd. apply NoDup_cons in Hnd as [Hfresh Hnd].
    apply elem_of_cons in Hin as [-> | Hin]; simpl.
    + clear IH Hnd. revert fs.
      induction vs as [|w vs IH]; intros fs; simpl.
      * apply lookup_insert_eq.
      * rewrite fmap_cons, not_elem_of_cons in Hfresh.
        destruct Hfresh as [Hne Hfresh].
        rewrite insert_insert_ne by congruence. now apply IH.
    + now apply IH.
Qed.

Lemma write_calibration_other (vs : list View) (fs : FileSystem) (path : string) :
  path ∉ cb_path <$> vs ->
  foldl (fun fs view => <[cb_path view := Readable (Camera.record_of view)]> fs)
        fs vs !! path
  = fs !! path.
Proof.
  revert fs. induction vs as [|v vs IH]; intros fs Hout; [reflexivity|].
  rewrite fmap_cons, not_elem_of_cons in Hout. destruct Hout as [Hne Hout].
  cbn [foldl]. rewrite IH by exact Hout.
  apply lookup_insert_ne. congruence.
Qed.

(** What the saving loop does: the views of index [a] to [a + n - 1] receive
    the poses of the same index, the others are left alone. *)
Lemma save_results_seq k d rvecs tvecs (a n : nat) (vs vs' : list View) :
  Camera.save_results k d rvecs tvecs (seq a n) vs = Ok vs' ->
  forall i,
    vs' !! i
    = if decide (a <= i < a + n)%nat
      then v ← vs !! i; r ← rvecs !! i; t ← tvecs !! i;
           Some (set_calibration k d r t v)
      else vs !! i.
Proof.
  revert a vs. induction n as [|n IH]; intros a vs; simpl.
  - intros [= <-] i. rewrite decide_False by lia. reflexivity.
  - destruct (Camera.save_result k d rvecs tvecs a vs) as [vs1| |] eqn:Hstep;
      simpl; try discriminate.
    intros Hrest i. rewrite (IH _ _ Hrest i). clear IH Hrest.
    unfold Camera.save_result in Hstep.
    destruct (vs !! a) as [v|] eqn:Hv; [|discriminate].
    destruct (rvecs !! a) as [r|] eqn:Hr; [|discriminate].
    destruct (tvecs !! a) as [t|] eqn:Ht; [|discriminate].
    injection Hstep as <-.
    destruct (decide (i = a)) as [-> | Hne].
    + rewrite decide_False by lia. rewrite decide_True by lia.
      rewrite list_lookup_insert_eq by (eapply lookup_lt_Some; eauto).
      rewrite Hv, Hr, Ht. reflexivity.
    + rewrite list_lookup_insert_ne by congruence.
      destruct (decide (S a <= i < S a + n)%nat).
      * rewrite decide_True by lia. reflexivity.
      * rewrite decide_False by lia. reflexivity.
Qed.

(** The views that a successful run leaves: those whose index is below the
    number of detections carry the shared intrinsics and the pose of the
    detection of the same index; the others are as before. *)
Lemma run_calibration_views (project project' : Project) :
  Camera.run_calibration project = Ok project' ->
  exists (k d : Mat.t F64.t) (rvecs tvecs : list (Mat.t F64.t)),
    forall i,
      views project' !! i
      = if decide (i < length (filter (fun v => Camera.detected (chess_cols project)
                                                 (chess_rows project) v = true)
                                      (views project)))%nat
        then v ← views project !! i; r ← rvecs !! i; t ← tvecs !! i;
             Some (set_calibration k d r t v)
        else views project !! i.
Proof.
  unfold Camera.run_calibration.
  destruct (Camera.preview _ _); simpl; try discriminate.
  destruct (Camera.too_few_detections _ _); [discriminate|].
  destruct (head _); simpl; [|discriminate].
  destruct (calibrateCamera _ _ _) as [[[[k d] rvecs] tvecs]| |]; simpl;
    try discriminate.
  destruct (Camera.save_results _ _ _ _ _ _) as [vs| |] eqn:Hsave; simpl;
    try discriminate.
  intros [= <-]. simpl. exists k, d, rvecs, tvecs. intros i.
  rewrite (save_results_seq _ _ _ _ _ _ _ _ Hsave i).
  rewrite length_fmap, detect_corners_length.
  destruct (decide (i < _)%nat).
  - rewrite decide_True by lia. reflexivity.
  - rewrite decide_False by lia. reflexivity.
Qed.

(** C10.  When a calibration run succeeds, [load_project] leaves behind the
    files that [write_calibration] produces from the project as the run left
    it: one record per view, whether or not the chessboard was found in it,
    and no file under any other path is touched.  For calibration paths that
    differ from view to view, the file of every view of the project is a
    readable record whose camera matrix, distortion coefficients, rotation
    and translation are the intrinsic matrix, the distortion, the rotation
    vector and the translation vector that the view carries after the run; a
    view whose index is not below the number of detections (so, when the
    detections come first, a view in which nothing was found) carries, and
    has written, the calibration it had before the run. *)
Theorem records_written_for_every_view (project project' : Project) (fs : FileSystem) :
  needs_calibration project = true ->
  Camera.run_calibration project = Ok project' ->
  (Camera.load_project project fs).2 = Camera.write_calibration project' fs
  /\ (forall path,
        path ∉ cb_path <$> views project ->
        (Camera.load_project project fs).2 !! path = fs !! path)
  /\ (NoDup (cb_path <$> views project) ->
      forall i view,
        views project !! i = Some view ->
        exists view',
          views project' !! i = Some view'
          /\ cb_path view' = cb_path view
          /\ (Camera.load_project project fs).2 !! cb_path view
             = Some (Readable {| camera_matrix := intrinsic view';
                                 dist_coeffs := distortion view';
                                 rec_rvec := rvec view';
                                 rec_tvec := tvec view' |})
          /\ ((length (filter (fun v => Camera.detected (chess_cols project)
                                          (chess_rows project) v = true)
                              (views project)) <= i)%nat ->
              view' = view
              /\ (Camera.load_project project fs).2 !! cb_path view
                 = Some (Readable {| camera_matrix := intrinsic view;
                                     dist_coeffs := distortion view;
                                     rec_rvec := rvec view;
                                     rec_tvec := tvec view |}))).
Proof.
  intros Hneeds Hrun.
  assert ((Camera.load_project project fs).2 = Camera.write_calibration project' fs)
    as Hfs.
  { unfold Camera.load_project. rewrite Hneeds, Hrun. reflexivity. }
  pose proof (run_calibration_paths _ _ Hrun) as Hpaths.
  split; [exact Hfs|]. split.
  { intros path Hout. rewrite Hfs. unfold Camera.write_calibration.
    apply write_calibration_other. now rewrite Hpaths. }
  intros Hnd i view Hview.
  assert (cb_path <$> views project' !! i = Some (cb_path view)) as Hi.
  { rewrite <- list_lookup_fmap, Hpaths, list_lookup_fmap, Hview. reflexivity. }
  destruct (views project' !! i) as [view'|] eqn:Hview'; [|discriminate].
  injection Hi as Hi. exists view'. split; [reflexivity|]. split; [exact Hi|].
  assert ((Camera.load_project project fs).2 !! cb_path view
          = Some (Readable {| camera_matrix := intrinsic view';
                              dist_coeffs := distortion view';
                              rec_rvec := rvec view';
                              rec_tvec := tvec view' |})) as Hfile.
  { rewrite Hfs, <- Hi. unfold Camera.write_calibration.
    refine (write_calibration_lookup (views project') fs view' _ _).
    - now rewrite Hpaths.
    - eapply list_elem_of_lookup_2, Hview'. }
  split; [exact Hfile|].
  intros Hfailed.
  destruct (run_calibration_views _ _ Hrun) as (k & d & rvecs & tvecs & Hviews).
  specialize (Hviews i). rewrite decide_False in Hviews by lia.
  assert (view' = view) as Hsame by congruence.
  split; [exact Hsame|]. subst view'. exact Hfile.
Qed.

End CalibrationFacts.

Lemma calibration_fails_below_threshold_witness :
  exists msg,
    (msg = Camera.not_enough_chessboards \/ msg = Camera.aborted_by_user)
    /\ @Camera.run_calibration Sample.calibration Sample.one_board = Throw msg
    /\ (needs_calibration Sample.one_board = true ->
        @Camera.load_project Sample.color_space Sample.glm Sample.calibration
          Sample.one_board ∅ = (Throw msg, ∅)).
Proof.
  apply (@calibration_fails_below_threshold Sample.color_space Sample.glm
           Sample.calibration Sample.one_board ∅).
  vm_compute. reflexivity.
Defined.

Lemma records_written_for_every_view_witness :
  exists project',
    @Camera.run_calibration Sample.calibration Sample.last_view_fails = Ok project'
    /\ (@Camera.load_project Sample.color_space Sample.glm Sample.calibration
          Sample.last_view_fails ∅).2
       = Camera.write_calibration project' ∅
    /\ (@Camera.load_project Sample.color_space Sample.glm Sample.calibration
          Sample.last_view_fails ∅).2 !! "cb4.yml"%string
       = Some (Readable {| camera_matrix := Mat.zeros 3 3;
                           dist_coeffs := Mat.zeros 1 5;
                           rec_rvec := Mat.zeros 3 1;
                           rec_tvec := Mat.zeros 3 1 |}).
Proof.
  eexists. split; [vm_compute; reflexivity|].
  destruct (@records_written_for_every_view Sample.color_space Sample.glm
              Sample.calibration Sample.last_view_fails _ ∅
              eq_refl eq_refl) as (Hfs & _ & Hall).
  split; [exact Hfs|].
  destruct (Hall ltac:(apply (bool_decide_unpack _); vm_compute; exact I) 3%nat
              (Sample.view_at "empty.png" "cb4.yml") eq_refl)
    as (view' & _ & _ & _ & Hstale).
  exact (proj2 (Hstale ltac:(vm_compute; lia))).
Defined.

(** C2, at a project of four views in which the chessboard is found in all
    but the first.  The run succeeds, and the three poses go to the views of
    index 0, 1 and 2: the first view, in which nothing was found, takes the
    pose of the second, the second and the third take the poses of their
    successors, and the last one, in which the chessboard was found, keeps
    the rotation it had. *)
Theorem poses_shift_after_failed_view :
  exists project',
    @Camera.run_calibration Sample.calibration Sample.first_view_fails = Ok project'
    /\ @Camera.detected Sample.calibration CHESS_COLS CHESS_ROWS
         <$> views Sample.first_view_fails
       = [false; true; true; true]
    /\ rvec <$> views Sample.first_view_fails
       = [Mat.zeros 3 1; Mat.zeros 3 1; Mat.zeros 3 1; Mat.zeros 3 1]
    /\ rvec <$> views project'
       = [Sample.pose_of_path "board1.png"; Sample.pose_of_path "board22.png";
          Sample.pose_of_path "board333.png"; Mat.zeros 3 1]
    /\ Sample.pose_of_path "board1.png" <> Mat.zeros 3 1
    /\ Sample.pose_of_path "board333.png" <> Mat.zeros 3 1.
Proof.
  eexists. split; [vm_compute; reflexivity|].
  repeat split; try (vm_compute; reflexivity); vm_compute; discriminate.
Qed.

(** ** Mask extraction *)

Section MaskFacts.
Context `{ColorSpace}.

Lemma init_wf {A} (r c : Z) (f : Z -> Z -> A) :
  0 <= r -> 0 <= c -> Mat.wf (Mat.init r c f).
Proof.
  intros Hr Hc. unfold Mat.wf. simpl.
  rewrite length_fmap, length_seqZ. repeat split; try assumption. nia.
Qed.

Lemma init_Forall {A} (P : A -> Prop) (r c : Z) (f : Z -> Z -> A) :
  (forall y x, P (f y x)) -> Forall P (Mat.data (Mat.init r c f)).
Proof.
  intros HP. simpl. apply Forall_fmap, Forall_forall. intros i _. apply HP.
Qed.

(** On the pixels of the image, under [0 <= cols]: row [i / cols], column
    [i mod cols]. *)
Lemma init_Forall_inside {A} (P : A -> Prop) (r c : Z) (f : Z -> Z -> A) :
  0 <= c ->
  (forall y x, 0 <= y < r -> 0 <= x < c -> P (f y x)) ->
  Forall P (Mat.data (Mat.init r c f)).
Proof.
  intros Hc HP. simpl. apply Forall_fmap, Forall_forall. intros i Hi.
  apply elem_of_seqZ in Hi. simpl.
  assert (c <> 0) by (intros ->; lia).
  apply HP.
  - split; [apply Z.div_pos; lia|]. apply Z.div_lt_upper_bound; lia.
  - apply Z.mod_pos_bound. lia.
Qed.

Lemma pixel_or_pixel (border : Z) (src : Mask) (y x : Z) :
  Cv.pixel_or border src y x = default border (MaskSpec.pixel src y x).
Proof.
  unfold Cv.pixel_or, MaskSpec.pixel.
  destruct (_ && _); reflexivity.
Qed.

Lemma foldr_min_le (l : list Z) : foldr Z.min 255 l <= 255.
Proof. induction l; simpl; lia. Qed.

Lemma foldr_max_ge (l : list Z) : 0 <= foldr Z.max 0 l.
Proof. induction l; simpl; lia. Qed.

Lemma morph_erosion (offsets : list (Z * Z)) (src : Mask) :
  Cv.morph Z.min 255 offsets src = MaskSpec.erosion offsets src.
Proof.
  unfold Cv.morph, MaskSpec.erosion, Mat.init. f_equal.
  apply list_fmap_ext. intros _ i _. unfold MaskSpec.neighbours.
  induction offsets as [|d offsets IH]; [reflexivity|]. simpl.
  rewrite IH, pixel_or_pixel.
  destruct (MaskSpec.pixel src _ _); simpl; [reflexivity|].
  apply Z.min_r, foldr_min_le.
Qed.

Lemma morph_dilation (offsets : list (Z * Z)) (src : Mask) :
  Cv.morph Z.max 0 offsets src = MaskSpec.dilation offsets src.
Proof.
  unfold Cv.morph, MaskSpec.dilation, Mat.init. f_equal.
  apply list_fmap_ext. intros _ i _. unfold MaskSpec.neighbours.
  induction offsets as [|d offsets IH]; [reflexivity|]. simpl.
  rewrite IH, pixel_or_pixel.
  destruct (MaskSpec.pixel src _ _); simpl; [reflexivity|].
  apply Z.max_r, foldr_max_ge.
Qed.

Lemma default_erode (src : Mask) :
  Cv.erode None 1 src = MaskSpec.erosion MaskSpec.square3 src.
Proof. unfold Cv.erode, Cv.morphOp. apply morph_erosion. Qed.

Lemma cross_dilate_twice (src : Mask) :
  Cv.dilate (Some (Cv.getStructuringElement Cv.MORPH_CROSS 5 5)) 2 src
  = MaskSpec.dilation MaskSpec.cross5 (MaskSpec.dilation MaskSpec.cross5 src).
Proof.
  unfold Cv.dilate, Cv.morphOp. simpl Nat.iter.
  change (Cv.kernel_offsets (Cv.getStructuringElement Cv.MORPH_CROSS 5 5))
    with MaskSpec.cross5.
  now rewrite !morph_dilation.
Qed.

(** Thresholding the three differences and combining them with the bitwise
    operations gives, pixel by pixel, the rule of the specification. *)
Lemma combine_pixel (dh ds dv : Z) :
  Z.lor (Z.land (if dh >? Camera.THRESHOLD_H then 255 else 0)
                (if ds >? Camera.THRESHOLD_S then 255 else 0))
        (if dv >? Camera.THRESHOLD_V then 255 else 0)
  = if (dh >? 20) && (ds >? 20) || (dv >? 40) then 255 else 0.
Proof.
  unfold Camera.THRESHOLD_H, Camera.THRESHOLD_S, Camera.THRESHOLD_V.
  destruct (dh >? 20), (ds >? 20), (dv >? 40); reflexivity.
Qed.

Lemma combine_data (fs bs : list (Z * Z * Z)) :
  zip_with Z.lor
    (zip_with Z.land
       ((fun x => if x >? Camera.THRESHOLD_H then 255 else 0)
          <$> zip_with (fun x y => Z.abs (x - y))
                ((fun p => p.1.1) <$> (bgr2hsv <$> fs))
                ((fun p => p.1.1) <$> (bgr2hsv <$> bs)))
       ((fun x => if x >? Camera.THRESHOLD_S then 255 else 0)
          <$> zip_with (fun x y => Z.abs (x - y))
                ((fun p => p.1.2) <$> (bgr2hsv <$> fs))
                ((fun p => p.1.2) <$> (bgr2hsv <$> bs))))
    ((fun x => if x >? Camera.THRESHOLD_V then 255 else 0)
       <$> zip_with (fun x y => Z.abs (x - y))
             ((fun p => p.2) <$> (bgr2hsv <$> fs))
             ((fun p => p.2) <$> (bgr2hsv <$> bs)))
  = zip_with (fun f b => if MaskSpec.differs_enough f b then 255 else 0) fs bs.
Proof.
  revert bs. induction fs as [|f fs IH]; intros [|b bs]; try reflexivity.
  simpl. rewrite IH. f_equal.
  unfold MaskSpec.differs_enough.
  destruct (bgr2hsv f) as [[fh fs'] fv], (bgr2hsv b) as [[bh bs'] bv]. simpl.
  apply combine_pixel.
Qed.

Lemma binary_op_Mk (f : Z -> Z -> Z) (r c r' c' : Z) (d d' : list Z) :
  (r =? r') && (c =? c') = true ->
  Cv.binary_op f (Mat.Mk r c d) (Mat.Mk r' c' d') = Ok (Mat.Mk r c (zip_with f d d')).
Proof. intros Hsize. unfold Cv.binary_op, Mat.same_size. simpl. now rewrite Hsize. Qed.

(** The source and the specification compute the same mask. *)
Lemma calc_mask_spec (fg_img bg_img : Image) :
  Mat.empty fg_img = false -> Mat.empty bg_img = false ->
  Mat.same_size fg_img bg_img = true ->
  Camera.calc_mask fg_img bg_img = Ok (MaskSpec.calc_mask fg_img bg_img).
Proof.
  intros Hfg Hbg Hsize. unfold Mat.same_size in Hsize.
  unfold Camera.calc_mask, Cv.cvtColor_BGR2HSV. rewrite Hfg, Hbg.
  cbn [mbind outcome_bind]. unfold Cv.split. cbn beta iota zeta.
  unfold Cv.absdiff, Cv.bitwise_and, Cv.bitwise_or, Cv.threshold.
  rewrite !binary_op_Mk by exact Hsize.
  cbn [mbind outcome_bind Mat.rows Mat.cols Mat.data].
  rewrite binary_op_Mk by now rewrite !Z.eqb_refl.
  cbn [mbind outcome_bind].
  rewrite binary_op_Mk by now rewrite !Z.eqb_refl.
  cbn [mbind outcome_bind].
  rewrite combine_data, !default_erode, cross_dilate_twice.
  reflexivity.
Qed.

Lemma neighbours_Forall (P : Z -> Prop) (offsets : list (Z * Z)) (src : Mask) (y x : Z) :
  Forall P (Mat.data src) -> Forall P (MaskSpec.neighbours offsets src y x).
Proof.
  intros Hsrc. unfold MaskSpec.neighbours.
  induction offsets as [|d offsets IH]; simpl; [constructor|].
  destruct (MaskSpec.pixel src (y + d.1) (x + d.2)) as [p|] eqn:Hp; [|exact IH].
  constructor; [|exact IH].
  unfold MaskSpec.pixel in Hp. case_match; [|discriminate].
  exact (Forall_lookup_1 _ _ _ _ Hsrc Hp).
Qed.

Lemma pixel_inside (src : Mask) (y x : Z) :
  Mat.wf src -> 0 <= y < Mat.rows src -> 0 <= x < Mat.cols src ->
  is_Some (MaskSpec.pixel src y x).
Proof.
  intros (Hr & Hc & Hlen) Hy Hx. unfold MaskSpec.pixel.
  assert ((0 <=? y) && (y <? Mat.rows src) && (0 <=? x) && (x <? Mat.cols src)
          = true) as ->.
  { rewrite !andb_true_iff, !Z.leb_le, !Z.ltb_lt. lia. }
  apply lookup_lt_is_Some. nia.
Qed.

Lemma foldr_min_binary (l : list Z) :
  Forall (fun p => p = 0 \/ p = 255) l ->
  foldr Z.min 255 l = 0 \/ foldr Z.min 255 l = 255.
Proof. induction 1 as [|p l Hp _ IH]; simpl; lia. Qed.

Lemma foldr_max_binary (l : list Z) :
  Forall (fun p => p = 0 \/ p = 255) l ->
  foldr Z.max 0 l = 0 \/ foldr Z.max 0 l = 255.
Proof. induction 1 as [|p l Hp _ IH]; simpl; lia. Qed.

Lemma foldr_min_zero (l : list Z) :
  Forall (fun p => p = 0) l -> l <> [] -> foldr Z.min 255 l = 0.
Proof.
  induction 1 as [|p l Hp Hl IH]; [congruence|]. intros _. simpl. subst p.
  destruct l as [|q l]; [reflexivity|]. rewrite IH by discriminate. reflexivity.
Qed.

Lemma foldr_max_zero (l : list Z) :
  Forall (fun p => p = 0) l -> foldr Z.max 0 l = 0.
Proof. induction 1 as [|p l Hp _ IH]; simpl; lia. Qed.

Lemma erosion_binary (offsets : list (Z * Z)) (src : Mask) :
  binary_valued src -> binary_valued (MaskSpec.erosion offsets src).
Proof.
  intros Hsrc. apply init_Forall. intros y x.
  apply foldr_min_binary, neighbours_Forall, Hsrc.
Qed.

Lemma dilation_binary (offsets : list (Z * Z)) (src : Mask) :
  binary_valued src -> binary_valued (MaskSpec.dilation offsets src).
Proof.
  intros Hsrc. apply init_Forall. intros y x.
  apply foldr_max_binary, neighbours_Forall, Hsrc.
Qed.

Lemma raw_mask_binary (fg_img bg_img : Image) :
  binary_valued (MaskSpec.raw_mask fg_img bg_img).
Proof.
  unfold binary_valued, MaskSpec.raw_mask. simpl.
  generalize (Mat.data bg_img).
  induction (Mat.data fg_img) as [|f fs IH]; intros [|b bs]; simpl;
    try constructor; [|apply IH].
  destruct (MaskSpec.differs_enough f b); lia.
Qed.

Lemma erosion_zero (offsets : list (Z * Z)) (src : Mask) :
  Mat.wf src -> (0, 0) ∈ offsets ->
  Forall (fun p => p = 0) (Mat.data src) ->
  Forall (fun p => p = 0) (Mat.data (MaskSpec.erosion offsets src)).
Proof.
  intros Hwf Hcentre Hsrc.
  apply init_Forall_inside; [apply Hwf|]. intros y x Hy Hx.
  apply foldr_min_zero; [now apply neighbours_Forall|].
  destruct (pixel_inside src y x Hwf Hy Hx) as [p Hp].
  assert (p ∈ MaskSpec.neighbours offsets src y x) as Hin.
  { apply list_elem_of_omap. exists (0, 0). split; [exact Hcentre|].
    simpl. now rewrite !Z.add_0_r. }
  intros Hnil. rewrite Hnil in Hin. now apply elem_of_nil in Hin.
Qed.

Lemma dilation_zero (offsets : list (Z * Z)) (src : Mask) :
  Forall (fun p => p = 0) (Mat.data src) ->
  Forall (fun p => p = 0) (Mat.data (MaskSpec.dilation offsets src)).
Proof.
  intros Hsrc. apply init_Forall. intros y x.
  now apply foldr_max_zero, neighbours_Forall.
Qed.

Lemma raw_mask_identical (img : Image) :
  Forall (fun p => p = 0) (Mat.data (MaskSpec.raw_mask img img)).
Proof.
  unfold MaskSpec.raw_mask. simpl.
  induction (Mat.data img) as [|f fs IH]; simpl; constructor; [|exact IH].
  unfold MaskSpec.differs_enough. destruct (bgr2hsv f) as [[h s] v].
  rewrite !Z.sub_diag. reflexivity.
Qed.

Lemma same_size_refl {A} (m : Mat.t A) : Mat.same_size m m = true.
Proof. unfold Mat.same_size. now rewrite !Z.eqb_refl. Qed.

Lemma calc_mask_spec_shape (fg_img bg_img : Image) :
  Mat.wf fg_img ->
  Mat.rows (MaskSpec.calc_mask fg_img bg_img) = Mat.rows fg_img
  /\ Mat.cols (MaskSpec.calc_mask fg_img bg_img) = Mat.cols fg_img
  /\ Mat.wf (MaskSpec.calc_mask fg_img bg_img).
Proof.
  intros (Hr & Hc & _). repeat split; try reflexivity; simpl; try assumption.
  rewrite length_fmap, length_seqZ. nia.
Qed.

(** C6.  For two non-empty colour images of the same size, [calc_mask]
    returns the mask that the specification describes: both images converted
    to hue, saturation and value, a raw pixel fully on exactly when the
    absolute differences exceed 20 in hue and 20 in saturation, or 40 in
    value, then one erosion, two dilations with the 5x5 cross and one more
    erosion.  The mask has one channel and the rows and columns of the input,
    its buffer matches its header, and each of its pixels is 0 or 255. *)
Theorem calc_mask_follows_specification (fg_img bg_img : Image) :
  Mat.wf fg_img -> Mat.empty fg_img = false -> Mat.empty bg_img = false ->
  Mat.same_size fg_img bg_img = true ->
  exists m : Mask,
    Camera.calc_mask fg_img bg_img = Ok m
    /\ m = MaskSpec.calc_mask fg_img bg_img
    /\ Mat.rows m = Mat.rows fg_img /\ Mat.cols m = Mat.cols fg_img
    /\ Mat.wf m
    /\ binary_valued m.
Proof.
  intros Hwf Hfg Hbg Hsize. exists (MaskSpec.calc_mask fg_img bg_img).
  split; [now apply calc_mask_spec|]. split; [reflexivity|].
  destruct (calc_mask_spec_shape fg_img bg_img Hwf) as (Hr & Hc & Hm).
  repeat split; try assumption; try apply Hm.
  unfold MaskSpec.calc_mask.
  apply erosion_binary, dilation_binary, dilation_binary, erosion_binary,
    raw_mask_binary.
Qed.

(** C5.  When the background and the foreground are one and the same
    non-empty image, [calc_mask] returns a mask of the size of that image
    in which every pixel is 0. *)
Theorem identical_images_empty_mask (img : Image) :
  Mat.wf img -> Mat.empty img = false ->
  exists m : Mask,
    Camera.calc_mask img img = Ok m
    /\ Mat.rows m = Mat.rows img /\ Mat.cols m = Mat.cols img
    /\ Mat.wf m
    /\ Forall (fun p => p = 0) (Mat.data m).
Proof.
  intros Hwf Hne. exists (MaskSpec.calc_mask img img).
  split; [apply calc_mask_spec; auto using same_size_refl|].
  destruct (calc_mask_spec_shape img img Hwf) as (Hr & Hc & Hm).
  repeat split; try assumption; try apply Hm.
  destruct Hwf as (Hrows & Hcols & Hlen).
  unfold MaskSpec.calc_mask.
  apply erosion_zero.
  - apply init_wf; assumption.
  - unfold MaskSpec.square3. set_solver.
  - apply dilation_zero, dilation_zero, erosion_zero.
    + repeat split; try assumption. simpl.
      rewrite length_zip_with. lia.
    + unfold MaskSpec.square3. set_solver.
    + apply raw_mask_identical.
Qed.

End MaskFacts.

Lemma calc_mask_follows_specification_witness :
  exists m : Mask,
    @Camera.calc_mask Sample.color_space Sample.bright_image Sample.dark_image = Ok m
    /\ m = @MaskSpec.calc_mask Sample.color_space Sample.bright_image Sample.dark_image
    /\ Mat.rows m = 2 /\ Mat.cols m = 2
    /\ Mat.wf m
    /\ binary_valued m.
Proof.
  apply (@calc_mask_follows_specification Sample.color_space
           Sample.bright_image Sample.dark_image).
  - unfold Mat.wf. simpl. lia.
  - reflexivity.
  - reflexivity.
  - reflexivity.
Defined.

Lemma identical_images_empty_mask_witness :
  exists m : Mask,
    @Camera.calc_mask Sample.color_space Sample.bright_image Sample.bright_image = Ok m
    /\ Mat.rows m = 2 /\ Mat.cols m = 2
    /\ Mat.wf m
    /\ Forall (fun p => p = 0) (Mat.data m).
Proof.
  apply (@identical_images_empty_mask Sample.color_space Sample.bright_image).
  - unfold Mat.wf. simpl. lia.
  - reflexivity.
Defined.

(** ** Indices of the voxel grid *)

Lemma int_wrap_small (a : Z) : CInt.in_range a -> CInt.int_wrap a = a.
Proof.
  unfold CInt.in_range, CInt.int_wrap. intros Ha.
  rewrite Z.mod_small by lia. lia.
Qed.

Lemma valid_coordinate (v : Volume.t) (x y z : Z) :
  Volume.is_valid_coordinate v x y z = true
  <-> 0 <= x < Volume.width_ v /\ 0 <= y < Volume.height_ v
      /\ 0 <= z < Volume.depth_ v.
Proof.
  unfold Volume.is_valid_coordinate.
  rewrite !andb_true_iff, !Z.leb_le, !Z.ltb_lt. lia.
Qed.

Lemma cell_bounds (w h d x y z : Z) :
  0 <= x < w -> 0 <= y < h -> 0 <= z < d ->
  0 <= z * w /\ z * w <= z * w * h /\ 0 <= y * w
  /\ 0 <= cell w h x y z < w * h * d.
Proof.
  intros Hx Hy Hz. unfold cell.
  assert (0 <= z * w) by nia.
  assert (z * w <= z * w * h) by nia.
  assert (0 <= y * w) by nia.
  assert (y * w + x < h * w) by nia.
  assert (z * w * h + h * w <= w * h * d) by nia.
  lia.
Qed.

Lemma get_index_cell (v : Volume.t) (x y z : Z) :
  Volume.wf v -> Volume.is_valid_coordinate v x y z = true ->
  Volume.get_index v x y z = cell (Volume.width_ v) (Volume.height_ v) x y z
  /\ (Z.to_nat (Volume.get_index v x y z) < length (Volume.voxels_ v))%nat.
Proof.
  intros (Hw & Hh & Hd & Hsmall & Hlen) Hvalid.
  apply valid_coordinate in Hvalid as (Hx & Hy & Hz).
  destruct (cell_bounds _ _ _ _ _ _ Hx Hy Hz) as (H1 & H2 & H3 & H4).
  unfold cell in *.
  assert (Volume.get_index v x y z
          = z * Volume.width_ v * Volume.height_ v + y * Volume.width_ v + x)
    as ->.
  { unfold Volume.get_index, CInt.to_size_t, CInt.add, CInt.mul.
    rewrite (int_wrap_small (z * _)) by (unfold CInt.in_range; lia).
    rewrite (int_wrap_small (z * _ * _)) by (unfold CInt.in_range; lia).
    rewrite (int_wrap_small (y * _)) by (unfold CInt.in_range; lia).
    rewrite (int_wrap_small (_ + y * _)) by (unfold CInt.in_range; lia).
    rewrite (int_wrap_small (_ + x)) by (unfold CInt.in_range; lia).
    apply Z.mod_small. lia. }
  split; [reflexivity | lia].
Qed.

Lemma cell_inj (w h x y z x' y' z' : Z) :
  0 <= x < w -> 0 <= y < h -> 0 <= x' < w -> 0 <= y' < h ->
  cell w h x y z = cell w h x' y' z' -> x = x' /\ y = y' /\ z = z'.
Proof.
  unfold cell. intros Hx Hy Hx' Hy' Heq.
  assert (x = x') as <-.
  { assert ((x + (z * h + y) * w) mod w = (x' + (z' * h + y') * w) mod w) as Hm
      by (f_equal; lia).
    rewrite !Z_mod_plus_full, !Z.mod_small in Hm by lia. exact Hm. }
  assert (z * h + y = z' * h + y') as Hq by nia.
  assert (y = y') as <-.
  { assert ((y + z * h) mod h = (y' + z' * h) mod h) as Hm by (f_equal; lia).
    rewrite !Z_mod_plus_full, !Z.mod_small in Hm by lia. exact Hm. }
  repeat split. nia.
Qed.

(** ** Loops over the voxel grid *)

Lemma same_shape_refl (v : Volume.t) : same_shape v v.
Proof. repeat split. Qed.

Lemma same_shape_trans (v1 v2 v3 : Volume.t) :
  same_shape v1 v2 -> same_shape v2 v3 -> same_shape v1 v3.
Proof. unfold same_shape. intuition congruence. Qed.

Lemma same_shape_wf (v v' : Volume.t) :
  same_shape v v' -> Volume.wf v -> Volume.wf v'.
Proof.
  unfold same_shape, Volume.wf. intros (-> & -> & -> & _ & ->). tauto.
Qed.

Lemma same_shape_with_voxels (v : Volume.t) (l : list Voxel) (gpu tex : bool) :
  length l = length (Volume.voxels_ v) ->
  same_shape v (Volume.with_voxels l gpu tex v).
Proof. intros Hl. repeat split. exact Hl. Qed.

Lemma same_shape_index (v v' : Volume.t) (x y z : Z) :
  same_shape v v' ->
  Volume.get_index v' x y z = Volume.get_index v x y z
  /\ Volume.is_valid_coordinate v' x y z = Volume.is_valid_coordinate v x y z
  /\ Volume.voxel_to_world v' x y z = Volume.voxel_to_world v x y z.
Proof.
  intros (Hw & Hh & Hd & Hs & _).
  unfold Volume.get_index, Volume.is_valid_coordinate, Volume.voxel_to_world.
  now rewrite Hw, Hh, Hd, Hs.
Qed.

Lemma vec_upd_alter {A} (l : list A) (i : Z) (f : A -> A) :
  (Z.to_nat i < length l)%nat ->
  vec_upd l i f = Some (alter f (Z.to_nat i) l).
Proof.
  intros Hi. unfold vec_upd.
  destruct (lookup_lt_is_Some_2 l _ Hi) as [x Hx]. rewrite Hx. simpl. f_equal.
  apply list_eq. intros j. destruct (decide (Z.to_nat i = j)) as [<- | Hne].
  - rewrite list_lookup_insert_eq by exact Hi.
    now rewrite list_lookup_alter_eq, Hx.
  - now rewrite list_lookup_insert_ne, list_lookup_alter_ne by exact Hne.
Qed.

(** A loop whose every step rewrites the voxel list by [upd] and keeps the
    shape of the grid runs to its end, and rewrites the list by the steps
    in turn. *)
Lemma for_each_voxels {K} (body : K -> Volume.t -> option Volume.t)
    (upd : K -> list Voxel -> list Voxel) (keys : list K) (v0 : Volume.t) :
  (forall k v, k ∈ keys -> same_shape v0 v ->
     exists v', body k v = Some v' /\ same_shape v0 v'
                /\ Volume.voxels_ v' = upd k (Volume.voxels_ v)) ->
  forall v, same_shape v0 v ->
    exists v', for_each body keys v = Some v' /\ same_shape v0 v'
               /\ Volume.voxels_ v' = foldl (fun l k => upd k l) (Volume.voxels_ v) keys.
Proof.
  induction keys as [|k keys IH]; intros Hbody v Hv; simpl.
  - eauto.
  - destruct (Hbody k v) as (v1 & -> & Hv1 & Hl1); [left | exact Hv |].
    simpl. destruct (IH (fun k' v' Hk' => Hbody k' v' (list_elem_of_further _ _ _ Hk')) v1 Hv1)
      as (v2 & Hrun & Hv2 & Hl2).
    exists v2. rewrite Hl1 in Hl2. auto.
Qed.

Lemma for_range_voxels (body : Z -> Volume.t -> option Volume.t)
    (upd : Z -> list Voxel -> list Voxel) (n : Z) (v0 v : Volume.t) :
  (forall k v, 0 <= k < n -> same_shape v0 v ->
     exists v', body k v = Some v' /\ same_shape v0 v'
                /\ Volume.voxels_ v' = upd k (Volume.voxels_ v)) ->
  same_shape v0 v ->
  exists v', for_range 0 n body v = Some v' /\ same_shape v0 v'
             /\ Volume.voxels_ v'
                = foldl (fun l k => upd k l) (Volume.voxels_ v) (seqZ 0 n).
Proof.
  intros Hbody Hv. unfold for_range. rewrite Z.sub_0_r.
  apply for_each_voxels; [|exact Hv].
  intros k v1 Hk. apply Hbody. apply elem_of_seqZ in Hk. lia.
Qed.

Lemma elem_of_grid_keys (w h d x y z : Z) :
  (x, y, z) ∈ grid_keys w h d <-> 0 <= x < w /\ 0 <= y < h /\ 0 <= z < d.
Proof.
  unfold grid_keys. rewrite list_elem_of_bind. split.
  - intros (z' & Hin & Hz). apply list_elem_of_bind in Hin as (y' & Hin & Hy).
    apply list_elem_of_bind in Hin as (x' & Hin & Hx).
    apply list_elem_of_singleton in Hin. injection Hin as -> -> ->.
    apply elem_of_seqZ in Hx, Hy, Hz. lia.
  - intros (Hx & Hy & Hz). exists z. split; [|apply elem_of_seqZ; lia].
    apply list_elem_of_bind. exists y. split; [|apply elem_of_seqZ; lia].
    apply list_elem_of_bind. exists x. split; [|apply elem_of_seqZ; lia].
    now apply list_elem_of_singleton.
Qed.

Lemma foldl_bind {A B C} (f : A -> C -> A) (h : B -> list C) (ks : list B) (a : A) :
  foldl f a (ks ≫= h) = foldl (fun a k => foldl f a (h k)) a ks.
Proof.
  revert a. induction ks as [|k ks IH]; intros a; [reflexivity|].
  simpl. rewrite foldl_app. apply IH.
Qed.

(** Three nested loops over the cells of a grid. *)
Lemma grid_loop (v0 : Volume.t) (body : Z -> Z -> Z -> Volume.t -> option Volume.t)
    (upd : Z * Z * Z -> list Voxel -> list Voxel) :
  (forall x y z v,
     0 <= x < Volume.width_ v0 -> 0 <= y < Volume.height_ v0 ->
     0 <= z < Volume.depth_ v0 -> same_shape v0 v ->
     exists v', body x y z v = Some v' /\ same_shape v0 v'
                /\ Volume.voxels_ v' = upd (x, y, z) (Volume.voxels_ v)) ->
  exists v',
    for_range 0 (Volume.depth_ v0) (fun z =>
      for_range 0 (Volume.height_ v0) (fun y =>
        for_range 0 (Volume.width_ v0) (fun x => body x y z))) v0 = Some v'
    /\ same_shape v0 v'
    /\ Volume.voxels_ v'
       = foldl (fun l k => upd k l) (Volume.voxels_ v0)
           (grid_keys (Volume.width_ v0) (Volume.height_ v0) (Volume.depth_ v0)).
Proof.
  intros Hbody. unfold grid_keys. rewrite foldl_bind.
  apply for_range_voxels with
    (upd := fun z l =>
       foldl (fun l k => upd k l) l
         (y ← seqZ 0 (Volume.height_ v0); x ← seqZ 0 (Volume.width_ v0); [(x, y, z)]));
    [|apply same_shape_refl].
  intros z v Hz Hv. rewrite foldl_bind.
  apply for_range_voxels with
    (upd := fun y l =>
       foldl (fun l k => upd k l) l (x ← seqZ 0 (Volume.width_ v0); [(x, y, z)]));
    [|exact Hv].
  intros y v1 Hy Hv1. rewrite foldl_bind.
  apply for_range_voxels with (upd := fun x l => foldl (fun l k => upd k l) l [(x, y, z)]);
    [|exact Hv1].
  intros x v2 Hx Hv2. simpl. now apply Hbody.
Qed.

(** Where a loop of conditional updates by one idempotent function leaves
    the voxel of index [j]. *)
Lemma foldl_alter_lookup {K} (P : K -> bool) (ix : K -> nat) (g : Voxel -> Voxel)
    (keys : list K) (l : list Voxel) (j : nat) :
  (forall vx, g (g vx) = g vx) ->
  foldl (fun l k => if P k then alter g (ix k) l else l) l keys !! j
  = if existsb (fun k => P k && bool_decide (ix k = j)) keys
    then g <$> l !! j else l !! j.
Proof.
  intros Hg. revert l. induction keys as [|k keys IH]; intros l; [reflexivity|].
  simpl. rewrite IH. clear IH.
  destruct (P k) eqn:HP; simpl; [|reflexivity].
  destruct (bool_decide_reflect (ix k = j)) as [-> | Hne]; simpl.
  - rewrite list_lookup_alter_eq.
    destruct (existsb _ keys); [|reflexivity].
    destruct (l !! j); simpl; [|reflexivity]. now rewrite Hg.
  - now rewrite list_lookup_alter_ne by exact Hne.
Qed.

Lemma existsb_touch {K} (P : K -> bool) (ix : K -> nat) (keys : list K) (j : nat) :
  existsb (fun k => P k && bool_decide (ix k = j)) keys = true
  <-> exists k, k ∈ keys /\ P k = true /\ ix k = j.
Proof.
  rewrite existsb_exists. split.
  - intros (k & Hin & Hk). apply andb_true_iff in Hk as [HP Hix].
    apply bool_decide_eq_true in Hix. exists k.
    now rewrite list_elem_of_In.
  - intros (k & Hin & HP & Hix). exists k. rewrite <- list_elem_of_In.
    split; [exact Hin|]. rewrite HP. simpl. now apply bool_decide_eq_true.
Qed.

(** The same, for the voxel of a cell of the grid: it is updated exactly
    when the test holds of this very cell. *)
Lemma grid_update_lookup (w h d : Z) (P : Z * Z * Z -> bool) (g : Voxel -> Voxel)
    (l : list Voxel) (x y z : Z) :
  (forall vx, g (g vx) = g vx) ->
  0 <= x < w -> 0 <= y < h -> 0 <= z < d ->
  foldl (fun l k => if P k then alter g (Z.to_nat (cell w h k.1.1 k.1.2 k.2)) l else l)
        l (grid_keys w h d) !! Z.to_nat (cell w h x y z)
  = if P (x, y, z) then g <$> l !! Z.to_nat (cell w h x y z)
    else l !! Z.to_nat (cell w h x y z).
Proof.
  intros Hg Hx Hy Hz.
  rewrite (foldl_alter_lookup P (fun k => Z.to_nat (cell w h k.1.1 k.1.2 k.2)))
    by exact Hg.
  destruct (P (x, y, z)) eqn:HP.
  - assert (existsb (fun k => P k && bool_decide
              (Z.to_nat (cell w h k.1.1 k.1.2 k.2) = Z.to_nat (cell w h x y z)))
              (grid_keys w h d) = true) as ->; [|reflexivity].
    apply existsb_touch. exists (x, y, z). split; [|now split].
    apply elem_of_grid_keys. lia.
  - destruct (existsb _ _) eqn:Hex; [|reflexivity].
    apply existsb_touch in Hex as ([[x' y'] z'] & Hin & HP' & Hix).
    apply elem_of_grid_keys in Hin as (Hx' & Hy' & Hz'). simpl in Hix.
    pose proof (cell_bounds w h d x y z Hx Hy Hz) as (_ & _ & _ & Hc).
    pose proof (cell_bounds w h d x' y' z' Hx' Hy' Hz') as (_ & _ & _ & Hc').
    apply Z2Nat.inj in Hix; [|lia|lia].
    apply cell_inj in Hix as (-> & -> & ->); [|lia..]. congruence.
Qed.

(** Reduction of the monadic steps and of the record projections only. *)
Ltac red_grid :=
  cbn [mbind option_bind fmap option_fmap option_map negb
       Volume.voxels_ Volume.width_ Volume.height_ Volume.depth_
       Volume.voxel_size_ Volume.gpu_data_dirty_ Volume.volume_texture_dirty_
       Volume.with_voxels fst snd].

(** ** Filling a box *)

Lemma fill_voxel_idem (c : vec4) (vx : Voxel) :
  Volume.fill_voxel c (Volume.fill_voxel c vx) = Volume.fill_voxel c vx.
Proof. reflexivity. Qed.

Lemma voxel_lookup_valid (v : Volume.t) (x y z : Z) :
  Volume.wf v -> Volume.is_valid_coordinate v x y z = true ->
  Volume.get_voxel v x y z
  = Volume.voxels_ v !! Z.to_nat (cell (Volume.width_ v) (Volume.height_ v) x y z)
  /\ Volume.is_voxel_active v x y z
     = active <$> Volume.voxels_ v
                    !! Z.to_nat (cell (Volume.width_ v) (Volume.height_ v) x y z).
Proof.
  intros Hwf Hvalid. unfold Volume.get_voxel, Volume.is_voxel_active, vec_get.
  rewrite Hvalid. cbn [negb].
  destruct (get_index_cell v x y z Hwf Hvalid) as [-> _]. split; reflexivity.
Qed.

(** [fill_box] runs to its end and rewrites exactly the voxels whose
    position passes its test. *)
Lemma fill_box_voxels (min_pos max_pos : vec3) (c : vec4) (v : Volume.t) :
  Volume.wf v ->
  exists v',
    Volume.fill_box min_pos max_pos c v = Some v' /\ same_shape v v'
    /\ forall x y z,
         Volume.is_valid_coordinate v x y z = true ->
         Volume.get_voxel v' x y z
         = if Volume.box_test min_pos max_pos (Volume.voxel_to_world v x y z)
           then Volume.fill_voxel c <$> Volume.get_voxel v x y z
           else Volume.get_voxel v x y z.
Proof.
  intros Hwf. unfold Volume.fill_box.
  destruct (grid_loop v
    (fun x y z v1 =>
       if Volume.box_test min_pos max_pos (Volume.voxel_to_world v1 x y z)
       then l ← vec_upd (Volume.voxels_ v1) (Volume.get_index v1 x y z)
                  (Volume.fill_voxel c);
            Some (Volume.with_voxels l (Volume.gpu_data_dirty_ v1)
                    (Volume.volume_texture_dirty_ v1) v1)
       else Some v1)
    (fun k l =>
       if Volume.box_test min_pos max_pos (Volume.voxel_to_world v k.1.1 k.1.2 k.2)
       then alter (Volume.fill_voxel c)
              (Z.to_nat (cell (Volume.width_ v) (Volume.height_ v) k.1.1 k.1.2 k.2)) l
       else l))
    as (v' & Hrun & Hshape & Hvoxels).
  { intros x y z v1 Hx Hy Hz Hv1. red_grid.
    destruct (same_shape_index v v1 x y z Hv1) as (Hix & _ & ->).
    destruct (Volume.box_test _ _ _); [|eauto].
    assert (Volume.is_valid_coordinate v x y z = true) as Hvalid
      by (apply valid_coordinate; lia).
    destruct (get_index_cell v x y z Hwf Hvalid) as [Hcell Hlt].
    rewrite Hix, vec_upd_alter by (destruct Hv1 as (_ & _ & _ & _ & ->); exact Hlt).
    red_grid. eexists. split; [reflexivity|]. split.
    - eapply same_shape_trans; [exact Hv1|].
      apply same_shape_with_voxels, length_alter.
    - red_grid. now rewrite Hcell. }
  rewrite Hrun. red_grid.
  set (vf := Volume.with_voxels (Volume.voxels_ v') true true v').
  assert (same_shape v vf) as Hvf.
  { eapply same_shape_trans; [exact Hshape|]. now apply same_shape_with_voxels. }
  exists vf. split; [reflexivity|]. split; [exact Hvf|].
  intros x y z Hvalid.
  destruct (same_shape_index v vf x y z Hvf) as (_ & Hval & _).
  destruct (voxel_lookup_valid vf x y z) as [-> _];
    [eapply same_shape_wf; eauto | now rewrite Hval |].
  destruct (voxel_lookup_valid v x y z Hwf Hvalid) as [-> _].
  destruct Hvf as (-> & -> & _).
  change (Volume.voxels_ vf) with (Volume.voxels_ v'). rewrite Hvoxels.
  apply valid_coordinate in Hvalid as (Hx & Hy & Hz).
  apply (grid_update_lookup _ _ _
           (fun k => Volume.box_test min_pos max_pos
                       (Volume.voxel_to_world v k.1.1 k.1.2 k.2)));
    auto using fill_voxel_idem.
Qed.

(** C8.  [fill_box] runs to its end on every well-formed grid, and it marks
    a voxel active when its world position lies between the bounds on the x
    axis, or on the y axis, or on the z axis, leaving the active flag of the
    other voxels as it was.  So it marks voxels that lie outside the box:
    in the grid of 2x2x2 voxels of edge 40 that the constructor builds and
    for the box from (-1, -1, -1) to (1, 1, 1), the voxel of index (1, 0, 0),
    whose position (0, 20, 40) is outside the box on two axes and which was
    inactive, comes out active. *)
Theorem fill_box_tests_any_axis :
  (forall (min_pos max_pos : vec3) (c : vec4) (v : Volume.t) (x y z : Z),
     Volume.wf v -> Volume.is_valid_coordinate v x y z = true ->
     exists v',
       Volume.fill_box min_pos max_pos c v = Some v'
       /\ Volume.is_voxel_active v' x y z
          = let p := Volume.voxel_to_world v x y z in
            if F32.geb (v3x p) (v3x min_pos) && F32.leb (v3x p) (v3x max_pos)
               || F32.geb (v3y p) (v3y min_pos) && F32.leb (v3y p) (v3y max_pos)
               || F32.geb (v3z p) (v3z min_pos) && F32.leb (v3z p) (v3z max_pos)
            then Some true
            else Volume.is_voxel_active v x y z)
  /\ (exists (min_pos max_pos : vec3) (c : vec4) (v v' : Volume.t) (x y z : Z),
        Volume.make 2 2 2 (F32.of_int VOLUME_VOXEL_SIZE) = Some v
        /\ Volume.wf v /\ Volume.is_valid_coordinate v x y z = true
        /\ Volume.is_voxel_active v x y z = Some false
        /\ Volume.inside_box min_pos max_pos (Volume.voxel_to_world v x y z) = false
        /\ Volume.fill_box min_pos max_pos c v = Some v'
        /\ Volume.is_voxel_active v' x y z = Some true).
Proof.
  split.
  - intros min_pos max_pos c v x y z Hwf Hvalid.
    destruct (fill_box_voxels min_pos max_pos c v Hwf) as (v' & Hrun & Hshape & Hget).
    exists v'. split; [exact Hrun|].
    specialize (Hget x y z Hvalid).
    assert (Volume.is_voxel_active v' x y z = active <$> Volume.get_voxel v' x y z)
      as ->.
    { unfold Volume.is_voxel_active, Volume.get_voxel.
      destruct (same_shape_index v v' x y z Hshape) as (_ & -> & _).
      now rewrite Hvalid. }
    rewrite Hget. cbv zeta. fold (Volume.box_test min_pos max_pos
                                    (Volume.voxel_to_world v x y z)).
    assert (Volume.is_voxel_active v x y z = active <$> Volume.get_voxel v x y z)
      as Hact.
    { unfold Volume.is_voxel_active, Volume.get_voxel. now rewrite Hvalid. }
    destruct (Volume.box_test _ _ _); [|now rewrite Hact].
    destruct (voxel_lookup_valid v x y z Hwf Hvalid) as [-> _].
    destruct (get_index_cell v x y z Hwf Hvalid) as [Hcell Hlt].
    rewrite Hcell in Hlt.
    destruct (lookup_lt_is_Some_2 _ _ Hlt) as [vx ->]. reflexivity.
  - exists (vec3_splat (F32.neg F32.one)), (vec3_splat F32.one),
      (vec4_splat F32.one).
    eexists. eexists. exists 1, 0, 0.
    split; [vm_compute; reflexivity|].
    split; [unfold Volume.wf; simpl; lia|].
    split; [vm_compute; reflexivity|].
    split; [vm_compute; reflexivity|].
    split; [vm_compute; reflexivity|].
    split; vm_compute; reflexivity.
Qed.

Lemma fill_box_tests_any_axis_witness :
  exists v',
    Volume.fill_box (vec3_splat (F32.neg F32.one)) (vec3_splat F32.one)
      (vec4_splat F32.one) Sample.vol2 = Some v'
    /\ Volume.is_voxel_active v' 1 0 0 = Some true.
Proof.
  destruct (proj1 fill_box_tests_any_axis
              (vec3_splat (F32.neg F32.one)) (vec3_splat F32.one)
              (vec4_splat F32.one) Sample.vol2 1 0 0)
    as (v' & Hrun & Hactive).
  - unfold Volume.wf. simpl. lia.
  - reflexivity.
  - exists v'. split; [exact Hrun|]. exact Hactive.
Defined.

(** ** Construction of a grid *)

Lemma foldl_Forall {K} (P : Voxel -> Prop) (upd : K -> list Voxel -> list Voxel)
    (keys : list K) (l : list Voxel) :
  (forall k l, Forall P l -> Forall P (upd k l)) ->
  Forall P l -> Forall P (foldl (fun l k => upd k l) l keys).
Proof.
  intros Hupd. revert l. induction keys as [|k keys IH]; intros l Hl; simpl;
    [exact Hl | apply IH, Hupd, Hl].
Qed.

(** The constructor succeeds on dimensions whose product fits an [int], and
    builds a well-formed grid of inactive voxels. *)
Lemma make_inactive (w h d : Z) (size : F32.t) :
  0 <= w -> 0 <= h -> 0 <= d -> w * h < 2 ^ 31 -> w * h * d < 2 ^ 31 ->
  exists v,
    Volume.make w h d size = Some v /\ Volume.wf v
    /\ Volume.width_ v = w /\ Volume.height_ v = h /\ Volume.depth_ v = d
    /\ Forall (fun vx => active vx = false) (Volume.voxels_ v).
Proof.
  intros Hw Hh Hd Hwh Hwhd. unfold Volume.make.
  assert (CInt.mul (CInt.mul w h) d = w * h * d) as ->.
  { unfold CInt.mul. rewrite (int_wrap_small (w * h)) by (unfold CInt.in_range; nia).
    apply int_wrap_small. unfold CInt.in_range. nia. }
  assert ((w * h * d <? 0) = false) as -> by (apply Z.ltb_ge; nia).
  set (v0 := {| Volume.gpu_data_dirty_ := true; Volume.volume_texture_dirty_ := true;
                Volume.width_ := w; Volume.height_ := h; Volume.depth_ := d;
                Volume.voxel_size_ := size;
                Volume.voxels_ := replicate (Z.to_nat (w * h * d)) Voxel_default |}).
  assert (Volume.wf v0) as Hwf.
  { unfold Volume.wf, v0. red_grid. rewrite length_replicate. repeat split; nia. }
  destruct (grid_loop v0
    (fun x y z v =>
       l ← vec_upd (Volume.voxels_ v) (Volume.get_index v x y z)
             (set_position (Volume.voxel_to_world v x y z));
       Some (Volume.with_voxels l (Volume.gpu_data_dirty_ v)
               (Volume.volume_texture_dirty_ v) v))
    (fun k l =>
       alter (set_position (Volume.voxel_to_world v0 k.1.1 k.1.2 k.2))
             (Z.to_nat (cell w h k.1.1 k.1.2 k.2)) l))
    as (v' & Hrun & Hshape & Hvoxels).
  { intros x y z v1 Hx Hy Hz Hv1. red_grid.
    destruct (same_shape_index v0 v1 x y z Hv1) as (Hix & _ & ->).
    assert (Volume.is_valid_coordinate v0 x y z = true) as Hvalid
      by (apply valid_coordinate; auto).
    destruct (get_index_cell v0 x y z Hwf Hvalid) as [Hcell Hlt].
    change (Volume.width_ v0) with w in Hcell.
    change (Volume.height_ v0) with h in Hcell.
    rewrite Hix, vec_upd_alter by (destruct Hv1 as (_ & _ & _ & _ & ->); exact Hlt).
    red_grid. eexists. split; [reflexivity|]. split.
    - eapply same_shape_trans; [exact Hv1|].
      apply same_shape_with_voxels, length_alter.
    - red_grid. now rewrite Hcell. }
  exists v'. split; [exact Hrun|].
  destruct Hshape as (Hw' & Hh' & Hd' & Hs' & Hlen').
  split; [eapply same_shape_wf; [|exact Hwf]; repeat split; assumption|].
  split; [exact Hw'|]. split; [exact Hh'|]. split; [exact Hd'|].
  rewrite Hvoxels. apply foldl_Forall.
  - intros k l Hl. apply Forall_alter; [exact Hl|]. intros vx _ Hvx. exact Hvx.
  - unfold v0. red_grid. now apply Forall_replicate.
Qed.

(** ** Carving *)

Lemma grid_dimensions :
  Scene.num_x = 40 /\ Scene.num_y = 40 /\ Scene.num_z = 20
  /\ CInt.mul Scene.num_y Scene.num_z = 800
  /\ CInt.mul (CInt.mul Scene.num_x Scene.num_y) Scene.num_z = 32000.
Proof. vm_compute. repeat split. Qed.

Lemma decode_bounds (idx : Z) :
  0 <= idx < 32000 ->
  0 <= idx / 800 < 40 /\ 0 <= (idx / 20) mod 40 < 40 /\ 0 <= idx mod 20 < 20.
Proof. intros Hidx. Z.div_mod_to_equations. lia. Qed.

Lemma encode_decode (idx : Z) :
  0 <= idx < 32000 ->
  idx = idx / 800 * 800 + (idx / 20) mod 40 * 20 + idx mod 20.
Proof. intros Hidx. Z.div_mod_to_equations. lia. Qed.

Lemma decode_encode (xi yi zi : Z) :
  0 <= xi < 40 -> 0 <= yi < 40 -> 0 <= zi < 20 ->
  (xi * 800 + yi * 20 + zi) / 800 = xi
  /\ ((xi * 800 + yi * 20 + zi) / 20) mod 40 = yi
  /\ (xi * 800 + yi * 20 + zi) mod 20 = zi.
Proof. intros Hx Hy Hz. Z.div_mod_to_equations. lia. Qed.

(** The index triple that the carving loop computes from a cell number. *)
Lemma carve_indices (idx : Z) :
  0 <= idx < 32000 ->
  CInt.div idx (CInt.mul Scene.num_y Scene.num_z) = idx / 800
  /\ CInt.rem (CInt.div idx Scene.num_z) Scene.num_y = (idx / 20) mod 40
  /\ CInt.rem idx Scene.num_z = idx mod 20.
Proof.
  intros Hidx.
  destruct grid_dimensions as (_ & -> & -> & -> & _).
  unfold CInt.div, CInt.rem.
  rewrite !Z.quot_div_nonneg by lia.
  assert (0 <= idx / 20 < 2 ^ 31) as Hq by (Z.div_mod_to_equations; lia).
  destruct (decode_bounds idx Hidx) as (Hx & Hy & Hz).
  rewrite (int_wrap_small (idx / 800)) by (unfold CInt.in_range; lia).
  rewrite (int_wrap_small (idx / 20)) by (unfold CInt.in_range; lia).
  rewrite !Z.rem_mod_nonneg by lia.
  rewrite !int_wrap_small by (unfold CInt.in_range; lia).
  repeat split.
Qed.

Lemma set_active_color_valid (v : Volume.t) (x y z : Z) (c : vec4) :
  Volume.wf v -> Volume.is_valid_coordinate v x y z = true ->
  exists v',
    (v1 ← Volume.set_voxel_active x y z true v; Volume.set_voxel_color x y z c v1)
    = Some v'
    /\ same_shape v v'
    /\ Volume.voxels_ v'
       = alter (fun vx => set_color c (set_active true vx))
               (Z.to_nat (cell (Volume.width_ v) (Volume.height_ v) x y z))
               (Volume.voxels_ v).
Proof.
  intros Hwf Hvalid.
  destruct (get_index_cell v x y z Hwf Hvalid) as [Hcell Hlt].
  unfold Volume.set_voxel_active. rewrite Hvalid. red_grid.
  rewrite vec_upd_alter by exact Hlt. red_grid.
  destruct (same_shape_index v
              (Volume.with_voxels
                 (alter (set_active true) (Z.to_nat (Volume.get_index v x y z))
                        (Volume.voxels_ v)) true true v) x y z)
    as (Hix & Hval & _); [apply same_shape_with_voxels, length_alter|].
  unfold Volume.set_voxel_color. rewrite Hval, Hvalid, Hix. red_grid.
  rewrite vec_upd_alter by (rewrite length_alter; exact Hlt). red_grid.
  eexists. split; [reflexivity|]. split.
  - unfold same_shape. red_grid. now rewrite !length_alter.
  - red_grid. rewrite Hcell. now rewrite list_alter_alter_eq.
Qed.

Section CarvingFacts.
Context `{Projection}.

Lemma all_of_forallb (pred : View -> option bool) (vis : View -> bool)
    (views : list View) :
  (forall view, view ∈ views -> pred view = Some (vis view)) ->
  Scene.all_of pred views = Some (forallb vis views).
Proof.
  induction views as [|view views IH]; intros Hpred; [reflexivity|]. simpl.
  rewrite (Hpred view) by left. simpl.
  destruct (vis view); [|reflexivity].
  apply IH. intros view' Hin. apply Hpred. now right.
Qed.

(** The grid that carving leaves, for views on which the visibility test is
    defined and given by [vis]: the voxel of index [(xi, yi, zi)] is active
    exactly when [vis] holds of every view at its carving position. *)
Lemma create_volume_active (vis : View -> Point3f -> bool) (views : list View) :
  (forall view pos, view ∈ views -> Scene.voxel_visible view pos = Some (vis view pos)) ->
  exists volume,
    Scene.create_volume views = Some volume
    /\ Volume.wf volume
    /\ Volume.width_ volume = 40 /\ Volume.height_ volume = 40
    /\ Volume.depth_ volume = 20
    /\ forall xi yi zi,
         0 <= xi < 40 -> 0 <= yi < 40 -> 0 <= zi < 20 ->
         Volume.is_voxel_active volume xi yi zi
         = Some (forallb (fun view => vis view (Scene.carve_position xi yi zi)) views).
Proof.
  intros Hvis. unfold Scene.create_volume.
  destruct grid_dimensions as (Hnx & Hny & Hnz & _ & Htotal).
  rewrite Htotal, Hnx, Hny, Hnz.
  destruct (make_inactive 40 40 20 (F32.of_int VOLUME_VOXEL_SIZE))
    as (v0 & -> & Hwf & Hw & Hh & Hd & Hinactive); try lia.
  simpl.
  set (P := fun idx : Z =>
              forallb (fun view => vis view
                         (Scene.carve_position (idx / 800) ((idx / 20) mod 40)
                                               (idx mod 20))) views).
  set (ix := fun idx : Z =>
               Z.to_nat (cell 40 40 (idx / 800) ((idx / 20) mod 40) (idx mod 20))).
  set (g := fun vx => set_color Scene.carve_color (set_active true vx)).
  destruct (for_range_voxels (Scene.carve_voxel views)
              (fun idx l => if P idx then alter g (ix idx) l else l)
              32000 v0 v0) as (v1 & -> & Hshape & Hvoxels).
  { intros idx v Hidx Hv. unfold Scene.carve_voxel.
    destruct (carve_indices idx Hidx) as (-> & -> & ->).
    rewrite (all_of_forallb _ (fun view => vis view
               (Scene.carve_position (idx / 800) ((idx / 20) mod 40) (idx mod 20))))
      by (intros view Hin; now apply Hvis).
    simpl. fold (P idx). destruct (P idx); [|eauto using same_shape_refl].
    assert (Volume.wf v) as Hwfv by (eapply same_shape_wf; eauto).
    destruct (set_active_color_valid v (idx / 800) ((idx / 20) mod 40) (idx mod 20)
                Scene.carve_color Hwfv) as (v' & -> & Hv' & Hl').
    { apply valid_coordinate. destruct Hv as (-> & -> & -> & _).
      rewrite Hw, Hh, Hd. now apply decode_bounds. }
    exists v'. split; [reflexivity|]. split; [eapply same_shape_trans; eauto|].
    rewrite Hl'. destruct Hv as (-> & -> & _). now rewrite Hw, Hh. }
  { apply same_shape_refl. }
  simpl. eexists. split; [reflexivity|].
  assert (same_shape v0 (Volume.with_voxels (Volume.voxels_ v1) true
                           (Volume.volume_texture_dirty_ v1) v1)) as Hshape'.
  { eapply same_shape_trans; [exact Hshape|]. now apply same_shape_with_voxels. }
  assert (Volume.wf (Volume.with_voxels (Volume.voxels_ v1) true
                       (Volume.volume_texture_dirty_ v1) v1)) as Hwf'
    by (eapply same_shape_wf; eauto).
  split; [exact Hwf'|].
  destruct Hshape' as (Hw' & Hh' & Hd' & _).
  rewrite Hw', Hh', Hd'. repeat split; try assumption.
  intros xi yi zi Hxi Hyi Hzi.
  destruct (voxel_lookup_valid _ xi yi zi Hwf') as [_ ->];
    [apply valid_coordinate; rewrite Hw', Hh', Hd'; lia|].
  rewrite Hw', Hh', Hw, Hh. simpl. rewrite Hvoxels.
  rewrite foldl_alter_lookup by reflexivity.
  pose proof (cell_bounds 40 40 20 xi yi zi Hxi Hyi Hzi) as (_ & _ & _ & Hcell).
  destruct Hwf as (_ & _ & _ & _ & Hlen). rewrite Hw, Hh, Hd in Hlen.
  destruct (lookup_lt_is_Some_2 (Volume.voxels_ v0) (Z.to_nat (cell 40 40 xi yi zi)))
    as [vx Hvx]; [lia|].
  rewrite Hvx.
  assert (active vx = false) as Hoff
    by exact (Forall_lookup_1 _ _ _ _ Hinactive Hvx).
  set (idx0 := xi * 800 + yi * 20 + zi).
  destruct (decode_encode xi yi zi Hxi Hyi Hzi) as (Hdx & Hdy & Hdz).
  fold idx0 in Hdx, Hdy, Hdz.
  assert (P idx0 = forallb (fun view => vis view (Scene.carve_position xi yi zi)) views)
    as <- by (unfold P; now rewrite Hdx, Hdy, Hdz).
  destruct (P idx0) eqn:HP.
  - assert (existsb (fun k => P k && bool_decide (ix k = Z.to_nat (cell 40 40 xi yi zi)))
              (seqZ 0 32000) = true) as ->; [|reflexivity].
    apply existsb_touch. exists idx0. split; [|split; [exact HP|]].
    + apply elem_of_seqZ. unfold idx0. lia.
    + unfold ix. now rewrite Hdx, Hdy, Hdz.
  - destruct (existsb _ _) eqn:Hex; [|red_grid; now rewrite Hoff].
    apply existsb_touch in Hex as (idx & Hin & HP' & Hix).
    apply elem_of_seqZ in Hin. unfold ix in Hix.
    destruct (decode_bounds idx) as (Hx' & Hy' & Hz'); [lia|].
    pose proof (cell_bounds 40 40 20 _ _ _ Hx' Hy' Hz') as (_ & _ & _ & Hcell').
    apply Z2Nat.inj in Hix; [|lia|lia].
    apply cell_inj in Hix as (Hex & Hey & Hez); [|lia..].
    assert (idx = idx0) as ->
      by (unfold idx0; rewrite (encode_decode idx), Hex, Hey, Hez; lia).
    congruence.
Qed.

Lemma inside_bounds_iff (m : Mask) (px py : Z) :
  CarveSpec.inside_bounds m px py = true
  <-> 0 <= px < Mat.cols m /\ 0 <= py < Mat.rows m.
Proof.
  unfold CarveSpec.inside_bounds.
  rewrite !andb_true_iff, !Z.leb_le, !Z.ltb_lt. lia.
Qed.

Lemma bounds_check (m : Mask) (px py : Z) :
  (px <? 0) || (px >=? Mat.cols m) || (py <? 0) || (py >=? Mat.rows m)
  = negb (CarveSpec.inside_bounds m px py).
Proof.
  unfold CarveSpec.inside_bounds. rewrite !Z.geb_leb.
  destruct (Z.ltb_spec px 0), (Z.leb_spec 0 px), (Z.leb_spec (Mat.cols m) px),
    (Z.ltb_spec px (Mat.cols m)), (Z.ltb_spec py 0), (Z.leb_spec 0 py),
    (Z.leb_spec (Mat.rows m) py), (Z.ltb_spec py (Mat.rows m));
    try reflexivity; lia.
Qed.

Lemma at_inside (m : Mask) (px py : Z) :
  Mat.wf m -> 0 <= px < Mat.cols m -> 0 <= py < Mat.rows m ->
  is_Some (Mat.at_ m py px).
Proof.
  intros (Hr & Hc & Hlen) Hx Hy. unfold Mat.at_.
  assert ((0 <=? py) && (0 <=? px) = true) as ->
    by (rewrite andb_true_iff, !Z.leb_le; lia).
  apply lookup_lt_is_Some. nia.
Qed.

Lemma empty_no_bounds (m : Mask) (px py : Z) :
  Mat.wf m -> Mat.empty m = true -> CarveSpec.inside_bounds m px py = false.
Proof.
  intros (Hr & Hc & Hlen) Hempty.
  assert (Mat.rows m * Mat.cols m = 0) as Hzero.
  { unfold Mat.empty in Hempty. destruct (Mat.data m); simpl in Hlen; [lia|].
    now apply Z.eqb_eq. }
  destruct (CarveSpec.inside_bounds m px py) eqn:Hin; [|reflexivity].
  apply inside_bounds_iff in Hin. nia.
Qed.

(** The lambda of the source decides the visibility of the specification. *)
Lemma voxel_visible_spec (view : View) (pos : Point3f) :
  Mat.wf (mask view) ->
  Scene.voxel_visible view pos = Some (CarveSpec.visible view pos).
Proof.
  intros Hwf. unfold Scene.voxel_visible, CarveSpec.visible, CarveSpec.projected_pixel.
  destruct (Mat.empty (mask view)) eqn:Hempty.
  - destruct (projectPoints _ _ _ _ _) as [|pt pts]; [reflexivity|].
    now rewrite (empty_no_bounds _ _ _ Hwf Hempty).
  - destruct (projectPoints _ _ _ _ _) as [|pt pts]; [reflexivity|].
    rewrite bounds_check.
    destruct (CarveSpec.inside_bounds _ _ _) eqn:Hin; [|reflexivity].
    apply inside_bounds_iff in Hin as [Hx Hy].
    destruct (at_inside _ _ _ Hwf Hx Hy) as [m ->]. reflexivity.
Qed.

Lemma visible_iff (view : View) (pos : Point3f) :
  CarveSpec.visible view pos = true <-> CarveSpec.fully_on_at view pos.
Proof.
  unfold CarveSpec.visible, CarveSpec.fully_on_at.
  destruct (CarveSpec.projected_pixel view pos) as [[px py]|]; split.
  - intros Hvis. apply andb_true_iff in Hvis as [Hin Hon].
    apply inside_bounds_iff in Hin as [Hx Hy].
    destruct (Mat.at_ (mask view) py px) as [m|] eqn:Hat; [|discriminate].
    apply Z.eqb_eq in Hon as ->. exists px, py. auto.
  - intros (px' & py' & [= <- <-] & Hx & Hy & Hon).
    rewrite Hon. apply andb_true_iff. split; [|reflexivity].
    now apply inside_bounds_iff.
  - discriminate.
  - intros (px' & py' & Hp & _). discriminate.
Qed.



End CarvingFacts.

Lemma cell_decode (j : Z) :
  0 <= j < 32000 ->
  0 <= j mod 40 < 40 /\ 0 <= (j / 40) mod 40 < 40 /\ 0 <= j / 1600 < 20
  /\ cell 40 40 (j mod 40) ((j / 40) mod 40) (j / 1600) = j.
Proof. intros Hj. unfold cell. Z.div_mod_to_equations. lia. Qed.

Lemma filter_all {A} (P : A -> Prop) `{forall x, Decision (P x)} (l : list A) :
  Forall P l -> filter P l = l.
Proof.
  induction 1 as [|x l Hx _ IH]; [reflexivity|].
  now rewrite filter_cons_True, IH.
Qed.

Section CarvingClaims.
Context `{Projection}.

(** With no view at all, every visibility test passes. *)
Lemma create_volume_no_views :
  exists volume,
    Scene.create_volume [] = Some volume
    /\ (forall xi yi zi,
          0 <= xi < 40 -> 0 <= yi < 40 -> 0 <= zi < 20 ->
          Volume.is_voxel_active volume xi yi zi = Some true)
    /\ Volume.active_voxel_count volume = 32000.
Proof.
  destruct (create_volume_active (fun _ _ => true) [])
    as (volume & Hrun & Hwf & Hw & Hh & Hd & Hactive).
  { intros view pos Hin. now apply elem_of_nil in Hin. }
  exists volume. split; [exact Hrun|]. split; [exact Hactive|].
  unfold Volume.active_voxel_count.
  pose proof Hwf as (_ & _ & _ & _ & Hlen). rewrite Hw, Hh, Hd in Hlen.
  rewrite filter_all; [lia|].
  apply Forall_lookup. intros j vx Hvx.
  assert (0 <= Z.of_nat j < 32000) as Hj
    by (apply lookup_lt_Some in Hvx; lia).
  destruct (cell_decode _ Hj) as (Hx & Hy & Hz & Hcell).
  specialize (Hactive _ _ _ Hx Hy Hz).
  destruct (voxel_lookup_valid volume (Z.of_nat j mod 40)
              ((Z.of_nat j / 40) mod 40) (Z.of_nat j / 1600) Hwf) as [_ Hlook];
    [apply valid_coordinate; rewrite Hw, Hh, Hd; auto|].
  rewrite Hlook, Hw, Hh, Hcell, Nat2Z.id, Hvx in Hactive.
  now injection Hactive.
Qed.

(** C1, as the code has it.  Carving with an empty list of views returns the
    grid of 40 x 40 x 20 voxels with every voxel active: the test over all
    views holds of each voxel, there being no view to fail it, and the count
    of active voxels is 32000. *)
Theorem carving_without_views_fills_grid :
  exists volume,
    Scene.create_volume [] = Some volume
    /\ (forall xi yi zi,
          0 <= xi < Scene.num_x -> 0 <= yi < Scene.num_y -> 0 <= zi < Scene.num_z ->
          Volume.is_voxel_active volume xi yi zi = Some true)
    /\ Volume.active_voxel_count volume = Scene.num_x * Scene.num_y * Scene.num_z.
Proof.
  destruct grid_dimensions as (-> & -> & -> & _).
  exact create_volume_no_views.
Qed.

End CarvingClaims.

(** C1, as the specification has it, fails: for the empty list of views the
    grid is not empty. *)
Lemma carving_without_views_not_empty :
  ~ (forall volume,
       @Scene.create_volume Sample.projection [] = Some volume ->
       Volume.active_voxel_count volume = 0).
Proof.
  intros Hempty.
  destruct (@create_volume_no_views Sample.projection) as (volume & Hrun & _ & Hcount).
  specialize (Hempty volume Hrun). rewrite Hcount in Hempty. discriminate Hempty.
Qed.

Lemma carving_without_views_fills_grid_witness :
  exists volume,
    @Scene.create_volume Sample.projection [] = Some volume
    /\ Volume.is_voxel_active volume 0 0 0 = Some true.
Proof.
  destruct (@carving_without_views_fills_grid Sample.projection)
    as (volume & Hrun & Hactive & _).
  exists volume. split; [exact Hrun|].
  apply Hactive; vm_compute; split; congruence.
Defined.

(** * Further properties of the voxel grid *)

(** Where a loop of updates leaves the voxel of index [j], when the keys
    that address [j] all bring the same idempotent update. *)
Lemma foldl_alter_key_lookup {K} (ix : K -> nat) (g : K -> Voxel -> Voxel)
    (keys : list K) (l : list Voxel) (j : nat) (k0 : K) :
  (forall vx, g k0 (g k0 vx) = g k0 vx) ->
  (forall k, k ∈ keys -> ix k = j -> g k = g k0) ->
  foldl (fun l k => alter (g k) (ix k) l) l keys !! j
  = if existsb (fun k => bool_decide (ix k = j)) keys
    then g k0 <$> l !! j else l !! j.
Proof.
  intros Hidem. revert l. induction keys as [|k keys IH]; intros l Hsame;
    [reflexivity|].
  cbn [foldl existsb]. rewrite IH by (intros k' Hk'; apply Hsame; now right).
  destruct (bool_decide_reflect (ix k = j)) as [<- | Hne]; cbn [orb].
  - rewrite list_lookup_alter_eq.
    rewrite (Hsame k) by (left || reflexivity).
    destruct (existsb _ keys); [|reflexivity].
    destruct (l !! ix k); cbn [fmap option_fmap option_map]; [|reflexivity].
    now rewrite Hidem.
  - now rewrite list_lookup_alter_ne by exact Hne.
Qed.

Lemma existsb_index {K} (ix : K -> nat) (keys : list K) (j : nat) :
  existsb (fun k => bool_decide (ix k = j)) keys = true
  <-> exists k, k ∈ keys /\ ix k = j.
Proof.
  rewrite existsb_exists. split.
  - intros (k & Hin & Hk). apply bool_decide_eq_true in Hk. exists k.
    now rewrite list_elem_of_In.
  - intros (k & Hin & Hk). exists k. rewrite <- list_elem_of_In.
    split; [exact Hin|]. now apply bool_decide_eq_true.
Qed.

(** The voxel list that the constructor builds. *)
Lemma make_voxels (w h d : Z) (size : F32.t) :
  0 <= w -> 0 <= h -> 0 <= d -> w * h < 2 ^ 31 -> w * h * d < 2 ^ 31 ->
  exists v,
    Volume.make w h d size = Some v
    /\ Volume.width_ v = w /\ Volume.height_ v = h /\ Volume.depth_ v = d
    /\ Volume.voxel_size_ v = size
    /\ length (Volume.voxels_ v) = Z.to_nat (w * h * d)
    /\ Volume.voxels_ v
       = foldl (fun l k =>
                  alter (set_position
                           (Volume.voxel_to_world
                              (Volume.Mk true true w h d size []) k.1.1 k.1.2 k.2))
                        (Z.to_nat (cell w h k.1.1 k.1.2 k.2)) l)
               (replicate (Z.to_nat (w * h * d)) Voxel_default)
               (grid_keys w h d).
Proof.
  intros Hw Hh Hd Hwh Hwhd. unfold Volume.make.
  assert (CInt.mul (CInt.mul w h) d = w * h * d) as ->.
  { unfold CInt.mul. rewrite (int_wrap_small (w * h)) by (unfold CInt.in_range; nia).
    apply int_wrap_small. unfold CInt.in_range. nia. }
  assert ((w * h * d <? 0) = false) as -> by (apply Z.ltb_ge; nia).
  set (v0 := {| Volume.gpu_data_dirty_ := true; Volume.volume_texture_dirty_ := true;
                Volume.width_ := w; Volume.height_ := h; Volume.depth_ := d;
                Volume.voxel_size_ := size;
                Volume.voxels_ := replicate (Z.to_nat (w * h * d)) Voxel_default |}).
  assert (Volume.wf v0) as Hwf.
  { unfold Volume.wf, v0. red_grid. rewrite length_replicate. repeat split; nia. }
  destruct (grid_loop v0
    (fun x y z v =>
       l ← vec_upd (Volume.voxels_ v) (Volume.get_index v x y z)
             (set_position (Volume.voxel_to_world v x y z));
       Some (Volume.with_voxels l (Volume.gpu_data_dirty_ v)
               (Volume.volume_texture_dirty_ v) v))
    (fun k l =>
       alter (set_position
                (Volume.voxel_to_world (Volume.Mk true true w h d size [])
                   k.1.1 k.1.2 k.2))
             (Z.to_nat (cell w h k.1.1 k.1.2 k.2)) l))
    as (v' & Hrun & Hshape & Hvoxels).
  { intros x y z v1 Hx Hy Hz Hv1. red_grid.
    destruct (same_shape_index v0 v1 x y z Hv1) as (Hix & _ & ->).
    assert (Volume.is_valid_coordinate v0 x y z = true) as Hvalid
      by (apply valid_coordinate; auto).
    destruct (get_index_cell v0 x y z Hwf Hvalid) as [Hcell Hlt].
    change (Volume.width_ v0) with w in Hcell.
    change (Volume.height_ v0) with h in Hcell.
    rewrite Hix, vec_upd_alter by (destruct Hv1 as (_ & _ & _ & _ & ->); exact Hlt).
    red_grid. eexists. split; [reflexivity|]. split.
    - eapply same_shape_trans; [exact Hv1|].
      apply same_shape_with_voxels, length_alter.
    - red_grid. now rewrite Hcell. }
  exists v'. split; [exact Hrun|].
  destruct Hshape as (Hw' & Hh' & Hd' & Hs' & Hlen').
  split; [exact Hw'|]. split; [exact Hh'|]. split; [exact Hd'|].
  split; [exact Hs'|]. split; [|exact Hvoxels].
  rewrite Hlen'. unfold v0. red_grid. apply length_replicate.
Qed.

Lemma voxel_to_world_dims (v v' : Volume.t) (x y z : Z) :
  Volume.width_ v' = Volume.width_ v -> Volume.height_ v' = Volume.height_ v ->
  Volume.voxel_size_ v' = Volume.voxel_size_ v ->
  Volume.voxel_to_world v' x y z = Volume.voxel_to_world v x y z.
Proof. intros Hw Hh Hs. unfold Volume.voxel_to_world. now rewrite Hw, Hh, Hs. Qed.

Lemma filter_none {A} (P : A -> Prop) `{forall x, Decision (P x)} (l : list A) :
  Forall (fun x => ~ P x) l -> filter P l = [].
Proof.
  induction 1 as [|x l Hx _ IH]; [reflexivity|].
  now rewrite filter_cons_False, IH.
Qed.

(** The voxel at a valid coordinate of a grid whose voxel list is the
    result of the construction loop. *)
Lemma constructed_voxel (w h d : Z) (pos : Z * Z * Z -> vec3) (x y z : Z) :
  0 <= x < w -> 0 <= y < h -> 0 <= z < d ->
  foldl (fun l k => alter (set_position (pos k))
                          (Z.to_nat (cell w h k.1.1 k.1.2 k.2)) l)
        (replicate (Z.to_nat (w * h * d)) Voxel_default) (grid_keys w h d)
    !! Z.to_nat (cell w h x y z)
  = Some (set_position (pos (x, y, z)) Voxel_default).
Proof.
  intros Hx Hy Hz.
  pose proof (cell_bounds w h d x y z Hx Hy Hz) as (_ & _ & _ & Hc).
  rewrite (foldl_alter_key_lookup
             (fun k => Z.to_nat (cell w h k.1.1 k.1.2 k.2))
             (fun k => set_position (pos k)) _ _ _ (x, y, z)).
  - assert (existsb (fun k => bool_decide
              (Z.to_nat (cell w h k.1.1 k.1.2 k.2) = Z.to_nat (cell w h x y z)))
              (grid_keys w h d) = true) as ->.
    { apply existsb_index. exists (x, y, z). split; [|reflexivity].
      apply elem_of_grid_keys. lia. }
    rewrite lookup_replicate_2 by lia. reflexivity.
  - reflexivity.
  - intros [[x' y'] z'] Hin Hix.
    apply elem_of_grid_keys in Hin as (Hx' & Hy' & Hz').
    pose proof (cell_bounds w h d x' y' z' Hx' Hy' Hz') as (_ & _ & _ & Hc').
    cbn [fst snd] in Hix. apply Z2Nat.inj in Hix; [|lia|lia].
    apply cell_inj in Hix as (-> & -> & ->); [reflexivity|lia..].
Qed.

Lemma active_of_voxel (v : Volume.t) (x y z : Z) :
  Volume.wf v -> Volume.is_valid_coordinate v x y z = true ->
  Volume.is_voxel_active v x y z = active <$> Volume.get_voxel v x y z.
Proof.
  intros Hwf Hvalid.
  destruct (voxel_lookup_valid v x y z Hwf Hvalid) as [Hg Ha].
  now rewrite Hg, Ha.
Qed.

(** What the constructor builds. *)
Lemma make_spec (w h d : Z) (size : F32.t) :
  0 <= w -> 0 <= h -> 0 <= d -> w * h < 2 ^ 31 -> w * h * d < 2 ^ 31 ->
  exists v,
    Volume.make w h d size = Some v
    /\ Volume.wf v
    /\ Volume.width_ v = w /\ Volume.height_ v = h /\ Volume.depth_ v = d
    /\ Volume.voxel_size_ v = size
    /\ Volume.voxel_count v = w * h * d
    /\ Volume.active_voxel_count v = 0
    /\ forall x y z,
         Volume.is_valid_coordinate v x y z = true ->
         Volume.get_voxel v x y z
         = Some (set_position (Volume.voxel_to_world v x y z) Voxel_default).
Proof.
  intros Hw Hh Hd Hwh Hwhd.
  destruct (make_voxels w h d size Hw Hh Hd Hwh Hwhd)
    as (v & Hrun & Hw' & Hh' & Hd' & Hs' & Hlen & Hvoxels).
  destruct (make_inactive w h d size Hw Hh Hd Hwh Hwhd)
    as (v1 & Hrun1 & Hwf & _ & _ & _ & Hinactive).
  assert (v1 = v) as -> by congruence.
  exists v. split; [exact Hrun|]. split; [exact Hwf|].
  split; [exact Hw'|]. split; [exact Hh'|]. split; [exact Hd'|].
  split; [exact Hs'|].
  split; [unfold Volume.voxel_count; rewrite Hlen; nia|]. split.
  - unfold Volume.active_voxel_count. rewrite filter_none; [reflexivity|].
    eapply Forall_impl; [exact Hinactive|]. intros vx Hvx. cbn beta. congruence.
  - intros x y z Hvalid.
    destruct (voxel_lookup_valid v x y z Hwf Hvalid) as [-> _].
    apply valid_coordinate in Hvalid as (Hx & Hy & Hz).
    rewrite Hw', Hh', Hd' in *. rewrite Hvoxels.
    rewrite (constructed_voxel w h d
               (fun k => Volume.voxel_to_world (Volume.Mk true true w h d size [])
                           k.1.1 k.1.2 k.2)) by assumption.
    cbn [fst snd]. f_equal. f_equal. now apply voxel_to_world_dims.
Qed.

(** X1.  For dimensions that are not negative and whose product fits an
    [int], the constructor succeeds and builds a well-formed grid of
    [width * height * depth] voxels, none of them active, so that there is
    nothing to render, in which the voxel of every valid coordinate is the
    default voxel placed at the world position of that coordinate. *)
Theorem constructor_builds_grid (w h d : Z) (size : F32.t) :
  0 <= w -> 0 <= h -> 0 <= d -> w * h < 2 ^ 31 -> w * h * d < 2 ^ 31 ->
  exists v,
    Volume.make w h d size = Some v
    /\ Volume.wf v
    /\ Volume.width_ v = w /\ Volume.height_ v = h /\ Volume.depth_ v = d
    /\ Volume.voxel_size_ v = size
    /\ Volume.voxel_count v = w * h * d
    /\ Volume.active_voxel_count v = 0
    /\ Volume.generate_active_voxel_data v = ([], [])
    /\ forall x y z,
         Volume.is_valid_coordinate v x y z = true ->
         Volume.get_voxel v x y z
         = Some (set_position (Volume.voxel_to_world v x y z) Voxel_default)
         /\ Volume.is_voxel_active v x y z = Some false.
Proof.
  intros Hw Hh Hd Hwh Hwhd.
  destruct (make_spec w h d size Hw Hh Hd Hwh Hwhd)
    as (v & Hmake & Hwf & Hw' & Hh' & Hd' & Hs & Hcount & Hnone & Hget).
  exists v. split; [exact Hmake|]. split; [exact Hwf|].
  split; [exact Hw'|]. split; [exact Hh'|]. split; [exact Hd'|].
  split; [exact Hs|]. split; [exact Hcount|]. split; [exact Hnone|].
  split.
  - unfold Volume.active_voxel_count in Hnone.
    assert (filter (fun vx => active vx = true) (Volume.voxels_ v) = []) as Hoff
      by (apply length_zero_iff_nil; lia).
    unfold Volume.generate_active_voxel_data.
    clear -Hoff. revert Hoff.
    generalize (@nil vec3, @nil vec4).
    induction (Volume.voxels_ v) as [|vx l IH]; intros pc Hoff; [reflexivity|].
    rewrite filter_cons in Hoff. cbn [foldl].
    destruct (active vx) eqn:Hvx.
    + rewrite decide_True in Hoff by reflexivity. discriminate Hoff.
    + rewrite decide_False in Hoff by discriminate. now apply IH.
  - intros x y z Hvalid. split; [exact (Hget x y z Hvalid)|].
    rewrite (active_of_voxel v x y z Hwf Hvalid), (Hget x y z Hvalid).
    reflexivity.
Qed.

Lemma constructor_builds_grid_witness :
  exists v,
    Volume.make 2 2 2 (F32.of_int 40) = Some v
    /\ Volume.voxel_count v = 8
    /\ Volume.get_voxel v 1 0 0
       = Some (set_position (Volume.voxel_to_world v 1 0 0) Voxel_default).
Proof.
  destruct (constructor_builds_grid 2 2 2 (F32.of_int 40))
    as (v & Hrun & _ & Hw & Hh & Hd & _ & Hcount & _ & _ & Hget); try lia.
  exists v. split; [exact Hrun|]. split; [exact Hcount|].
  apply Hget. apply valid_coordinate. rewrite Hw, Hh, Hd. lia.
Defined.

(** Rewriting the voxel of one valid coordinate: the grid stays well formed,
    a read at that coordinate sees the rewritten voxel and a read anywhere
    else sees what it saw before. *)
Lemma point_update (v : Volume.t) (x y z : Z) (f : Voxel -> Voxel) (gpu tex : bool) :
  Volume.wf v -> Volume.is_valid_coordinate v x y z = true ->
  Volume.wf (Volume.with_voxels
               (alter f (Z.to_nat (Volume.get_index v x y z)) (Volume.voxels_ v))
               gpu tex v)
  /\ forall x' y' z',
       Volume.get_voxel
         (Volume.with_voxels
            (alter f (Z.to_nat (Volume.get_index v x y z)) (Volume.voxels_ v))
            gpu tex v) x' y' z'
       = if decide ((x', y', z') = (x, y, z))
         then f <$> Volume.get_voxel v x y z
         else Volume.get_voxel v x' y' z'.
Proof.
  intros Hwf Hvalid.
  set (v' := Volume.with_voxels _ gpu tex v).
  assert (same_shape v v') as Hshape by apply same_shape_with_voxels, length_alter.
  assert (Volume.wf v') as Hwf' by (eapply same_shape_wf; eauto).
  split; [exact Hwf'|]. intros x' y' z'.
  destruct (same_shape_index v v' x' y' z' Hshape) as (_ & Hval & _).
  destruct (get_index_cell v x y z Hwf Hvalid) as [Hcell _].
  destruct (Volume.is_valid_coordinate v x' y' z') eqn:Hvalid'.
  - destruct (voxel_lookup_valid v' x' y' z' Hwf') as [-> _];
      [now rewrite Hval|].
    destruct (voxel_lookup_valid v x' y' z' Hwf Hvalid') as [-> _].
    destruct (voxel_lookup_valid v x y z Hwf Hvalid) as [-> _].
    destruct Hshape as (-> & -> & _).
    change (Volume.voxels_ v')
      with (alter f (Z.to_nat (Volume.get_index v x y z)) (Volume.voxels_ v)).
    rewrite Hcell.
    destruct (decide ((x', y', z') = (x, y, z))) as [[= -> -> ->] | Hne].
    + apply list_lookup_alter_eq.
    + apply list_lookup_alter_ne.
      apply valid_coordinate in Hvalid as (Hx & Hy & Hz).
      apply valid_coordinate in Hvalid' as (Hx' & Hy' & Hz').
      pose proof (cell_bounds _ _ _ _ _ _ Hx Hy Hz) as (_ & _ & _ & Hc).
      pose proof (cell_bounds _ _ _ _ _ _ Hx' Hy' Hz') as (_ & _ & _ & Hc').
      intros Heq. apply Z2Nat.inj in Heq; [|lia|lia].
      apply cell_inj in Heq as (-> & -> & ->); [|lia..]. now apply Hne.
  - rewrite decide_False by (intros [= -> -> ->]; congruence).
    unfold Volume.get_voxel. rewrite Hval, Hvalid'. cbn [negb]. reflexivity.
Qed.

(** X2.  On a well-formed grid and at a valid coordinate, each of
    [set_voxel_active], [set_voxel_color] and [set_voxel_density] succeeds
    and keeps the grid well formed; a read at the coordinate then sees the
    voxel with that one field replaced, and a read at any other coordinate
    sees what it saw before. *)
Theorem setters_update_one_voxel (v : Volume.t) (x y z : Z)
    (a : bool) (c : vec4) (d : F32.t) :
  Volume.wf v -> Volume.is_valid_coordinate v x y z = true ->
  (exists v1,
     Volume.set_voxel_active x y z a v = Some v1 /\ Volume.wf v1
     /\ forall x' y' z',
          Volume.get_voxel v1 x' y' z'
          = if decide ((x', y', z') = (x, y, z))
            then set_active a <$> Volume.get_voxel v x y z
            else Volume.get_voxel v x' y' z')
  /\ (exists v1,
        Volume.set_voxel_color x y z c v = Some v1 /\ Volume.wf v1
        /\ forall x' y' z',
             Volume.get_voxel v1 x' y' z'
             = if decide ((x', y', z') = (x, y, z))
               then set_color c <$> Volume.get_voxel v x y z
               else Volume.get_voxel v x' y' z')
  /\ (exists v1,
        Volume.set_voxel_density x y z d v = Some v1 /\ Volume.wf v1
        /\ forall x' y' z',
             Volume.get_voxel v1 x' y' z'
             = if decide ((x', y', z') = (x, y, z))
               then set_density d <$> Volume.get_voxel v x y z
               else Volume.get_voxel v x' y' z').
Proof.
  intros Hwf Hvalid.
  destruct (get_index_cell v x y z Hwf Hvalid) as [_ Hlt].
  unfold Volume.set_voxel_active, Volume.set_voxel_color, Volume.set_voxel_density.
  rewrite Hvalid. red_grid. rewrite !vec_upd_alter by exact Hlt. red_grid.
  split; [|split]; eexists; (split; [reflexivity|]);
    apply point_update; assumption.
Qed.

Lemma setters_update_one_voxel_witness :
  exists v1,
    Volume.set_voxel_active 1 0 1 true Sample.vol2 = Some v1 /\ Volume.wf v1
    /\ forall x' y' z',
         Volume.get_voxel v1 x' y' z'
         = if decide ((x', y', z') = (1, 0, 1))
           then set_active true <$> Volume.get_voxel Sample.vol2 1 0 1
           else Volume.get_voxel Sample.vol2 x' y' z'.
Proof.
  apply (setters_update_one_voxel Sample.vol2 1 0 1 true (vec4_splat F32.zero) F32.zero).
  - unfold Volume.wf. simpl. lia.
  - reflexivity.
Defined.

(** X3.  On a well-formed grid and at a valid coordinate, [set_voxel]
    succeeds; a read at the coordinate then sees the voxel that was passed,
    with its position replaced by the world position of the coordinate, and a
    read at any other coordinate sees what it saw before. *)
Theorem set_voxel_places_voxel (v : Volume.t) (x y z : Z) (voxel : Voxel) :
  Volume.wf v -> Volume.is_valid_coordinate v x y z = true ->
  exists v1,
    Volume.set_voxel x y z voxel v = Some v1 /\ Volume.wf v1
    /\ forall x' y' z',
         Volume.get_voxel v1 x' y' z'
         = if decide ((x', y', z') = (x, y, z))
           then Some (set_position (Volume.voxel_to_world v x y z) voxel)
           else Volume.get_voxel v x' y' z'.
Proof.
  intros Hwf Hvalid.
  destruct (get_index_cell v x y z Hwf Hvalid) as [Hcell Hlt].
  unfold Volume.set_voxel. rewrite Hvalid. red_grid.
  rewrite vec_upd_alter by exact Hlt. red_grid.
  rewrite vec_upd_alter by (rewrite length_alter; exact Hlt). red_grid.
  rewrite list_alter_alter_eq.
  eexists. split; [reflexivity|].
  destruct (point_update v x y z
              (set_position (Volume.voxel_to_world v x y z) ∘ (fun _ => voxel))
              true true Hwf Hvalid) as [Hwf' Hget].
  split; [exact Hwf'|]. intros x' y' z'. rewrite Hget.
  destruct (decide _); [|reflexivity].
  destruct (voxel_lookup_valid v x y z Hwf Hvalid) as [-> _].
  rewrite Hcell in Hlt. destruct (lookup_lt_is_Some_2 _ _ Hlt) as [vx ->].
  reflexivity.
Qed.

Lemma set_voxel_places_voxel_witness :
  exists v1,
    Volume.set_voxel 1 0 1 Voxel_default Sample.vol2 = Some v1 /\ Volume.wf v1
    /\ forall x' y' z',
         Volume.get_voxel v1 x' y' z'
         = if decide ((x', y', z') = (1, 0, 1))
           then Some (set_position (Volume.voxel_to_world Sample.vol2 1 0 1)
                        Voxel_default)
           else Volume.get_voxel Sample.vol2 x' y' z'.
Proof.
  apply (set_voxel_places_voxel Sample.vol2 1 0 1 Voxel_default).
  - unfold Volume.wf. simpl. lia.
  - reflexivity.
Defined.

Lemma map_voxels_get (v : Volume.t) (f : Voxel -> Voxel) (gpu tex : bool) (x y z : Z) :
  Volume.get_voxel (Volume.with_voxels (f <$> Volume.voxels_ v) gpu tex v) x y z
  = if Volume.is_valid_coordinate v x y z
    then f <$> Volume.get_voxel v x y z
    else Some Voxel_default.
Proof.
  destruct (same_shape_index v
              (Volume.with_voxels (f <$> Volume.voxels_ v) gpu tex v) x y z)
    as (Hix & Hval & _); [apply same_shape_with_voxels, length_fmap|].
  unfold Volume.get_voxel, vec_get. rewrite Hix, Hval.
  destruct (Volume.is_valid_coordinate v x y z); cbn [negb]; [|reflexivity].
  red_grid. apply list_lookup_fmap.
Qed.

Lemma active_count_map (v : Volume.t) (f : Voxel -> Voxel) (gpu tex : bool) :
  (forall vx, active (f vx) = active vx) ->
  Volume.active_voxel_count (Volume.with_voxels (f <$> Volume.voxels_ v) gpu tex v)
  = Volume.active_voxel_count v.
Proof.
  intros Hf. unfold Volume.active_voxel_count. red_grid. f_equal.
  induction (Volume.voxels_ v) as [|vx l IH]; [reflexivity|].
  rewrite fmap_cons, !filter_cons, Hf.
  destruct (decide (active vx = true)); cbn [length]; now rewrite IH.
Qed.

(** X4.  The bulk operations act on every voxel and keep the number of
    voxels: after [activate_all] all voxels count as active, after
    [deactivate_all] or [clear_all] none does, and [set_all_color] leaves the
    count as it was.  At a valid coordinate [clear_all] leaves the voxel
    inactive and white with density 0, at the position it had; the other
    three change the one field they are about. *)
Theorem bulk_operations (v : Volume.t) (c : vec4) :
  Volume.active_voxel_count (Volume.activate_all v) = Volume.voxel_count v
  /\ Volume.active_voxel_count (Volume.deactivate_all v) = 0
  /\ Volume.active_voxel_count (Volume.clear_all v) = 0
  /\ Volume.active_voxel_count (Volume.set_all_color c v)
     = Volume.active_voxel_count v
  /\ Volume.voxel_count (Volume.activate_all v) = Volume.voxel_count v
  /\ Volume.voxel_count (Volume.deactivate_all v) = Volume.voxel_count v
  /\ Volume.voxel_count (Volume.clear_all v) = Volume.voxel_count v
  /\ Volume.voxel_count (Volume.set_all_color c v) = Volume.voxel_count v
  /\ forall x y z,
       Volume.is_valid_coordinate v x y z = true ->
       Volume.get_voxel (Volume.activate_all v) x y z
       = set_active true <$> Volume.get_voxel v x y z
       /\ Volume.get_voxel (Volume.deactivate_all v) x y z
          = set_active false <$> Volume.get_voxel v x y z
       /\ Volume.get_voxel (Volume.set_all_color c v) x y z
          = set_color c <$> Volume.get_voxel v x y z
       /\ Volume.get_voxel (Volume.clear_all v) x y z
          = (fun vx => MkVoxel (position vx) (vec4_splat F32.one) F32.zero false)
              <$> Volume.get_voxel v x y z.
Proof.
  unfold Volume.activate_all, Volume.deactivate_all, Volume.clear_all,
    Volume.set_all_color, Volume.voxel_count.
  repeat split.
  - unfold Volume.active_voxel_count. red_grid.
    rewrite filter_all, length_fmap; [reflexivity|].
    apply Forall_fmap, Forall_forall. reflexivity.
  - unfold Volume.active_voxel_count. red_grid.
    rewrite filter_none; [reflexivity|].
    apply Forall_fmap, Forall_forall. intros vx _. cbn. discriminate.
  - unfold Volume.active_voxel_count. red_grid.
    rewrite filter_none; [reflexivity|].
    apply Forall_fmap, Forall_forall. intros vx _. cbn. discriminate.
  - now apply active_count_map.
  - red_grid. now rewrite length_fmap.
  - red_grid. now rewrite length_fmap.
  - red_grid. now rewrite length_fmap.
  - red_grid. now rewrite length_fmap.
  - rewrite map_voxels_get, H. reflexivity.
  - rewrite map_voxels_get, H. reflexivity.
  - rewrite map_voxels_get, H. reflexivity.
  - rewrite map_voxels_get, H. reflexivity.
Qed.

Lemma bulk_operations_witness :
  Volume.get_voxel (Volume.clear_all Sample.vol2) 1 1 1
  = (fun vx => MkVoxel (position vx) (vec4_splat F32.one) F32.zero false)
      <$> Volume.get_voxel Sample.vol2 1 1 1.
Proof.
  apply (bulk_operations Sample.vol2 (vec4_splat F32.one)). reflexivity.
Defined.

(** X5.  On a well-formed grid [fill_box] succeeds and only ever adds: a
    voxel that was active stays active, every voxel stays at its position,
    and filling the same box a second time leaves every voxel as the first
    filling left it. *)
Theorem fill_box_only_adds (min_pos max_pos : vec3) (c : vec4) (v : Volume.t) :
  Volume.wf v ->
  exists v1 v2,
    Volume.fill_box min_pos max_pos c v = Some v1
    /\ Volume.fill_box min_pos max_pos c v1 = Some v2
    /\ Volume.wf v1
    /\ forall x y z,
         Volume.is_valid_coordinate v x y z = true ->
         (Volume.is_voxel_active v x y z = Some true ->
          Volume.is_voxel_active v1 x y z = Some true)
         /\ position <$> Volume.get_voxel v1 x y z
            = position <$> Volume.get_voxel v x y z
         /\ Volume.get_voxel v2 x y z = Volume.get_voxel v1 x y z.
Proof.
  intros Hwf.
  destruct (fill_box_voxels min_pos max_pos c v Hwf) as (v1 & Hrun1 & Hshape1 & Hget1).
  assert (Volume.wf v1) as Hwf1 by (eapply same_shape_wf; eauto).
  destruct (fill_box_voxels min_pos max_pos c v1 Hwf1) as (v2 & Hrun2 & Hshape2 & Hget2).
  exists v1, v2. split; [exact Hrun1|]. split; [exact Hrun2|]. split; [exact Hwf1|].
  intros x y z Hvalid.
  destruct (same_shape_index v v1 x y z Hshape1) as (_ & Hval1 & Hpos1).
  assert (Volume.is_valid_coordinate v1 x y z = true) as Hvalid1 by congruence.
  specialize (Hget1 x y z Hvalid). specialize (Hget2 x y z Hvalid1).
  rewrite Hpos1 in Hget2.
  assert (forall u, Volume.is_valid_coordinate u x y z = true ->
            Volume.is_voxel_active u x y z = active <$> Volume.get_voxel u x y z)
    as Hact.
  { intros u Hu. unfold Volume.is_voxel_active, Volume.get_voxel. now rewrite Hu. }
  rewrite (Hact v Hvalid), (Hact v1 Hvalid1), Hget2, Hget1.
  destruct (Volume.box_test _ _ _); destruct (Volume.get_voxel v x y z);
    repeat split; try reflexivity; try discriminate; auto.
Qed.

Lemma fill_box_only_adds_witness :
  exists v1 v2,
    Volume.fill_box (vec3_splat F32.zero) (vec3_splat F32.one) (vec4_splat F32.one)
      Sample.vol2 = Some v1
    /\ Volume.fill_box (vec3_splat F32.zero) (vec3_splat F32.one) (vec4_splat F32.one)
         v1 = Some v2
    /\ Volume.wf v1
    /\ Volume.get_voxel v2 1 1 1 = Volume.get_voxel v1 1 1 1.
Proof.
  destruct (fill_box_only_adds (vec3_splat F32.zero) (vec3_splat F32.one)
              (vec4_splat F32.one) Sample.vol2) as (v1 & v2 & H1 & H2 & Hwf & Hall).
  - unfold Volume.wf. simpl. lia.
  - exists v1, v2. split; [exact H1|]. split; [exact H2|]. split; [exact Hwf|].
    apply Hall. reflexivity.
Defined.

(** * Further properties of carving *)

(** In the carving loop the voxel of index [(xi, yi, zi)] is addressed by
    the one iteration of number [xi * 800 + yi * 20 + zi]. *)
Lemma carve_touch (P : Z -> bool) (xi yi zi : Z) :
  0 <= xi < 40 -> 0 <= yi < 40 -> 0 <= zi < 20 ->
  existsb (fun idx =>
             P idx && bool_decide
               (Z.to_nat (cell 40 40 (idx / 800) ((idx / 20) mod 40) (idx mod 20))
                = Z.to_nat (cell 40 40 xi yi zi)))
          (seqZ 0 32000)
  = P (xi * 800 + yi * 20 + zi).
Proof.
  intros Hxi Hyi Hzi.
  pose proof (cell_bounds 40 40 20 xi yi zi Hxi Hyi Hzi) as (_ & _ & _ & Hcell).
  destruct (decode_encode xi yi zi Hxi Hyi Hzi) as (Hdx & Hdy & Hdz).
  destruct (P (xi * 800 + yi * 20 + zi)) eqn:HP.
  - apply (existsb_touch P
             (fun idx => Z.to_nat (cell 40 40 (idx / 800) ((idx / 20) mod 40)
                                        (idx mod 20)))).
    exists (xi * 800 + yi * 20 + zi). split; [|split; [exact HP|]].
    + apply elem_of_seqZ. lia.
    + cbn beta. now rewrite Hdx, Hdy, Hdz.
  - destruct (existsb _ _) eqn:Hex; [|reflexivity].
    apply (existsb_touch P
             (fun idx => Z.to_nat (cell 40 40 (idx / 800) ((idx / 20) mod 40)
                                        (idx mod 20))))
      in Hex as (idx & Hin & HP' & Hix).
    apply elem_of_seqZ in Hin. cbn beta in Hix.
    destruct (decode_bounds idx) as (Hx' & Hy' & Hz'); [lia|].
    pose proof (cell_bounds 40 40 20 _ _ _ Hx' Hy' Hz') as (_ & _ & _ & Hcell').
    apply Z2Nat.inj in Hix; [|lia|lia].
    apply cell_inj in Hix as (Hex & Hey & Hez); [|lia..].
    assert (idx = xi * 800 + yi * 20 + zi) as ->
      by (rewrite (encode_decode idx), Hex, Hey, Hez; lia).
    congruence.
Qed.

(** The voxel that a loop over all cell numbers leaves at each index, when
    the iteration of a cell rewrites its voxel by [g] if [P] holds of the
    cell number and does nothing otherwise. *)
Lemma carve_loop (body : Z -> Volume.t -> option Volume.t) (P : Z -> bool)
    (g : Voxel -> Voxel) (v0 : Volume.t) :
  Volume.wf v0 ->
  Volume.width_ v0 = 40 -> Volume.height_ v0 = 40 -> Volume.depth_ v0 = 20 ->
  (forall vx, g (g vx) = g vx) ->
  (forall idx v, 0 <= idx < 32000 -> same_shape v0 v ->
     exists v', body idx v = Some v' /\ same_shape v0 v'
       /\ Volume.voxels_ v'
          = if P idx
            then alter g (Z.to_nat (cell 40 40 (idx / 800) ((idx / 20) mod 40)
                                         (idx mod 20))) (Volume.voxels_ v)
            else Volume.voxels_ v) ->
  exists v1,
    for_range 0 32000 body v0 = Some v1 /\ same_shape v0 v1
    /\ forall xi yi zi,
         0 <= xi < 40 -> 0 <= yi < 40 -> 0 <= zi < 20 ->
         Volume.voxels_ v1 !! Z.to_nat (cell 40 40 xi yi zi)
         = (if P (xi * 800 + yi * 20 + zi) then fmap g else id)
             (Volume.get_voxel v0 xi yi zi).
Proof.
  intros Hwf Hw Hh Hd Hg Hbody.
  destruct (for_range_voxels body
              (fun idx l =>
                 if P idx
                 then alter g (Z.to_nat (cell 40 40 (idx / 800) ((idx / 20) mod 40)
                                              (idx mod 20))) l
                 else l)
              32000 v0 v0 Hbody (same_shape_refl v0)) as (v1 & Hrun & Hshape & Hvoxels).
  exists v1. split; [exact Hrun|]. split; [exact Hshape|].
  intros xi yi zi Hxi Hyi Hzi.
  rewrite Hvoxels.
  rewrite (foldl_alter_lookup P
             (fun idx => Z.to_nat (cell 40 40 (idx / 800) ((idx / 20) mod 40)
                                        (idx mod 20)))) by exact Hg.
  rewrite carve_touch by assumption.
  destruct (voxel_lookup_valid v0 xi yi zi Hwf) as [-> _];
    [apply valid_coordinate; rewrite Hw, Hh, Hd; lia|].
  rewrite Hw, Hh. now destruct (P _).
Qed.

(** The position stored in the voxel of a cell, from the position that
    carving tests for the cell: the first coordinate is kept, the second
    is the third one raised by half a voxel, the third is the second one
    negated. *)
Lemma stored_position (v : Volume.t) (xi yi zi : Z) :
  Volume.width_ v = 40 -> Volume.height_ v = 40 ->
  Volume.voxel_size_ v = F32.of_int 40 ->
  0 <= xi < 40 -> 0 <= yi < 40 -> 0 <= zi < 20 ->
  Volume.voxel_to_world v xi yi zi
  = Vec3 (p3x (Scene.carve_position xi yi zi))
         (F32.add (p3z (Scene.carve_position xi yi zi)) (F32.of_int 20))
         (F32.neg (p3y (Scene.carve_position xi yi zi))).
Proof.
  intros Hw Hh Hs Hxi Hyi Hzi.
  unfold Volume.voxel_to_world, Scene.carve_position. rewrite Hw, Hh, Hs.
  cbn [p3x p3y p3z].
  assert (Forall (fun k =>
            F32.mul (F32.sub (F32.of_int k) (F32.mul (F32.of_int 40) F32.half))
                    (F32.of_int 40)
            = F32.of_int (CInt.add (CInt.neg VOLUME_BOX_LENGTH)
                                   (CInt.mul k VOLUME_VOXEL_SIZE)))
            (seqZ 0 40)) as Hx
    by (apply (bool_decide_unpack _); vm_compute; exact I).
  assert (Forall (fun k =>
            F32.add (F32.mul (F32.of_int k) (F32.of_int 40))
                    (F32.mul (F32.of_int 40) F32.half)
            = F32.add (F32.of_int (CInt.mul k VOLUME_VOXEL_SIZE)) (F32.of_int 20))
            (seqZ 0 20)) as Hz
    by (apply (bool_decide_unpack _); vm_compute; exact I).
  assert (Forall (fun k =>
            F32.mul (F32.neg (F32.sub (F32.of_int k)
                                      (F32.mul (F32.of_int 40) F32.half)))
                    (F32.of_int 40)
            = F32.neg (F32.of_int (CInt.add (CInt.neg VOLUME_BOX_LENGTH)
                                            (CInt.mul k VOLUME_VOXEL_SIZE))))
            (seqZ 0 40)) as Hy
    by (apply (bool_decide_unpack _); vm_compute; exact I).
  rewrite Forall_seqZ in Hx, Hy, Hz.
  rewrite (Hx xi), (Hy yi), (Hz zi) by lia. reflexivity.
Qed.

(** The voxel of the array at position [j], as the getter reads it. *)
Lemma grid_lookup_cell (v : Volume.t) (j : nat) (vx : Voxel) :
  Volume.wf v ->
  Volume.width_ v = 40 -> Volume.height_ v = 40 -> Volume.depth_ v = 20 ->
  Volume.voxels_ v !! j = Some vx ->
  (0 <= Z.of_nat j mod 40 < 40 /\ 0 <= (Z.of_nat j / 40) mod 40 < 40
   /\ 0 <= Z.of_nat j / 1600 < 20)
  /\ Volume.get_voxel v (Z.of_nat j mod 40) ((Z.of_nat j / 40) mod 40)
                      (Z.of_nat j / 1600) = Some vx.
Proof.
  intros Hwf Hw Hh Hd Hvx.
  pose proof Hwf as (_ & _ & _ & _ & Hlen). rewrite Hw, Hh, Hd in Hlen.
  assert (0 <= Z.of_nat j < 32000) as Hj
    by (apply lookup_lt_Some in Hvx; lia).
  destruct (cell_decode _ Hj) as (Hx & Hy & Hz & Hcell).
  split; [auto|].
  destruct (voxel_lookup_valid v (Z.of_nat j mod 40)
              ((Z.of_nat j / 40) mod 40) (Z.of_nat j / 1600) Hwf) as [-> _];
    [apply valid_coordinate; rewrite Hw, Hh, Hd; auto|].
  now rewrite Hw, Hh, Hcell, Nat2Z.id.
Qed.

Lemma filter_length_mono {A} (P : A -> Prop) `{forall x, Decision (P x)}
    (l l' : list A) :
  length l = length l' ->
  (forall i x x', l !! i = Some x -> l' !! i = Some x' -> P x -> P x') ->
  (length (filter P l) <= length (filter P l'))%nat.
Proof.
  revert l'. induction l as [|x l IH]; intros [|x' l'] Hlen Himp;
    try discriminate Hlen; [reflexivity|].
  injection Hlen as Hlen.
  assert (length (filter P l) <= length (filter P l'))%nat as Hrec.
  { apply IH; [exact Hlen|]. intros i y y' Hy Hy'. exact (Himp (S i) y y' Hy Hy'). }
  rewrite !filter_cons.
  destruct (decide (P x)) as [HP|HP].
  - rewrite decide_True by exact (Himp 0%nat x x' eq_refl eq_refl HP).
    cbn [length]. lia.
  - destruct (decide (P x')); cbn [length]; lia.
Qed.

(** Two loops with the same body give the same result. *)
Lemma for_each_ext {K S} (f g : K -> S -> option S) (ks : list K) (s : S) :
  (forall k s, f k s = g k s) -> for_each f ks s = for_each g ks s.
Proof.
  intros Hfg. revert s. induction ks as [|k ks IH]; intros s; [reflexivity|].
  cbn [for_each]. rewrite Hfg. destruct (g k s); [apply IH|reflexivity].
Qed.


Section CarvingMore.
Context `{Projection}.

(** Every voxel of a carved grid, for views on which the visibility test
    is the function [vis]. *)
Lemma create_volume_voxels (vis : View -> Point3f -> bool) (views : list View) :
  (forall view pos, view ∈ views -> Scene.voxel_visible view pos = Some (vis view pos)) ->
  exists volume,
    Scene.create_volume views = Some volume
    /\ Volume.wf volume
    /\ Volume.width_ volume = 40 /\ Volume.height_ volume = 40
    /\ Volume.depth_ volume = 20
    /\ Volume.voxel_size_ volume = F32.of_int 40
    /\ forall xi yi zi,
         0 <= xi < 40 -> 0 <= yi < 40 -> 0 <= zi < 20 ->
         Volume.get_voxel volume xi yi zi
         = Some ((if forallb (fun view => vis view (Scene.carve_position xi yi zi)) views
                  then fun vx => set_color Scene.carve_color (set_active true vx)
                  else id)
                   (set_position (Volume.voxel_to_world volume xi yi zi)
                                 Voxel_default)).
Proof.
  intros Hvis. unfold Scene.create_volume.
  destruct grid_dimensions as (Hnx & Hny & Hnz & _ & Htotal).
  rewrite Htotal, Hnx, Hny, Hnz.
  destruct (make_spec 40 40 20 (F32.of_int VOLUME_VOXEL_SIZE))
    as (v0 & -> & Hwf & Hw & Hh & Hd & Hsize & _ & _ & Hget); try lia.
  cbn [mbind option_bind].
  destruct (carve_loop (Scene.carve_voxel views)
              (fun idx =>
                 forallb (fun view => vis view
                            (Scene.carve_position (idx / 800) ((idx / 20) mod 40)
                                                  (idx mod 20))) views)
              (fun vx => set_color Scene.carve_color (set_active true vx))
              v0 Hwf Hw Hh Hd) as (v1 & -> & Hshape & Hvoxels).
  { reflexivity. }
  { intros idx v Hidx Hv. unfold Scene.carve_voxel.
    destruct (carve_indices idx Hidx) as (-> & -> & ->).
    rewrite (all_of_forallb _ (fun view => vis view
               (Scene.carve_position (idx / 800) ((idx / 20) mod 40) (idx mod 20))))
      by (intros view Hin; now apply Hvis).
    cbn [mbind option_bind].
    destruct (forallb _ views); [|eauto using same_shape_refl].
    assert (Volume.wf v) as Hwfv by (eapply same_shape_wf; eauto).
    destruct (set_active_color_valid v (idx / 800) ((idx / 20) mod 40) (idx mod 20)
                Scene.carve_color Hwfv) as (v' & -> & Hv' & Hl').
    { apply valid_coordinate. destruct Hv as (-> & -> & -> & _).
      rewrite Hw, Hh, Hd. now apply decode_bounds. }
    exists v'. split; [reflexivity|]. split; [eapply same_shape_trans; eauto|].
    rewrite Hl'. destruct Hv as (-> & -> & _). now rewrite Hw, Hh. }
  cbn [mbind option_bind]. eexists. split; [reflexivity|].
  assert (same_shape v0 (Volume.with_voxels (Volume.voxels_ v1) true
                           (Volume.volume_texture_dirty_ v1) v1)) as Hshape'.
  { eapply same_shape_trans; [exact Hshape|]. now apply same_shape_with_voxels. }
  assert (Volume.wf (Volume.with_voxels (Volume.voxels_ v1) true
                       (Volume.volume_texture_dirty_ v1) v1)) as Hwf'
    by (eapply same_shape_wf; eauto).
  split; [exact Hwf'|].
  pose proof Hshape' as (Hw' & Hh' & Hd' & Hs' & _).
  rewrite Hw', Hh', Hd', Hs'.
  split; [exact Hw|]. split; [exact Hh|]. split; [exact Hd|].
  split; [exact Hsize|].
  intros xi yi zi Hxi Hyi Hzi.
  destruct (voxel_lookup_valid _ xi yi zi Hwf') as [-> _];
    [apply valid_coordinate; rewrite Hw', Hh', Hd', Hw, Hh, Hd; lia|].
  rewrite Hw', Hh', Hw, Hh.
  change (Volume.voxels_ (Volume.with_voxels _ _ _ _)) with (Volume.voxels_ v1).
  rewrite (Hvoxels xi yi zi Hxi Hyi Hzi).
  rewrite (Hget xi yi zi) by (apply valid_coordinate; rewrite Hw, Hh, Hd; lia).
  rewrite (voxel_to_world_dims v0 _ xi yi zi Hw' Hh' Hs').
  destruct (decode_encode xi yi zi Hxi Hyi Hzi) as (-> & -> & ->).
  now destruct (forallb _ views).
Qed.


(** The carved grid in closed form, for views whose masks hold as many
    bytes as their size says. *)
Lemma carved_voxels (views : list View) :
  Forall (fun view => Mat.wf (mask view)) views ->
  exists volume,
    Scene.create_volume views = Some volume
    /\ Volume.wf volume
    /\ Volume.width_ volume = 40 /\ Volume.height_ volume = 40
    /\ Volume.depth_ volume = 20
    /\ Volume.voxel_size_ volume = F32.of_int 40
    /\ forall xi yi zi,
         0 <= xi < 40 -> 0 <= yi < 40 -> 0 <= zi < 20 ->
         Volume.get_voxel volume xi yi zi
         = Some (let tested := Scene.carve_position xi yi zi in
                 let seen := forallb (fun view => CarveSpec.visible view tested) views in
                 MkVoxel (Vec3 (p3x tested) (F32.add (p3z tested) (F32.of_int 20))
                               (F32.neg (p3y tested)))
                         (if seen then Scene.carve_color else vec4_splat F32.one)
                         F32.one seen).
Proof.
  intros Hmasks.
  destruct (create_volume_voxels CarveSpec.visible views)
    as (volume & Hrun & Hwf & Hw & Hh & Hd & Hs & Hget).
  { intros view pos Hin. apply voxel_visible_spec.
    rewrite Forall_forall in Hmasks. now apply Hmasks. }
  exists volume. split; [exact Hrun|]. split; [exact Hwf|].
  split; [exact Hw|]. split; [exact Hh|]. split; [exact Hd|]. split; [exact Hs|].
  intros xi yi zi Hxi Hyi Hzi.
  rewrite (Hget xi yi zi Hxi Hyi Hzi).
  rewrite (stored_position volume xi yi zi Hw Hh Hs Hxi Hyi Hzi).
  cbv zeta. now destruct (forallb _ views).
Qed.



(** X6.  Carving, for views whose masks hold as many bytes as their size
    says, returns a grid of 40 by 40 by 20 voxels of size 40.  The voxel
    of a cell is active exactly when every view sees the tested position
    of the cell on a fully-on pixel; an active voxel has the carving
    colour, another one the white of a fresh voxel; the density is 1.  The
    stored position is the tested position with its first coordinate kept,
    its third coordinate raised by 20 as second coordinate, and its second
    coordinate negated as third. *)
Theorem carved_grid_in_closed_form (views : list View) :
  Forall (fun view => Mat.wf (mask view)) views ->
  exists volume,
    Scene.create_volume views = Some volume
    /\ Volume.wf volume
    /\ Volume.width_ volume = 40 /\ Volume.height_ volume = 40
    /\ Volume.depth_ volume = 20
    /\ Volume.voxel_size_ volume = F32.of_int 40
    /\ Volume.voxel_count volume = 32000
    /\ forall xi yi zi,
         0 <= xi < 40 -> 0 <= yi < 40 -> 0 <= zi < 20 ->
         Volume.get_voxel volume xi yi zi
         = Some (let tested := Scene.carve_position xi yi zi in
                 let seen := forallb (fun view => CarveSpec.visible view tested) views in
                 MkVoxel (Vec3 (p3x tested) (F32.add (p3z tested) (F32.of_int 20))
                               (F32.neg (p3y tested)))
                         (if seen then Scene.carve_color else vec4_splat F32.one)
                         F32.one seen)
         /\ Volume.is_voxel_active volume xi yi zi
            = Some (forallb (fun view =>
                               CarveSpec.visible view (Scene.carve_position xi yi zi))
                            views).
Proof.
  intros Hmasks.
  destruct (carved_voxels views Hmasks)
    as (volume & Hrun & Hwf & Hw & Hh & Hd & Hs & Hget).
  exists volume. split; [exact Hrun|]. split; [exact Hwf|].
  split; [exact Hw|]. split; [exact Hh|]. split; [exact Hd|]. split; [exact Hs|].
  pose proof Hwf as (_ & _ & _ & _ & Hlen). rewrite Hw, Hh, Hd in Hlen.
  split; [exact Hlen|].
  intros xi yi zi Hxi Hyi Hzi. split; [exact (Hget xi yi zi Hxi Hyi Hzi)|].
  rewrite (active_of_voxel volume xi yi zi Hwf)
    by (apply valid_coordinate; rewrite Hw, Hh, Hd; lia).
  rewrite (Hget xi yi zi Hxi Hyi Hzi). reflexivity.
Qed.

(** X7.  [create_empty_volume] returns what carving returns for no view
    at all: a grid of 40 by 40 by 20 voxels, every one of them active and
    of the carving colour. *)
Theorem empty_volume_is_full :
  exists volume,
    Scene.create_empty_volume = Some volume
    /\ Scene.create_volume [] = Some volume
    /\ Volume.voxel_count volume = 32000
    /\ Volume.active_voxel_count volume = 32000
    /\ forall xi yi zi,
         0 <= xi < 40 -> 0 <= yi < 40 -> 0 <= zi < 20 ->
         exists vx,
           Volume.get_voxel volume xi yi zi = Some vx
           /\ active vx = true /\ color vx = Scene.carve_color.
Proof.
  assert (Scene.create_empty_volume = Scene.create_volume []) as Hsame.
  { unfold Scene.create_empty_volume, Scene.create_volume, for_range.
    destruct (Volume.make _ _ _ _) as [v0|]; [|reflexivity].
    cbn [mbind option_bind].
    generalize (seqZ 0 (CInt.mul (CInt.mul Scene.num_x Scene.num_y) Scene.num_z - 0)).
    intros cells.
    assert (for_each Scene.fill_voxel_at cells v0
            = for_each (Scene.carve_voxel []) cells v0) as Hloop
      by (apply for_each_ext; intros idx v; reflexivity).
    exact (f_equal (fun r => v ← r;
                      Some (Volume.with_voxels (Volume.voxels_ v) true
                              (Volume.volume_texture_dirty_ v) v)) Hloop). }
  destruct (carved_voxels []) as (volume & Hrun & Hwf & Hw & Hh & Hd & _ & Hget);
    [constructor|].
  exists volume. rewrite Hsame. split; [exact Hrun|]. split; [exact Hrun|].
  pose proof Hwf as (_ & _ & _ & _ & Hlen). rewrite Hw, Hh, Hd in Hlen.
  split; [exact Hlen|]. split.
  - unfold Volume.active_voxel_count. rewrite filter_all; [exact Hlen|].
    apply Forall_lookup. intros j vx Hvx.
    destruct (grid_lookup_cell volume j vx Hwf Hw Hh Hd Hvx) as [(Hx & Hy & Hz) Hcell].
    rewrite (Hget _ _ _ Hx Hy Hz) in Hcell. injection Hcell as <-. reflexivity.
  - intros xi yi zi Hxi Hyi Hzi. eexists. split; [exact (Hget xi yi zi Hxi Hyi Hzi)|].
    split; reflexivity.
Qed.

(** X8.  The carved grid depends on the set of the views only, not on their
    order or on repetitions, and further views can only take voxels away:
    when every view of a first list is in a second list, the voxels that
    are active for the second list are active for the first one. *)
Theorem more_views_carve_more (views views' : list View) :
  Forall (fun view => Mat.wf (mask view)) views ->
  Forall (fun view => Mat.wf (mask view)) views' ->
  (forall view, view ∈ views -> view ∈ views') ->
  exists volume volume',
    Scene.create_volume views = Some volume
    /\ Scene.create_volume views' = Some volume'
    /\ (forall xi yi zi,
          0 <= xi < 40 -> 0 <= yi < 40 -> 0 <= zi < 20 ->
          Volume.is_voxel_active volume' xi yi zi = Some true ->
          Volume.is_voxel_active volume xi yi zi = Some true)
    /\ Volume.active_voxel_count volume' <= Volume.active_voxel_count volume
    /\ ((forall view, view ∈ views' -> view ∈ views) ->
        Volume.voxels_ volume' = Volume.voxels_ volume).
Proof.
  intros Hmasks Hmasks' Hsub.
  destruct (carved_voxels views) as (v & Hrun & Hwf & Hw & Hh & Hd & Hs & Hget);
    [exact Hmasks|].
  destruct (carved_voxels views')
    as (v' & Hrun' & Hwf' & Hw' & Hh' & Hd' & Hs' & Hget'); [exact Hmasks'|].
  exists v, v'. split; [exact Hrun|]. split; [exact Hrun'|].
  assert (forall pos,
            forallb (fun view => CarveSpec.visible view pos) views' = true ->
            forallb (fun view => CarveSpec.visible view pos) views = true) as Hmono.
  { intros pos Hall. rewrite forallb_forall in Hall. apply forallb_forall.
    intros view Hin. apply Hall. apply list_elem_of_In, Hsub, list_elem_of_In, Hin. }
  pose proof Hwf as (_ & _ & _ & _ & Hlen). rewrite Hw, Hh, Hd in Hlen.
  pose proof Hwf' as (_ & _ & _ & _ & Hlen'). rewrite Hw', Hh', Hd' in Hlen'.
  split; [|split].
  - intros xi yi zi Hxi Hyi Hzi.
    rewrite (active_of_voxel v xi yi zi Hwf)
      by (apply valid_coordinate; rewrite Hw, Hh, Hd; lia).
    rewrite (active_of_voxel v' xi yi zi Hwf')
      by (apply valid_coordinate; rewrite Hw', Hh', Hd'; lia).
    rewrite (Hget xi yi zi), (Hget' xi yi zi) by assumption.
    cbv zeta. cbn [fmap option_fmap option_map active].
    intros Hon. injection Hon as Hon. now rewrite Hmono.
  - unfold Volume.active_voxel_count. apply Nat2Z.inj_le.
    apply filter_length_mono; [lia|].
    intros j vx' vx Hvx' Hvx.
    destruct (grid_lookup_cell v j vx Hwf Hw Hh Hd Hvx) as [(Hx & Hy & Hz) Hcell].
    destruct (grid_lookup_cell v' j vx' Hwf' Hw' Hh' Hd' Hvx') as [_ Hcell'].
    rewrite (Hget _ _ _ Hx Hy Hz) in Hcell.
    rewrite (Hget' _ _ _ Hx Hy Hz) in Hcell'.
    injection Hcell as <-. injection Hcell' as <-.
    cbv zeta. cbn [active]. apply Hmono.
  - intros Hsup. apply list_eq. intros j.
    destruct (Volume.voxels_ v !! j) as [vx|] eqn:Hvx.
    + destruct (lookup_lt_is_Some_2 (Volume.voxels_ v') j) as [vx' Hvx'];
        [apply lookup_lt_Some in Hvx; lia|].
      destruct (grid_lookup_cell v j vx Hwf Hw Hh Hd Hvx) as [(Hx & Hy & Hz) Hcell].
      destruct (grid_lookup_cell v' j vx' Hwf' Hw' Hh' Hd' Hvx') as [_ Hcell'].
      rewrite (Hget _ _ _ Hx Hy Hz) in Hcell.
      rewrite (Hget' _ _ _ Hx Hy Hz) in Hcell'.
      rewrite Hvx'. injection Hcell as <-. injection Hcell' as <-.
      cbv zeta.
      assert (forallb (fun view => CarveSpec.visible view
                         (Scene.carve_position (Z.of_nat j mod 40)
                            ((Z.of_nat j / 40) mod 40) (Z.of_nat j / 1600))) views'
              = forallb (fun view => CarveSpec.visible view
                           (Scene.carve_position (Z.of_nat j mod 40)
                              ((Z.of_nat j / 40) mod 40) (Z.of_nat j / 1600))) views)
        as ->; [|reflexivity].
      apply eq_true_iff_eq. rewrite !forallb_forall.
      split; intros Hall view Hin; apply Hall; apply list_elem_of_In;
        apply list_elem_of_In in Hin; auto.
    + apply lookup_ge_None. apply lookup_ge_None in Hvx. lia.
Qed.

(** X9.  A view whose mask has no fully-on pixel, an empty mask included,
    leaves no voxel active, whatever the other views are. *)
Theorem blind_view_empties_grid (views : list View) (blind : View) :
  Forall (fun view => Mat.wf (mask view)) views ->
  blind ∈ views ->
  (forall row col, Mat.at_ (mask blind) row col <> Some 255) ->
  exists volume,
    Scene.create_volume views = Some volume
    /\ Volume.active_voxel_count volume = 0
    /\ forall xi yi zi,
         0 <= xi < 40 -> 0 <= yi < 40 -> 0 <= zi < 20 ->
         Volume.is_voxel_active volume xi yi zi = Some false.
Proof.
  intros Hmasks Hin Hblind.
  destruct (carved_voxels views) as (v & Hrun & Hwf & Hw & Hh & Hd & Hs & Hget);
    [exact Hmasks|].
  exists v. split; [exact Hrun|].
  assert (forall pos, forallb (fun view => CarveSpec.visible view pos) views = false)
    as Hnone.
  { intros pos. apply not_true_is_false. intros Hall.
    rewrite forallb_forall in Hall.
    specialize (Hall blind (proj1 (list_elem_of_In _ _) Hin)).
    apply visible_iff in Hall as (px & py & _ & _ & _ & Hat).
    exact (Hblind py px Hat). }
  split.
  - unfold Volume.active_voxel_count. rewrite filter_none; [reflexivity|].
    apply Forall_lookup. intros j vx Hvx.
    destruct (grid_lookup_cell v j vx Hwf Hw Hh Hd Hvx) as [(Hx & Hy & Hz) Hcell].
    rewrite (Hget _ _ _ Hx Hy Hz) in Hcell. injection Hcell as <-.
    cbv zeta. cbn [active]. rewrite Hnone. intros Heq. discriminate Heq.
  - intros xi yi zi Hxi Hyi Hzi.
    rewrite (active_of_voxel v xi yi zi Hwf)
      by (apply valid_coordinate; rewrite Hw, Hh, Hd; lia).
    rewrite (Hget xi yi zi) by assumption.
    cbv zeta. cbn [fmap option_fmap option_map active]. rewrite Hnone. reflexivity.
Qed.

End CarvingMore.


Lemma carved_grid_in_closed_form_witness :
  exists volume,
    @Scene.create_volume Sample.projection [Sample.one_pixel_view] = Some volume
    /\ Volume.voxel_size_ volume = F32.of_int 40
    /\ active <$> Volume.get_voxel volume 20 20 0
       = Some (@CarveSpec.visible Sample.projection Sample.one_pixel_view
                 (Scene.carve_position 20 20 0) && true).
Proof.
  destruct (@carved_grid_in_closed_form Sample.projection [Sample.one_pixel_view])
    as (volume & Hrun & _ & _ & _ & _ & Hsize & _ & Hget).
  - repeat constructor; simpl; lia.
  - exists volume. split; [exact Hrun|]. split; [exact Hsize|].
    destruct (Hget 20 20 0) as [-> _]; [lia..|]. reflexivity.
Defined.

Lemma more_views_carve_more_witness :
  exists volume volume',
    @Scene.create_volume Sample.projection [Sample.one_pixel_view] = Some volume
    /\ @Scene.create_volume Sample.projection
         [Sample.view_at "bg.png" "cb.yml"; Sample.one_pixel_view] = Some volume'
    /\ Volume.active_voxel_count volume' <= Volume.active_voxel_count volume.
Proof.
  destruct (@more_views_carve_more Sample.projection [Sample.one_pixel_view]
              [Sample.view_at "bg.png" "cb.yml"; Sample.one_pixel_view])
    as (volume & volume' & Hrun & Hrun' & _ & Hcount & _).
  - repeat constructor; simpl; lia.
  - repeat constructor; simpl; lia.
  - intros view Hin. apply list_elem_of_singleton in Hin as ->.
    apply list_elem_of_further, list_elem_of_here.
  - exists volume, volume'. split; [exact Hrun|]. split; [exact Hrun'|]. exact Hcount.
Defined.

Lemma blind_view_empties_grid_witness :
  exists volume,
    @Scene.create_volume Sample.projection
      [Sample.one_pixel_view; Sample.view_at "bg.png" "cb.yml"] = Some volume
    /\ Volume.active_voxel_count volume = 0.
Proof.
  destruct (@blind_view_empties_grid Sample.projection
              [Sample.one_pixel_view; Sample.view_at "bg.png" "cb.yml"]
              (Sample.view_at "bg.png" "cb.yml"))
    as (volume & Hrun & Hcount & _).
  - repeat constructor; simpl; lia.
  - apply list_elem_of_further, list_elem_of_here.
  - intros row col. unfold Mat.at_. cbn [mask Sample.view_at Mat.none Mat.data].
    destruct (_ && _); [rewrite lookup_nil|]; intros Heq; discriminate Heq.
  - exists volume. split; [exact Hrun|exact Hcount].
Defined.

(** * Further properties of calibration *)

Lemma set_calibration_same (v : View) :
  set_calibration (intrinsic v) (distortion v) (rvec v) (tvec v) v = v.
Proof. now destruct v. Qed.

Lemma set_views_same (p : Project) : set_views (views p) p = p.
Proof. now destruct p. Qed.

Section CalibrationMore.
Context `{ColorSpace} `{Glm} `{Calibration}.

(** Reading the file that was written for a view. *)
Lemma read_written_view (vs : list View) (fs : FileSystem) (v v' : View) :
  NoDup (cb_path <$> vs) -> v ∈ vs ->
  cb_path v' = cb_path v -> cb_path v <> EmptyString ->
  Camera.read_view
    (foldl (fun fs view => <[cb_path view := Readable (Camera.record_of view)]> fs)
           fs vs) v'
  = (true, set_calibration (intrinsic v) (distortion v) (rvec v) (tvec v) v').
Proof.
  intros Hnd Hin Hpath Hne. unfold Camera.read_view.
  rewrite Hpath.
  destruct (String.eqb (cb_path v) EmptyString) eqn:Hempty;
    [apply String.eqb_eq in Hempty; contradiction|].
  now rewrite (write_calibration_lookup vs fs v Hnd Hin).
Qed.

(** X10.  Reading back what [write_calibration] wrote.  For a project whose
    views have calibration paths that are not empty and differ from view to
    view, [read_calibration] on the files written from it reports success
    and gives every view of a project with the same paths the four
    calibration matrices of the view of the same index; on the project
    itself it changes nothing.  The files of other paths are untouched by the
    writing. *)
Theorem calibration_files_round_trip (p p' : Project) (fs : FileSystem) :
  NoDup (cb_path <$> views p) ->
  Forall (fun v => cb_path v <> EmptyString) (views p) ->
  cb_path <$> views p' = cb_path <$> views p ->
  (Camera.read_calibration (Camera.write_calibration p fs) p').1 = true
  /\ Camera.record_of <$> views (Camera.read_calibration
                                   (Camera.write_calibration p fs) p').2
     = Camera.record_of <$> views p
  /\ Camera.read_calibration (Camera.write_calibration p fs) p = (true, p)
  /\ forall path,
       path ∉ cb_path <$> views p ->
       Camera.write_calibration p fs !! path = fs !! path.
Proof.
  intros Hnd Hne Hpaths.
  assert (forall q i v',
            cb_path <$> views q = cb_path <$> views p ->
            views q !! i = Some v' ->
            exists v,
              views p !! i = Some v
              /\ Camera.read_view (Camera.write_calibration p fs) v'
                 = (true, set_calibration (intrinsic v) (distortion v) (rvec v)
                            (tvec v) v')) as Hread.
  { intros q i v' Hq Hv'.
    assert ((cb_path <$> views p) !! i = Some (cb_path v')) as Hi
      by (rewrite <- Hq, list_lookup_fmap, Hv'; reflexivity).
    rewrite list_lookup_fmap in Hi.
    destruct (views p !! i) as [v|] eqn:Hv; [|discriminate Hi].
    injection Hi as Hi. exists v. split; [reflexivity|].
    apply read_written_view; [exact Hnd| |congruence|].
    - eapply list_elem_of_lookup_2, Hv.
    - exact (Forall_lookup_1 _ _ _ _ Hne Hv). }
  assert (forall q,
            cb_path <$> views q = cb_path <$> views p ->
            (Camera.read_calibration (Camera.write_calibration p fs) q).1 = true)
    as Hall.
  { intros q Hq. unfold Camera.read_calibration. cbn [fst].
    apply forallb_forall. intros r Hr.
    apply list_elem_of_In, list_elem_of_fmap in Hr as (v' & -> & Hin).
    apply list_elem_of_lookup_1 in Hin as [i Hv'].
    destruct (Hread q i v' Hq Hv') as (v & _ & ->). reflexivity. }
  split; [exact (Hall p' Hpaths)|]. split; [|split].
  - unfold Camera.read_calibration. cbn [snd set_views views].
    apply list_eq. intros i. rewrite !list_lookup_fmap.
    destruct (views p' !! i) as [v'|] eqn:Hv'.
    + destruct (Hread p' i v' Hpaths Hv') as (v & -> & Hrd).
      cbn [fmap option_fmap option_map]. rewrite Hrd. reflexivity.
    + assert ((cb_path <$> views p) !! i = None) as Hi
        by (rewrite <- Hpaths, list_lookup_fmap, Hv'; reflexivity).
      rewrite list_lookup_fmap in Hi.
      destruct (views p !! i); [discriminate Hi|reflexivity].
  - apply injective_projections; [exact (Hall p eq_refl)|].
    unfold Camera.read_calibration. cbn [snd].
    transitivity (set_views (views p) p); [|apply set_views_same]. f_equal.
    apply list_eq. intros i. rewrite !list_lookup_fmap.
    destruct (views p !! i) as [v|] eqn:Hv; [|reflexivity].
    destruct (Hread p i v eq_refl Hv) as (w & Hw & Hrd).
    rewrite Hv in Hw. injection Hw as <-.
    cbn [fmap option_fmap option_map]. rewrite Hrd.
    cbn [snd]. now rewrite set_calibration_same.
  - intros path Hout. now apply write_calibration_other.
Qed.

(** X11.  [read_calibration] reports success exactly when every view has a
    calibration path that is not empty and names a file that exists and that
    [cv::FileStorage] opens.  It keeps the number of the views and their
    paths.  A view whose path is empty, whose file is missing or whose file
    is not opened is left as it was; a view whose file is opened receives the
    four matrices of the file as intrinsic matrix, distortion, rotation and
    translation, and keeps its images and its paths. *)
Theorem read_calibration_reports_missing_files (p : Project) (fs : FileSystem) :
  ((Camera.read_calibration fs p).1 = true
   <-> Forall (fun v => cb_path v <> EmptyString
                        /\ exists r, fs !! cb_path v = Some (Readable r))
              (views p))
  /\ cb_path <$> views (Camera.read_calibration fs p).2 = cb_path <$> views p
  /\ (forall i v,
        views p !! i = Some v ->
        cb_path v = EmptyString \/ fs !! cb_path v = None
        \/ fs !! cb_path v = Some Unreadable ->
        views (Camera.read_calibration fs p).2 !! i = Some v)
  /\ (forall i v r,
        views p !! i = Some v ->
        cb_path v <> EmptyString -> fs !! cb_path v = Some (Readable r) ->
        exists v',
          views (Camera.read_calibration fs p).2 !! i = Some v'
          /\ intrinsic v' = camera_matrix r /\ distortion v' = dist_coeffs r
          /\ rvec v' = rec_rvec r /\ tvec v' = rec_tvec r
          /\ fg v' = fg v /\ bg v' = bg v /\ mask v' = mask v
          /\ bg_path v' = bg_path v /\ fg_path v' = fg_path v
          /\ cb_path v' = cb_path v).
Proof.
  assert (forall v,
            (Camera.read_view fs v).1 = true
            <-> cb_path v <> EmptyString
                /\ exists r, fs !! cb_path v = Some (Readable r)) as Hone.
  { intros v. unfold Camera.read_view.
    destruct (String.eqb (cb_path v) EmptyString) eqn:Hempty.
    - apply String.eqb_eq in Hempty. cbn [fst]. split; [discriminate|].
      intros [Hne _]. contradiction.
    - apply String.eqb_neq in Hempty.
      destruct (fs !! cb_path v) as [[r|]|]; cbn [fst].
      + split; [eauto|reflexivity].
      + split; [discriminate|]. intros [_ [r Hr]]. discriminate Hr.
      + split; [discriminate|]. intros [_ [r Hr]]. discriminate Hr. }
  assert (forall v, cb_path (Camera.read_view fs v).2 = cb_path v) as Hpath.
  { intros v. unfold Camera.read_view.
    destruct (String.eqb _ _); [reflexivity|].
    destruct (fs !! cb_path v) as [[r|]|]; reflexivity. }
  unfold Camera.read_calibration. cbn [fst snd set_views views].
  split; [|split; [|split]].
  - rewrite forallb_forall, Forall_forall. split.
    + intros Hall v Hin. apply Hone.
      apply (Hall (Camera.read_view fs v)).
      apply list_elem_of_In, list_elem_of_fmap. eauto.
    + intros Hall r Hr.
      apply list_elem_of_In, list_elem_of_fmap in Hr as (v & -> & Hin).
      apply Hone, Hall, Hin.
  - rewrite <- !list_fmap_compose. apply list_fmap_ext. intros i v _. apply Hpath.
  - intros i v Hv Hmissing. rewrite !list_lookup_fmap, Hv.
    cbn [fmap option_fmap option_map]. f_equal.
    unfold Camera.read_view. destruct Hmissing as [-> | [Hnone | Hclosed]].
    + reflexivity.
    + destruct (String.eqb _ _); [reflexivity|]. now rewrite Hnone.
    + destruct (String.eqb _ _); [reflexivity|]. now rewrite Hclosed.
  - intros i v r Hv Hne Hfile. rewrite !list_lookup_fmap, Hv.
    cbn [fmap option_fmap option_map]. unfold Camera.read_view.
    apply String.eqb_neq in Hne. rewrite Hne, Hfile. cbn [snd].
    eexists. split; [reflexivity|]. repeat split.
Qed.

Lemma map_outcome_length {A B} (f : A -> outcome B) (xs : list A) (ys : list B) :
  map_outcome f xs = Ok ys -> length ys = length xs.
Proof.
  revert ys. induction xs as [|x xs IH]; intros ys; cbn [map_outcome].
  - intros [= <-]. reflexivity.
  - destruct (f x) as [y| |]; cbn [mbind outcome_bind]; try discriminate.
    destruct (map_outcome f xs) as [ys'| |]; cbn [mbind outcome_bind];
      try discriminate.
    intros [= <-]. cbn [length]. now rewrite (IH ys').
Qed.

Lemma run_calibration_length (project project' : Project) :
  Camera.run_calibration project = Ok project' ->
  length (views project') = length (views project).
Proof.
  intros Hrun. apply run_calibration_paths in Hrun.
  apply (f_equal length) in Hrun. now rewrite !length_fmap in Hrun.
Qed.

Lemma run_calibration_settings (project project' : Project) :
  Camera.run_calibration project = Ok project' ->
  name project' = name project /\ file project' = file project
  /\ dir project' = dir project /\ chess_cols project' = chess_cols project
  /\ chess_rows project' = chess_rows project
  /\ square_size project' = square_size project.
Proof.
  unfold Camera.run_calibration.
  destruct (Camera.preview _ _); simpl; try discriminate.
  destruct (Camera.too_few_detections _ _); [discriminate|].
  destruct (head _); simpl; [|discriminate].
  destruct (calibrateCamera _ _ _) as [[[[k d] rvecs] tvecs]| |]; simpl;
    try discriminate.
  destruct (Camera.save_results _ _ _ _ _ _) as [vs| |]; simpl; try discriminate.
  intros [= <-]. repeat split.
Qed.

(** X12.  What [load_project] leaves behind.  A project that needs no
    calibration never changes the calibration files.  The files change only
    after a calibration run that succeeded, and then they are what
    [write_calibration] makes of its result, also when the later per-view
    calibration throws.  A project that is returned is marked initialised,
    not empty and not in need of calibration, and has as many views and the
    same name, file, directory and chessboard settings as the one given. *)
Theorem load_project_outcomes (project : Project) (fs : FileSystem) :
  (needs_calibration project = false -> (Camera.load_project project fs).2 = fs)
  /\ ((Camera.load_project project fs).2 <> fs ->
      needs_calibration project = true
      /\ exists calibrated,
           Camera.run_calibration project = Ok calibrated
           /\ (Camera.load_project project fs).2
              = Camera.write_calibration calibrated fs)
  /\ forall loaded,
       (Camera.load_project project fs).1 = Ok loaded ->
       empty loaded = false /\ initialized loaded = true
       /\ needs_calibration loaded = false
       /\ length (views loaded) = length (views project)
       /\ name loaded = name project /\ file loaded = file project
       /\ dir loaded = dir project /\ chess_cols loaded = chess_cols project
       /\ chess_rows loaded = chess_rows project
       /\ square_size loaded = square_size project.
Proof.
  assert (forall (q : Project) loaded,
            (vs ← map_outcome Camera.calibrate_view (views q);
             Ok (mark_initialized (set_views vs q))) = Ok loaded ->
            empty loaded = false /\ initialized loaded = true
            /\ needs_calibration loaded = false
            /\ length (views loaded) = length (views q)
            /\ name loaded = name q /\ file loaded = file q
            /\ dir loaded = dir q /\ chess_cols loaded = chess_cols q
            /\ chess_rows loaded = chess_rows q
            /\ square_size loaded = square_size q) as Hfinish.
  { intros q loaded.
    destruct (map_outcome Camera.calibrate_view (views q)) as [vs| |] eqn:Hvs;
      cbn [mbind outcome_bind]; try discriminate.
    intros [= <-]. cbn [mark_initialized set_views empty initialized
                          needs_calibration views name file dir chess_cols
                          chess_rows square_size].
    rewrite (map_outcome_length _ _ _ Hvs). repeat split. }
  unfold Camera.load_project.
  destruct (needs_calibration project) eqn:Hneeds.
  - destruct (Camera.run_calibration project) as [calibrated| |] eqn:Hrun;
      cbn [fst snd].
    + split; [discriminate|]. split; [eauto|].
      intros loaded Hloaded.
      destruct (Hfinish calibrated loaded Hloaded)
        as (He & Hi & Hn & Hlen & Hname & Hfile & Hdir & Hc & Hr & Hs).
      destruct (run_calibration_settings _ _ Hrun)
        as (Hname' & Hfile' & Hdir' & Hc' & Hr' & Hs').
      rewrite (run_calibration_length _ _ Hrun) in Hlen.
      repeat split; congruence.
    + split; [discriminate|]. split; [congruence|]. discriminate.
    + split; [discriminate|]. split; [congruence|]. discriminate.
  - cbn [fst snd]. split; [reflexivity|]. split; [congruence|].
    intros loaded Hloaded.
    destruct (Hfinish _ loaded Hloaded)
      as (He & Hi & Hn & Hlen & Hrest).
    unfold Camera.read_calibration in Hlen, Hrest.
    cbn [snd set_views views name file dir chess_cols chess_rows square_size]
      in Hlen, Hrest.
    rewrite !length_fmap in Hlen. repeat split; tauto.
Qed.

Lemma preview_escape (i : nat) (shots : list (Mask * list Point2f)) :
  Camera.preview i shots = Throw Camera.aborted_by_user
  <-> exists j img pts,
        shots !! j = Some (img, pts) /\ waitKey (i + j) img pts = 27.
Proof.
  revert i. induction shots as [|[img pts] shots IH]; intros i; cbn [Camera.preview].
  - split; [discriminate|]. intros (j & img & pts & Hj & _).
    now rewrite lookup_nil in Hj.
  - destruct (waitKey i img pts =? 27) eqn:Hkey.
    + apply Z.eqb_eq in Hkey. split; [|reflexivity]. intros _.
      exists 0%nat, img, pts. split; [reflexivity|].
      now rewrite Nat.add_0_r.
    + apply Z.eqb_neq in Hkey. rewrite IH. split.
      * intros (j & img' & pts' & Hj & Hesc). exists (S j), img', pts'.
        split; [exact Hj|]. now rewrite Nat.add_succ_r.
      * intros ([|j] & img' & pts' & Hj & Hesc).
        -- injection Hj as <- <-. rewrite Nat.add_0_r in Hesc. contradiction.
        -- exists j, img', pts'. split; [exact Hj|].
           now rewrite Nat.add_succ_r in Hesc.
Qed.

(** X13.  ESC in any of the previews aborts the calibration, whatever the
    number of detections is: [run_calibration] throws the error of the
    abort, nothing is calibrated, and [load_project] on a project that needs
    calibration throws the same error and leaves the files as they were. *)
Theorem escape_aborts_calibration (project : Project) (fs : FileSystem)
    (j : nat) (img : Mask) (pts : list Point2f) :
  Camera.detect_corners (chess_cols project) (chess_rows project) (views project)
    !! j = Some (img, pts) ->
  waitKey j img pts = 27 ->
  Camera.run_calibration project = Throw Camera.aborted_by_user
  /\ (needs_calibration project = true ->
      Camera.load_project project fs = (Throw Camera.aborted_by_user, fs)).
Proof.
  intros Hshot Hesc.
  assert (Camera.run_calibration project = Throw Camera.aborted_by_user) as Hrun.
  { unfold Camera.run_calibration.
    assert (Camera.preview 0 (Camera.detect_corners (chess_cols project)
                                (chess_rows project) (views project))
            = Throw Camera.aborted_by_user) as ->; [|reflexivity].
    apply preview_escape. exists j, img, pts. split; [exact Hshot|exact Hesc]. }
  split; [exact Hrun|].
  intros Hneeds. unfold Camera.load_project. now rewrite Hneeds, Hrun.
Qed.

Lemma detect_corners_app (cols rows : Z) (vs ws : list View) :
  Camera.detect_corners cols rows (vs ++ ws)
  = Camera.detect_corners cols rows vs ++ Camera.detect_corners cols rows ws.
Proof.
  induction vs as [|v vs IH]; [reflexivity|].
  cbn [app Camera.detect_corners].
  destruct (findChessboardCorners _ _ _); [|exact IH].
  cbn [app]. now rewrite IH.
Qed.

Lemma detect_corners_none (cols rows : Z) (vs : list View) :
  Forall (fun v => Camera.detected cols rows v = false) vs ->
  Camera.detect_corners cols rows vs = [].
Proof.
  induction 1 as [|v vs Hv _ IH]; [reflexivity|].
  cbn [Camera.detect_corners]. unfold Camera.detected in Hv.
  destruct (findChessboardCorners _ _ _); [discriminate Hv|exact IH].
Qed.

Lemma detect_corners_all (cols rows : Z) (vs : list View) :
  Forall (fun v => Camera.detected cols rows v = true) vs ->
  forall i v,
    vs !! i = Some v ->
    exists corners,
      findChessboardCorners (imread_grayscale (bg_path v)) rows cols = Some corners
      /\ Camera.detect_corners cols rows vs !! i
         = Some (imread_grayscale (bg_path v),
                 cornerSubPix (imread_grayscale (bg_path v)) corners).
Proof.
  induction 1 as [|w vs Hw _ IH]; intros i v Hv; [now rewrite lookup_nil in Hv|].
  cbn [Camera.detect_corners]. unfold Camera.detected in Hw.
  destruct (findChessboardCorners (imread_grayscale (bg_path w)) rows cols)
    as [corners|] eqn:Hfind; [|discriminate Hw].
  destruct i as [|i].
  - injection Hv as <-. exists corners. split; [exact Hfind|reflexivity].
  - exact (IH i v Hv).
Qed.

(** X14.  When the views in which the chessboard is not found all come
    after those in which it is found, a successful run gives every view its
    own result: the [i]-th image and corner list handed to
    [calibrateCamera] are those of the [i]-th view, that view receives the
    shared camera matrix and distortion and the [i]-th rotation and
    translation, and the views without detection keep all they had. *)
Theorem poses_right_when_failures_come_last
    (project project' : Project) (found lost : list View) :
  views project = found ++ lost ->
  Forall (fun v => Camera.detected (chess_cols project) (chess_rows project) v = true)
         found ->
  Forall (fun v => Camera.detected (chess_cols project) (chess_rows project) v = false)
         lost ->
  Camera.run_calibration project = Ok project' ->
  let shots :=
    Camera.detect_corners (chess_cols project) (chess_rows project) found in
  exists k d rvecs tvecs size,
    calibrateCamera
      (replicate (length shots)
         (Camera.object_template (chess_cols project) (chess_rows project)
                                 (square_size project)))
      shots.*2 size
    = Ok (k, d, rvecs, tvecs)
    /\ (forall i v,
          found !! i = Some v ->
          exists corners r t,
            findChessboardCorners (imread_grayscale (bg_path v))
                                  (chess_rows project) (chess_cols project)
            = Some corners
            /\ shots !! i
               = Some (imread_grayscale (bg_path v),
                       cornerSubPix (imread_grayscale (bg_path v)) corners)
            /\ rvecs !! i = Some r /\ tvecs !! i = Some t
            /\ views project' !! i = Some (set_calibration k d r t v))
    /\ (forall j v,
          lost !! j = Some v ->
          views project' !! (length found + j)%nat = Some v).
Proof.
  intros Hviews Hfound Hlost Hrun shots.
  assert (length shots = length found) as Hlen.
  { unfold shots. rewrite detect_corners_length, filter_all; [reflexivity|].
    exact Hfound. }
  unfold Camera.run_calibration in Hrun.
  rewrite Hviews, detect_corners_app, (detect_corners_none _ _ lost Hlost),
    app_nil_r in Hrun.
  fold shots in Hrun.
  destruct (Camera.preview 0 shots); cbn [mbind outcome_bind] in Hrun;
    try discriminate Hrun.
  destruct (Camera.too_few_detections _ _); [discriminate Hrun|].
  destruct (head shots.*1) as [first|]; cbn [of_option mbind outcome_bind] in Hrun;
    [|discriminate Hrun].
  destruct (calibrateCamera _ _ _) as [[[[k d] rvecs] tvecs]| |] eqn:Hcal;
    cbn [mbind outcome_bind] in Hrun; try discriminate Hrun.
  destruct (Camera.save_results _ _ _ _ _ _) as [vs| |] eqn:Hsave;
    cbn [mbind outcome_bind] in Hrun; try discriminate Hrun.
  injection Hrun as <-. cbn [views set_views].
  exists k, d, rvecs, tvecs, (Mat.cols first, Mat.rows first).
  split; [exact Hcal|].
  pose proof (save_results_seq _ _ _ _ _ _ _ _ Hsave) as Hvs.
  rewrite length_fmap, Hlen in Hvs.
  split.
  - intros i v Hv.
    destruct (detect_corners_all _ _ found Hfound i v Hv) as (corners & Hfind & Hshot).
    exists corners.
    assert (i < length found)%nat as Hi by (eapply lookup_lt_Some, Hv).
    specialize (Hvs i). rewrite decide_True in Hvs by lia.
    rewrite lookup_app_l, Hv in Hvs by exact Hi.
    cbn [mbind option_bind] in Hvs.
    destruct (rvecs !! i) as [r|]; cbn [mbind option_bind] in Hvs;
      [|destruct (lookup_lt_is_Some_2 vs i) as [w Hw];
         [apply save_results_paths in Hsave; apply (f_equal length) in Hsave;
          rewrite !length_fmap, length_app in Hsave; lia|congruence]].
    destruct (tvecs !! i) as [t|]; cbn [mbind option_bind] in Hvs;
      [|destruct (lookup_lt_is_Some_2 vs i) as [w Hw];
         [apply save_results_paths in Hsave; apply (f_equal length) in Hsave;
          rewrite !length_fmap, length_app in Hsave; lia|congruence]].
    exists r, t. split; [exact Hfind|]. split; [exact Hshot|].
    split; [reflexivity|]. split; [reflexivity|exact Hvs].
  - intros j v Hv. rewrite (Hvs (length found + j)%nat).
    rewrite decide_False by lia.
    rewrite lookup_app_r by lia.
    now replace (length found + j - length found)%nat with j by lia.
Qed.

Lemma save_results_defined k d rvecs tvecs (a n : nat) (vs : list View) :
  (a + n <= length vs)%nat -> (a + n <= length rvecs)%nat ->
  (a + n <= length tvecs)%nat ->
  exists vs', Camera.save_results k d rvecs tvecs (seq a n) vs = Ok vs'.
Proof.
  revert a vs. induction n as [|n IH]; intros a vs Hvs Hr Ht;
    cbn [seq Camera.save_results]; [eauto|].
  unfold Camera.save_result.
  destruct (lookup_lt_is_Some_2 vs a) as [v ->]; [lia|].
  destruct (lookup_lt_is_Some_2 rvecs a) as [r ->]; [lia|].
  destruct (lookup_lt_is_Some_2 tvecs a) as [t ->]; [lia|].
  cbn [mbind outcome_bind]. apply IH; [rewrite length_insert|..]; lia.
Qed.

(** X15.  The undefined behaviour of [run_calibration].  When
    [calibrateCamera] returns one rotation and one translation for every
    image it is given, the run reads outside a vector exactly when the
    project has no views (it then reads [images[0]] of an empty vector).
    With views, a run without ESC, with detections in at least three
    quarters of the views and a calibration that does not throw returns a
    project. *)
Theorem run_calibration_defined (project : Project) :
  (forall objs imgs size k d rvecs tvecs,
     calibrateCamera objs imgs size = Ok (k, d, rvecs, tvecs) ->
     length rvecs = length imgs /\ length tvecs = length imgs) ->
  (forall objs imgs size, calibrateCamera objs imgs size <> Undefined) ->
  let shots :=
    Camera.detect_corners (chess_cols project) (chess_rows project)
                          (views project) in
  (Camera.run_calibration project = Undefined <-> views project = [])
  /\ (views project <> [] ->
      Camera.preview 0 shots = Ok () ->
      3 * Z.of_nat (length (views project)) <= 4 * Z.of_nat (length shots) ->
      (forall objs size msg, calibrateCamera objs shots.*2 size <> Throw msg) ->
      exists project', Camera.run_calibration project = Ok project').
Proof.
  intros Hposes Hdefined shots.
  assert (length shots <= length (views project))%nat as Hle.
  { unfold shots. rewrite detect_corners_length. apply length_filter. }
  assert (views project <> [] ->
          Camera.too_few_detections (length shots.*1) (length (views project)) = false ->
          exists first, head shots.*1 = Some first) as Hfirst.
  { intros Hviews Henough. unfold Camera.too_few_detections in Henough.
    apply Z.ltb_ge in Henough. rewrite length_fmap in Henough.
    destruct shots as [|[img pts] shots']; [|cbn; eauto].
    destruct (views project); [contradiction|]. cbn [length] in Henough. lia. }
  assert (forall k d rvecs tvecs size,
            calibrateCamera
              (replicate (length shots)
                 (Camera.object_template (chess_cols project) (chess_rows project)
                                         (square_size project)))
              shots.*2 size = Ok (k, d, rvecs, tvecs) ->
            exists vs,
              Camera.save_results k d rvecs tvecs (seq 0 (length shots.*1))
                                  (views project) = Ok vs) as Hsave.
  { intros k d rvecs tvecs size Hcal.
    destruct (Hposes _ _ _ _ _ _ _ Hcal) as [Hr Ht].
    rewrite length_fmap in Hr, Ht. rewrite length_fmap.
    apply save_results_defined; lia. }
  split; [split|].
  - intros Hrun.
    destruct (decide (views project = [])) as [Hviews|Hviews]; [exact Hviews|].
    exfalso. unfold Camera.run_calibration in Hrun.
    cbv zeta in Hrun. fold shots in Hrun.
    destruct (preview_outcome 0 shots) as [Hp | Hp]; rewrite Hp in Hrun;
      cbn [mbind outcome_bind] in Hrun; [|discriminate Hrun].
    destruct (Camera.too_few_detections _ _) eqn:Henough; [discriminate Hrun|].
    destruct (Hfirst Hviews eq_refl) as [first Hhead].
    rewrite Hhead in Hrun. cbn [of_option mbind outcome_bind] in Hrun.
    rewrite length_fmap in Hrun.
    destruct (calibrateCamera _ _ _) as [[[[k d] rvecs] tvecs]| |] eqn:Hcal;
      cbn [mbind outcome_bind] in Hrun; [|discriminate Hrun|].
    + destruct (Hsave _ _ _ _ _ Hcal) as [vs' Hvs'].
      rewrite length_fmap in Hvs'. rewrite Hvs' in Hrun.
      cbn [mbind outcome_bind] in Hrun. discriminate Hrun.
    + exact (Hdefined _ _ _ Hcal).
  - intros Hviews. unfold Camera.run_calibration. rewrite Hviews. reflexivity.
  - intros Hviews Hp Henough Hthrow.
    unfold Camera.run_calibration. cbv zeta. fold shots. rewrite Hp.
    cbn [mbind outcome_bind].
    assert (Camera.too_few_detections (length shots.*1) (length (views project))
            = false) as Htoo.
    { unfold Camera.too_few_detections. apply Z.ltb_ge. rewrite length_fmap. lia. }
    rewrite Htoo.
    destruct (Hfirst Hviews Htoo) as [first ->].
    cbn [of_option mbind outcome_bind]. rewrite length_fmap.
    destruct (calibrateCamera _ _ _) as [[[[k d] rvecs] tvecs]| |] eqn:Hcal.
    + destruct (Hsave _ _ _ _ _ Hcal) as [vs' Hvs'].
      rewrite length_fmap in Hvs'.
      cbn [mbind outcome_bind]. rewrite Hvs'. cbn [mbind outcome_bind]. eauto.
    + exfalso. exact (Hthrow _ _ _ Hcal).
    + exfalso. exact (Hdefined _ _ _ Hcal).
Qed.

End CalibrationMore.

Lemma calibration_files_round_trip_witness :
  (Camera.read_calibration (Camera.write_calibration Sample.last_view_fails ∅)
                           Sample.one_board).1 = true
  /\ Camera.read_calibration (Camera.write_calibration Sample.last_view_fails ∅)
                             Sample.last_view_fails
     = (true, Sample.last_view_fails).
Proof.
  destruct (calibration_files_round_trip Sample.last_view_fails Sample.one_board ∅)
    as (Hall & _ & Hsame & _).
  - apply (bool_decide_unpack _); vm_compute; exact I.
  - apply (bool_decide_unpack _); vm_compute; exact I.
  - reflexivity.
  - split; [exact Hall|exact Hsame].
Defined.

Lemma escape_aborts_calibration_witness :
  @Camera.run_calibration Sample.escaping Sample.last_view_fails
  = Throw Camera.aborted_by_user.
Proof.
  eapply (@escape_aborts_calibration Sample.color_space Sample.glm Sample.escaping
            Sample.last_view_fails ∅ 1%nat).
  - reflexivity.
  - reflexivity.
Defined.

Lemma poses_right_when_failures_come_last_witness :
  exists project',
    @Camera.run_calibration Sample.calibration Sample.last_view_fails = Ok project'
    /\ views project' !! 3%nat = Some (Sample.view_at "empty.png" "cb4.yml").
Proof.
  eexists. split; [vm_compute; reflexivity|].
  destruct (@poses_right_when_failures_come_last Sample.calibration
              Sample.last_view_fails _
              [Sample.view_at "board1.png" "cb1.yml";
               Sample.view_at "board22.png" "cb2.yml";
               Sample.view_at "board333.png" "cb3.yml"]
              [Sample.view_at "empty.png" "cb4.yml"]
              eq_refl
              ltac:(repeat constructor) ltac:(repeat constructor) eq_refl)
    as (k & d & rvecs & tvecs & size & _ & _ & Hlost).
  exact (Hlost 0%nat _ eq_refl).
Defined.

Lemma run_calibration_defined_witness :
  @Camera.run_calibration Sample.calibration Sample.last_view_fails = Undefined
  <-> views Sample.last_view_fails = [].
Proof.
  apply (@run_calibration_defined Sample.calibration Sample.last_view_fails).
  - intros objs imgs size k d rvecs tvecs Hcal.
    injection Hcal as _ _ <- <-. rewrite length_fmap. split; reflexivity.
  - intros objs imgs size Hcal. discriminate Hcal.
Defined.

(** * Further properties of the projection matrix *)

Lemma guess_resolution_step (cx cy : F64.t) (rs : list (Z * Z))
    (st : F64.t * F64.t * F64.t) (P : F64.t * F64.t * F64.t -> Prop) :
  P st ->
  (forall e r,
     r ∈ rs ->
     F64.ltb cx (F64.of_int r.1) = true -> F64.ltb cy (F64.of_int r.2) = true ->
     P (e, F64.of_int r.1, F64.of_int r.2)) ->
  P (foldl (fun st r =>
              let '(best_err, calib_w, calib_h) := st in
              if F64.ltb cx (F64.of_int r.1) && F64.ltb cy (F64.of_int r.2) then
                let hx := F64.div (F64.of_int r.1) F64.two in
                let hy := F64.div (F64.of_int r.2) F64.two in
                let err := F64.add (F64.div (F64.abs (F64.sub cx hx)) hx)
                                   (F64.div (F64.abs (F64.sub cy hy)) hy) in
                if F64.ltb err best_err
                then (err, F64.of_int r.1, F64.of_int r.2)
                else st
              else st) st rs).
Proof.
  revert st. induction rs as [|r rs IH]; intros st Hst Hstep; [exact Hst|].
  cbn [foldl]. apply IH.
  - destruct st as [[best_err calib_w] calib_h].
    destruct (F64.ltb cx (F64.of_int r.1)) eqn:Hx; [|exact Hst].
    destruct (F64.ltb cy (F64.of_int r.2)) eqn:Hy; [|exact Hst].
    cbn [andb]. cbv zeta. destruct (F64.ltb _ best_err); [|exact Hst].
    apply Hstep; [apply list_elem_of_here|exact Hx|exact Hy].
  - intros e r' Hin. apply Hstep. now apply list_elem_of_further.
Qed.

(** X17.  The resolution that [calc_proj] takes for the calibration images.
    It is one of the six common resolutions, and then one that exceeds the
    principal point in both coordinates, or else twice the principal point;
    it is twice the principal point when no common resolution exceeds the
    principal point in both coordinates; and for a principal point at the
    exact centre of a common resolution it is that resolution, with error
    zero. *)
Theorem guess_resolution_candidates (cx cy : F64.t) :
  ((Camera.guess_resolution cx cy).2 = F64.mul cy F64.two
   /\ (Camera.guess_resolution cx cy).1.2 = F64.mul cx F64.two
   \/ exists r,
        r ∈ Camera.common_res
        /\ F64.ltb cx (F64.of_int r.1) = true /\ F64.ltb cy (F64.of_int r.2) = true
        /\ (Camera.guess_resolution cx cy).1.2 = F64.of_int r.1
        /\ (Camera.guess_resolution cx cy).2 = F64.of_int r.2)
  /\ ((forall r, r ∈ Camera.common_res ->
         F64.ltb cx (F64.of_int r.1) && F64.ltb cy (F64.of_int r.2) = false) ->
      Camera.guess_resolution cx cy
      = (F64.max_value, F64.mul cx F64.two, F64.mul cy F64.two))
  /\ forall r,
       r ∈ Camera.common_res ->
       Camera.guess_resolution (F64.div (F64.of_int r.1) F64.two)
                               (F64.div (F64.of_int r.2) F64.two)
       = (F64.zero, F64.of_int r.1, F64.of_int r.2).
Proof.
  split; [|split].
  - unfold Camera.guess_resolution.
    apply (guess_resolution_step cx cy Camera.common_res _
             (fun st =>
                st.2 = F64.mul cy F64.two /\ st.1.2 = F64.mul cx F64.two
                \/ exists r,
                     r ∈ Camera.common_res
                     /\ F64.ltb cx (F64.of_int r.1) = true
                     /\ F64.ltb cy (F64.of_int r.2) = true
                     /\ st.1.2 = F64.of_int r.1 /\ st.2 = F64.of_int r.2)).
    + left. split; reflexivity.
    + intros e r Hin Hx Hy. right. exists r. repeat split; assumption.
  - intros Hnone. unfold Camera.guess_resolution.
    generalize (F64.max_value, F64.mul cx F64.two, F64.mul cy F64.two).
    induction Camera.common_res as [|r rs IH]; intros st; [reflexivity|].
    cbn [foldl]. destruct st as [[best_err calib_w] calib_h].
    rewrite (Hnone r) by apply list_elem_of_here.
    apply IH. intros r' Hin. apply Hnone. now apply list_elem_of_further.
  - apply Forall_forall.
    apply (bool_decide_unpack _). vm_compute. exact I.
Qed.

Section ProjectionMore.
Context `{Glm}.

(** X16.  For an intrinsic matrix of at least three rows and three
    columns that holds as many numbers as its size says, [calc_proj] reads
    inside the matrix and returns a matrix of the shape of a perspective
    projection: the third column ends in -1, the entries for depth are those
    of the near and far planes, and only the two scale factors and the two
    offsets of the principal point depend on the calibration. *)
Theorem calc_proj_from_calibration (intrinsic : Mat.t F64.t)
    (width height near_plane far_plane : F32.t) :
  Mat.wf intrinsic -> 3 <= Mat.rows intrinsic -> 3 <= Mat.cols intrinsic ->
  exists scale_x scale_y offset_x offset_y,
    Camera.calc_proj intrinsic width height near_plane far_plane
    = Some [scale_x; F32.zero; F32.zero; F32.zero;
            F32.zero; scale_y; F32.zero; F32.zero;
            offset_x; offset_y;
            F32.div (F32.neg (F32.add far_plane near_plane))
                    (F32.sub far_plane near_plane);
            F32.neg F32.one;
            F32.zero; F32.zero;
            F32.div (F32.mul (F32.mul (F32.neg F32.two) far_plane) near_plane)
                    (F32.sub far_plane near_plane);
            F32.zero].
Proof.
  intros (Hr & Hc & Hlen) Hrows Hcols. unfold Camera.calc_proj.
  assert (Mat.empty intrinsic || (Mat.rows intrinsic <? 3)
          || (Mat.cols intrinsic <? 3) = false) as ->.
  { unfold Mat.empty. destruct (Mat.data intrinsic) as [|x l].
    - cbn [length] in Hlen. nia.
    - rewrite !orb_false_iff, Z.eqb_neq, !Z.ltb_ge. nia. }
  unfold Mat.at_.
  change ((0 <=? 0) && (0 <=? 0)) with true.
  change ((0 <=? 1) && (0 <=? 1)) with true.
  change ((0 <=? 0) && (0 <=? 2)) with true.
  change ((0 <=? 1) && (0 <=? 2)) with true.
  cbv iota.
  destruct (lookup_lt_is_Some_2 (Mat.data intrinsic)
              (Z.to_nat (0 * Mat.cols intrinsic + 0))) as [fx ->]; [nia|].
  destruct (lookup_lt_is_Some_2 (Mat.data intrinsic)
              (Z.to_nat (1 * Mat.cols intrinsic + 1))) as [fy ->]; [nia|].
  destruct (lookup_lt_is_Some_2 (Mat.data intrinsic)
              (Z.to_nat (0 * Mat.cols intrinsic + 2))) as [cx ->]; [nia|].
  destruct (lookup_lt_is_Some_2 (Mat.data intrinsic)
              (Z.to_nat (1 * Mat.cols intrinsic + 2))) as [cy ->]; [nia|].
  cbn [mbind option_bind].
  destruct (Camera.guess_resolution cx cy) as [[best_err calib_w] calib_h].
  do 4 eexists. reflexivity.
Qed.

End ProjectionMore.

Lemma calc_proj_from_calibration_witness :
  exists scale_x scale_y offset_x offset_y,
    @Camera.calc_proj Sample.glm Sample.shared_intrinsic
      (F32.of_int VIEW_WIDTH) (F32.of_int VIEW_HEIGHT) DEFAULT_NEAR DEFAULT_FAR
    = Some [scale_x; F32.zero; F32.zero; F32.zero;
            F32.zero; scale_y; F32.zero; F32.zero;
            offset_x; offset_y;
            F32.div (F32.neg (F32.add DEFAULT_FAR DEFAULT_NEAR))
                    (F32.sub DEFAULT_FAR DEFAULT_NEAR);
            F32.neg F32.one;
            F32.zero; F32.zero;
            F32.div (F32.mul (F32.mul (F32.neg F32.two) DEFAULT_FAR) DEFAULT_NEAR)
                    (F32.sub DEFAULT_FAR DEFAULT_NEAR);
            F32.zero].
Proof.
  apply (@calc_proj_from_calibration Sample.glm Sample.shared_intrinsic).
  - unfold Mat.wf. simpl. lia.
  - simpl. lia.
  - simpl. lia.
Defined.

(** * Further properties of mask extraction *)

Lemma zip_with_comm {A B} (f : A -> A -> B) (l k : list A) :
  (forall x y, f x y = f y x) -> zip_with f l k = zip_with f k l.
Proof.
  intros Hf. revert k. induction l as [|x l IH]; intros [|y k]; try reflexivity.
  cbn [zip_with]. now rewrite Hf, IH.
Qed.

Lemma absdiff_comm (a b : Mask) : Cv.absdiff a b = Cv.absdiff b a.
Proof.
  unfold Cv.absdiff, Cv.binary_op, Mat.same_size.
  rewrite (Z.eqb_sym (Mat.rows b)), (Z.eqb_sym (Mat.cols b)).
  destruct (Mat.rows a =? Mat.rows b) eqn:Hr; [|reflexivity].
  destruct (Mat.cols a =? Mat.cols b) eqn:Hc; [|reflexivity].
  apply Z.eqb_eq in Hr, Hc. cbn [andb]. rewrite Hr, Hc. do 2 f_equal.
  apply zip_with_comm. intros x y. lia.
Qed.

Lemma foldr_min_full (l : list Z) :
  Forall (fun p => p = 255) l -> foldr Z.min 255 l = 255.
Proof. induction 1 as [|p l Hp _ IH]; cbn [foldr]; lia. Qed.

Lemma foldr_max_full (l : list Z) :
  Forall (fun p => p = 255) l -> l <> [] -> foldr Z.max 0 l = 255.
Proof.
  induction 1 as [|p l Hp Hl IH]; [congruence|]. intros _. cbn [foldr]. subst p.
  destruct l as [|q l]; [reflexivity|]. rewrite IH by discriminate. reflexivity.
Qed.

Lemma foldr_min_has_zero (l : list Z) :
  Forall (fun p => p = 0 \/ p = 255) l -> 0 ∈ l -> foldr Z.min 255 l = 0.
Proof.
  induction 1 as [|p l Hp Hl IH]; intros Hin; [now apply elem_of_nil in Hin|].
  cbn [foldr]. pose proof (foldr_min_binary l Hl) as Hrest.
  apply elem_of_cons in Hin as [<- | Hin]; [lia|].
  rewrite (IH Hin). lia.
Qed.

Section MaskMore.
Context `{ColorSpace}.

Lemma erosion_full (offsets : list (Z * Z)) (src : Mask) :
  Forall (fun p => p = 255) (Mat.data src) ->
  Forall (fun p => p = 255) (Mat.data (MaskSpec.erosion offsets src)).
Proof.
  intros Hsrc. apply init_Forall. intros y x.
  now apply foldr_min_full, neighbours_Forall.
Qed.

Lemma dilation_full (offsets : list (Z * Z)) (src : Mask) :
  Mat.wf src -> (0, 0) ∈ offsets ->
  Forall (fun p => p = 255) (Mat.data src) ->
  Forall (fun p => p = 255) (Mat.data (MaskSpec.dilation offsets src)).
Proof.
  intros Hwf Hcentre Hsrc.
  apply init_Forall_inside; [apply Hwf|]. intros y x Hy Hx.
  apply foldr_max_full; [now apply neighbours_Forall|].
  destruct (pixel_inside src y x Hwf Hy Hx) as [p Hp].
  assert (p ∈ MaskSpec.neighbours offsets src y x) as Hin.
  { apply list_elem_of_omap. exists (0, 0). split; [exact Hcentre|].
    cbn [fst snd]. now rewrite !Z.add_0_r. }
  intros Hnil. rewrite Hnil in Hin. now apply elem_of_nil in Hin.
Qed.

Lemma raw_mask_wf (fg_img bg_img : Image) :
  Mat.wf fg_img -> Mat.wf bg_img -> Mat.same_size fg_img bg_img = true ->
  Mat.wf (MaskSpec.raw_mask fg_img bg_img).
Proof.
  intros (Hr & Hc & Hlen) (_ & _ & Hlen') Hsize.
  unfold Mat.same_size in Hsize.
  apply andb_true_iff in Hsize as [Hrows Hcols].
  apply Z.eqb_eq in Hrows, Hcols.
  unfold MaskSpec.raw_mask, Mat.wf. cbn [Mat.rows Mat.cols Mat.data].
  rewrite length_zip_with. split; [exact Hr|]. split; [exact Hc|]. nia.
Qed.

(** X18.  On images of three 8-bit channels, which are the images that the
    type [Image] holds, [calc_mask] returns a mask exactly when both images
    are not empty and have the same number of rows and of columns; otherwise
    it throws.  It never reads outside an image.  Images of another depth or
    number of channels, which [cv::cvtColor] may refuse, are no values of
    [Image] and are outside of this statement. *)
Theorem calc_mask_rejects_bad_input (fg_img bg_img : Image) :
  is_Ok (Camera.calc_mask fg_img bg_img)
  = negb (Mat.empty fg_img) && negb (Mat.empty bg_img)
    && Mat.same_size fg_img bg_img
  /\ is_Throw (Camera.calc_mask fg_img bg_img)
     = negb (is_Ok (Camera.calc_mask fg_img bg_img)).
Proof.
  destruct (Mat.empty fg_img) eqn:Hfg;
    [unfold Camera.calc_mask, Cv.cvtColor_BGR2HSV; rewrite Hfg; split; reflexivity|].
  destruct (Mat.empty bg_img) eqn:Hbg;
    [unfold Camera.calc_mask, Cv.cvtColor_BGR2HSV; rewrite Hfg, Hbg;
     split; reflexivity|].
  destruct (Mat.same_size fg_img bg_img) eqn:Hsize.
  - rewrite (calc_mask_spec fg_img bg_img Hfg Hbg Hsize). split; reflexivity.
  - assert (exists msg, Camera.calc_mask fg_img bg_img = Throw msg) as [msg ->];
      [|split; reflexivity].
    unfold Camera.calc_mask, Cv.cvtColor_BGR2HSV. rewrite Hfg, Hbg.
    cbn [mbind outcome_bind]. unfold Cv.split. cbn beta iota zeta.
    unfold Cv.absdiff, Cv.binary_op.
    unfold Mat.same_size in Hsize |- *. cbn [Mat.rows Mat.cols].
    rewrite Hsize. cbn [mbind outcome_bind]. eauto.
Qed.

(** X19.  The mask does not depend on which of the two images is taken as
    foreground: exchanging them gives the same result, also when the result
    is an exception. *)
Theorem calc_mask_symmetric (fg_img bg_img : Image) :
  Camera.calc_mask fg_img bg_img = Camera.calc_mask bg_img fg_img.
Proof.
  unfold Camera.calc_mask, Cv.cvtColor_BGR2HSV.
  destruct (Mat.empty fg_img), (Mat.empty bg_img); try reflexivity.
  cbn [mbind outcome_bind]. unfold Cv.split. cbn beta iota zeta.
  rewrite (absdiff_comm
             (Mat.Mk (Mat.rows (Mat.Mk (Mat.rows fg_img) (Mat.cols fg_img)
                                       (bgr2hsv <$> Mat.data fg_img))) _
                     ((fun p => p.1.1) <$> _))).
  rewrite (absdiff_comm
             (Mat.Mk (Mat.rows (Mat.Mk (Mat.rows fg_img) (Mat.cols fg_img)
                                       (bgr2hsv <$> Mat.data fg_img))) _
                     ((fun p => p.1.2) <$> _))).
  rewrite (absdiff_comm
             (Mat.Mk (Mat.rows (Mat.Mk (Mat.rows fg_img) (Mat.cols fg_img)
                                       (bgr2hsv <$> Mat.data fg_img))) _
                     ((fun p => p.2) <$> _))).
  reflexivity.
Qed.

(** X20.  When every pixel of the foreground image passes the threshold
    test against the background, the mask is fully on, up to the border:
    the clean-up takes nothing away at the edges of the image. *)
Theorem all_different_full_mask (fg_img bg_img : Image) :
  Mat.wf fg_img -> Mat.wf bg_img ->
  Mat.empty fg_img = false -> Mat.empty bg_img = false ->
  Mat.same_size fg_img bg_img = true ->
  Forall (fun p => p = 255) (Mat.data (MaskSpec.raw_mask fg_img bg_img)) ->
  exists m : Mask,
    Camera.calc_mask fg_img bg_img = Ok m
    /\ Mat.rows m = Mat.rows fg_img /\ Mat.cols m = Mat.cols fg_img
    /\ Mat.wf m
    /\ Forall (fun p => p = 255) (Mat.data m).
Proof.
  intros Hwf Hwf' Hfg Hbg Hsize Hraw. exists (MaskSpec.calc_mask fg_img bg_img).
  split; [now apply calc_mask_spec|].
  destruct (calc_mask_spec_shape fg_img bg_img Hwf) as (Hr & Hc & Hm).
  split; [exact Hr|]. split; [exact Hc|]. split; [exact Hm|].
  pose proof Hwf as (Hrows & Hcols & _).
  assert ((0, 0) ∈ MaskSpec.cross5) as Hcross
    by (apply (bool_decide_unpack _); vm_compute; exact I).
  unfold MaskSpec.calc_mask.
  apply erosion_full, dilation_full; [now apply init_wf|exact Hcross|].
  apply dilation_full; [now apply init_wf|exact Hcross|].
  apply erosion_full, Hraw.
Qed.

(** X21.  Differences that are thinner than the 3x3 square are removed:
    when every pixel of the image has, among itself and its neighbours
    inside the image, one that fails the threshold test, the mask is fully
    off. *)
Theorem thin_differences_removed (fg_img bg_img : Image) :
  Mat.wf fg_img -> Mat.wf bg_img ->
  Mat.empty fg_img = false -> Mat.empty bg_img = false ->
  Mat.same_size fg_img bg_img = true ->
  (forall y x,
     0 <= y < Mat.rows fg_img -> 0 <= x < Mat.cols fg_img ->
     exists d,
       d ∈ MaskSpec.square3
       /\ MaskSpec.pixel (MaskSpec.raw_mask fg_img bg_img) (y + d.1) (x + d.2)
          = Some 0) ->
  exists m : Mask,
    Camera.calc_mask fg_img bg_img = Ok m
    /\ Mat.rows m = Mat.rows fg_img /\ Mat.cols m = Mat.cols fg_img
    /\ Mat.wf m
    /\ Forall (fun p => p = 0) (Mat.data m).
Proof.
  intros Hwf Hwf' Hfg Hbg Hsize Hthin. exists (MaskSpec.calc_mask fg_img bg_img).
  split; [now apply calc_mask_spec|].
  destruct (calc_mask_spec_shape fg_img bg_img Hwf) as (Hr & Hc & Hm).
  split; [exact Hr|]. split; [exact Hc|]. split; [exact Hm|].
  pose proof Hwf as (Hrows & Hcols & _).
  assert ((0, 0) ∈ MaskSpec.square3) as Hsquare
    by (apply (bool_decide_unpack _); vm_compute; exact I).
  unfold MaskSpec.calc_mask.
  apply erosion_zero; [now apply init_wf|exact Hsquare|].
  apply dilation_zero, dilation_zero.
  apply init_Forall_inside; [exact Hcols|]. intros y x Hy Hx.
  apply foldr_min_has_zero.
  - apply neighbours_Forall, raw_mask_binary.
  - destruct (Hthin y x Hy Hx) as (d & Hd & Hzero).
    apply list_elem_of_omap. exists d. split; [exact Hd|exact Hzero].
Qed.

End MaskMore.

Lemma all_different_full_mask_witness :
  exists m : Mask,
    @Camera.calc_mask Sample.color_space Sample.bright_image Sample.dark_image = Ok m
    /\ Mat.rows m = 2 /\ Mat.cols m = 2
    /\ Mat.wf m
    /\ Forall (fun p => p = 255) (Mat.data m).
Proof.
  apply (@all_different_full_mask Sample.color_space
           Sample.bright_image Sample.dark_image).
  - unfold Mat.wf. simpl. lia.
  - unfold Mat.wf. simpl. lia.
  - reflexivity.
  - reflexivity.
  - reflexivity.
  - apply (bool_decide_unpack _). vm_compute. exact I.
Defined.

Lemma thin_differences_removed_witness :
  exists m : Mask,
    @Camera.calc_mask Sample.color_space
      (Mat.Mk 1 2 [(10, 20, 90); (10, 20, 30)])
      (Mat.Mk 1 2 [(10, 20, 30); (10, 20, 30)]) = Ok m
    /\ Mat.rows m = 1 /\ Mat.cols m = 2
    /\ Mat.wf m
    /\ Forall (fun p => p = 0) (Mat.data m).
Proof.
  apply (@thin_differences_removed Sample.color_space
           (Mat.Mk 1 2 [(10, 20, 90); (10, 20, 30)])
           (Mat.Mk 1 2 [(10, 20, 30); (10, 20, 30)])).
  - unfold Mat.wf. simpl. lia.
  - unfold Mat.wf. simpl. lia.
  - reflexivity.
  - reflexivity.
  - reflexivity.
  - intros y x Hy Hx. cbn [Mat.rows Mat.cols] in Hy, Hx.
    assert (y = 0) as -> by lia.
    assert (x = 0 \/ x = 1) as [-> | ->] by lia.
    + exists (0, 1). split; [|reflexivity].
      apply (bool_decide_unpack _). vm_compute. exact I.
    + exists (0, 0). split; [|reflexivity].
      apply (bool_decide_unpack _). vm_compute. exact I.
Defined.

(** * Further properties of the shapes of the voxel grid *)

(** A loop over the cells that rewrites the voxel of every cell by a
    function of the cell. *)
Lemma grid_key_update_lookup (w h d : Z) (g : Z * Z * Z -> Voxel -> Voxel)
    (l : list Voxel) (x y z : Z) :
  (forall vx, g (x, y, z) (g (x, y, z) vx) = g (x, y, z) vx) ->
  0 <= x < w -> 0 <= y < h -> 0 <= z < d ->
  foldl (fun l k => alter (g k) (Z.to_nat (cell w h k.1.1 k.1.2 k.2)) l)
        l (grid_keys w h d) !! Z.to_nat (cell w h x y z)
  = g (x, y, z) <$> l !! Z.to_nat (cell w h x y z).
Proof.
  intros Hg Hx Hy Hz.
  pose proof (cell_bounds w h d x y z Hx Hy Hz) as (_ & _ & _ & Hc).
  rewrite (foldl_alter_key_lookup
             (fun k => Z.to_nat (cell w h k.1.1 k.1.2 k.2)) g _ _ _ (x, y, z) Hg).
  - assert (existsb (fun k => bool_decide
              (Z.to_nat (cell w h k.1.1 k.1.2 k.2) = Z.to_nat (cell w h x y z)))
              (grid_keys w h d) = true) as ->; [|reflexivity].
    apply existsb_index. exists (x, y, z). split; [|reflexivity].
    apply elem_of_grid_keys. lia.
  - intros [[x' y'] z'] Hin Hix.
    apply elem_of_grid_keys in Hin as (Hx' & Hy' & Hz'). cbn [fst snd] in Hix.
    pose proof (cell_bounds w h d x' y' z' Hx' Hy' Hz') as (_ & _ & _ & Hc').
    apply Z2Nat.inj in Hix; [|lia|lia].
    apply cell_inj in Hix as (-> & -> & ->); [reflexivity|lia..].
Qed.

Lemma sphere_voxel_idem (radius : F32.t) (c : vec4) (d2 : F32.t) (vx : Voxel) :
  Volume.sphere_voxel radius c d2 (Volume.sphere_voxel radius c d2 vx)
  = Volume.sphere_voxel radius c d2 vx.
Proof. reflexivity. Qed.

(** Every voxel of the grid after [fill_sphere]. *)
Lemma fill_sphere_voxels (center : vec3) (radius : F32.t) (c : vec4) (v : Volume.t) :
  Volume.wf v ->
  exists v',
    Volume.fill_sphere center radius c v = Some v' /\ same_shape v v'
    /\ forall x y z,
         Volume.is_valid_coordinate v x y z = true ->
         Volume.get_voxel v' x y z
         = if F32.leb (Volume.distance_squared center (Volume.voxel_to_world v x y z))
                      (F32.mul radius radius)
           then Volume.sphere_voxel radius c
                  (Volume.distance_squared center (Volume.voxel_to_world v x y z))
                <$> Volume.get_voxel v x y z
           else Volume.get_voxel v x y z.
Proof.
  intros Hwf. unfold Volume.fill_sphere. cbv zeta.
  set (g := fun k : Z * Z * Z =>
              if F32.leb (Volume.distance_squared center
                            (Volume.voxel_to_world v k.1.1 k.1.2 k.2))
                         (F32.mul radius radius)
              then Volume.sphere_voxel radius c
                     (Volume.distance_squared center
                        (Volume.voxel_to_world v k.1.1 k.1.2 k.2))
              else fun vx => vx).
  destruct (grid_loop v
    (fun x y z v1 =>
       if F32.leb (Volume.distance_squared center (Volume.voxel_to_world v1 x y z))
                  (F32.mul radius radius)
       then l ← vec_upd (Volume.voxels_ v1) (Volume.get_index v1 x y z)
                  (Volume.sphere_voxel radius c
                     (Volume.distance_squared center (Volume.voxel_to_world v1 x y z)));
            Some (Volume.with_voxels l (Volume.gpu_data_dirty_ v1)
                    (Volume.volume_texture_dirty_ v1) v1)
       else Some v1)
    (fun k l =>
       alter (g k)
             (Z.to_nat (cell (Volume.width_ v) (Volume.height_ v) k.1.1 k.1.2 k.2)) l))
    as (v' & Hrun & Hshape & Hvoxels).
  { intros x y z v1 Hx Hy Hz Hv1.
    destruct (same_shape_index v v1 x y z Hv1) as (Hix & _ & ->).
    unfold g. cbn [fst snd].
    destruct (F32.leb _ _).
    - assert (Volume.is_valid_coordinate v x y z = true) as Hvalid
        by (apply valid_coordinate; lia).
      destruct (get_index_cell v x y z Hwf Hvalid) as [Hcell Hlt].
      rewrite Hix, vec_upd_alter by (destruct Hv1 as (_ & _ & _ & _ & ->); exact Hlt).
      red_grid. eexists. split; [reflexivity|]. split.
      + eapply same_shape_trans; [exact Hv1|].
        apply same_shape_with_voxels, length_alter.
      + red_grid. now rewrite Hcell.
    - exists v1. split; [reflexivity|]. split; [exact Hv1|].
      symmetry. now apply list_alter_id. }
  rewrite Hrun. red_grid.
  set (vf := Volume.with_voxels (Volume.voxels_ v') true true v').
  assert (same_shape v vf) as Hvf.
  { eapply same_shape_trans; [exact Hshape|]. now apply same_shape_with_voxels. }
  exists vf. split; [reflexivity|]. split; [exact Hvf|].
  intros x y z Hvalid.
  destruct (same_shape_index v vf x y z Hvf) as (_ & Hval & _).
  destruct (voxel_lookup_valid vf x y z) as [-> _];
    [eapply same_shape_wf; eauto | now rewrite Hval |].
  destruct (voxel_lookup_valid v x y z Hwf Hvalid) as [-> _].
  destruct Hvf as (-> & -> & _).
  change (Volume.voxels_ vf) with (Volume.voxels_ v'). rewrite Hvoxels.
  apply valid_coordinate in Hvalid as (Hx & Hy & Hz).
  rewrite (grid_key_update_lookup _ _ (Volume.depth_ v) g _ x y z); try assumption.
  - unfold g. cbn [fst snd]. destruct (F32.leb _ _); [reflexivity|].
    now destruct (Volume.voxels_ v !! _).
  - intros vx. unfold g. cbn [fst snd]. now destruct (F32.leb _ _).
Qed.

(** The order of [<=] on floating point numbers is transitive. *)
Lemma lex_le_trans (e1 e2 e3 : Z) (m1 m2 m3 : positive) :
  match (match Z.compare e1 e2 with
         | Lt => Lt | Gt => Gt | Eq => Pos.compare_cont Eq m1 m2 end)
  with Gt => false | _ => true end = true ->
  match (match Z.compare e2 e3 with
         | Lt => Lt | Gt => Gt | Eq => Pos.compare_cont Eq m2 m3 end)
  with Gt => false | _ => true end = true ->
  match (match Z.compare e1 e3 with
         | Lt => Lt | Gt => Gt | Eq => Pos.compare_cont Eq m1 m3 end)
  with Gt => false | _ => true end = true.
Proof.
  change (Pos.compare_cont Eq m1 m2) with (Pos.compare m1 m2).
  change (Pos.compare_cont Eq m2 m3) with (Pos.compare m2 m3).
  change (Pos.compare_cont Eq m1 m3) with (Pos.compare m1 m3).
  destruct (Z.compare_spec e1 e2), (Z.compare_spec e2 e3), (Z.compare_spec e1 e3);
    try lia; try (intros; reflexivity); try discriminate;
    try (intros _ Hf; discriminate Hf).
  destruct (Pos.compare_spec m1 m2), (Pos.compare_spec m2 m3),
    (Pos.compare_spec m1 m3);
    try lia; try (intros; reflexivity); try discriminate;
    try (intros _ Hf; discriminate Hf).
Qed.

Lemma lex_ge_trans (e1 e2 e3 : Z) (m1 m2 m3 : positive) :
  match (match Z.compare e1 e2 with
         | Lt => Gt | Gt => Lt | Eq => CompOpp (Pos.compare_cont Eq m1 m2) end)
  with Gt => false | _ => true end = true ->
  match (match Z.compare e2 e3 with
         | Lt => Gt | Gt => Lt | Eq => CompOpp (Pos.compare_cont Eq m2 m3) end)
  with Gt => false | _ => true end = true ->
  match (match Z.compare e1 e3 with
         | Lt => Gt | Gt => Lt | Eq => CompOpp (Pos.compare_cont Eq m1 m3) end)
  with Gt => false | _ => true end = true.
Proof.
  change (Pos.compare_cont Eq m1 m2) with (Pos.compare m1 m2).
  change (Pos.compare_cont Eq m2 m3) with (Pos.compare m2 m3).
  change (Pos.compare_cont Eq m1 m3) with (Pos.compare m1 m3).
  destruct (Z.compare_spec e1 e2), (Z.compare_spec e2 e3), (Z.compare_spec e1 e3);
    try lia; try (intros; reflexivity); try discriminate;
    try (intros _ Hf; discriminate Hf).
  destruct (Pos.compare_spec m1 m2), (Pos.compare_spec m2 m3),
    (Pos.compare_spec m1 m3);
    try lia; try (intros; reflexivity); try discriminate;
    try (intros _ Hf; discriminate Hf).
Qed.

Lemma leb_compare (x y : F32.t) :
  F32.leb x y
  = match SFcompare x y with
    | Some c => match c with Gt => false | _ => true end
    | None => false
    end.
Proof. unfold F32.leb, SFleb. destruct (SFcompare x y) as [[]|]; reflexivity. Qed.

Lemma leb_trans (x y z : F32.t) :
  F32.leb x y = true -> F32.leb y z = true -> F32.leb x z = true.
Proof.
  rewrite !leb_compare.
  destruct x as [sx|sx| |sx mx ex], y as [sy|sy| |sy my ey], z as [sz|sz| |sz mz ez];
    cbn [SFcompare]; try discriminate; try (intros; reflexivity);
    try (destruct sx; try destruct sy; try destruct sz;
         try discriminate; try (intros; reflexivity);
         try (intros _ Hf; discriminate Hf); fail).
  destruct sx, sy, sz; try discriminate; try (intros; reflexivity);
    try (intros _ Hf; discriminate Hf).
  - apply lex_ge_trans.
  - apply lex_le_trans.
Qed.

(** The square of a radius and of its opposite. *)
Lemma square_of_opposite (r : F32.t) :
  F32.mul (F32.neg r) (F32.neg r) = F32.mul r r.
Proof. destruct r as [s|s| |s m e]; try destruct s; reflexivity. Qed.

(** X23.  [fill_sphere] on a well-formed grid never fails.  A voxel whose
    squared distance from the centre is at most the square of the radius
    becomes active with the given colour and the density one minus the
    quotient of distance and radius, and keeps its position; every other
    voxel is left as it was.  The voxels that are within the sphere are the
    same for a radius and its opposite, and none is for a radius that is
    not a number. *)
Theorem fill_sphere_marks_ball (center : vec3) (radius : F32.t) (c : vec4)
    (v : Volume.t) :
  Volume.wf v ->
  exists v' v'',
    Volume.fill_sphere center radius c v = Some v'
    /\ Volume.fill_sphere center (F32.neg radius) c v = Some v''
    /\ Volume.wf v'
    /\ forall x y z,
         Volume.is_valid_coordinate v x y z = true ->
         let d2 := Volume.distance_squared center (Volume.voxel_to_world v x y z) in
         Volume.get_voxel v' x y z
         = (if F32.leb d2 (F32.mul radius radius)
            then fun vx =>
                   MkVoxel (position vx) c
                     (F32.sub F32.one (F32.div (F32.sqrt d2) radius)) true
            else id) <$> Volume.get_voxel v x y z
         /\ Volume.is_voxel_active v'' x y z = Volume.is_voxel_active v' x y z
         /\ (radius = S754_nan -> Volume.get_voxel v' x y z = Volume.get_voxel v x y z).
Proof.
  intros Hwf.
  destruct (fill_sphere_voxels center radius c v Hwf) as (v' & Hrun & Hshape & Hget).
  destruct (fill_sphere_voxels center (F32.neg radius) c v Hwf)
    as (v'' & Hrun' & Hshape' & Hget').
  exists v', v''. split; [exact Hrun|]. split; [exact Hrun'|].
  assert (Volume.wf v') as Hwf' by (eapply same_shape_wf; eauto).
  assert (Volume.wf v'') as Hwf'' by (eapply same_shape_wf; eauto).
  split; [exact Hwf'|].
  intros x y z Hvalid d2.
  assert (Volume.is_valid_coordinate v' x y z = true) as Hvalid'
    by (destruct (same_shape_index v v' x y z Hshape) as (_ & -> & _); exact Hvalid).
  assert (Volume.is_valid_coordinate v'' x y z = true) as Hvalid''
    by (destruct (same_shape_index v v'' x y z Hshape') as (_ & -> & _); exact Hvalid).
  rewrite (active_of_voxel v' x y z Hwf' Hvalid').
  rewrite (active_of_voxel v'' x y z Hwf'' Hvalid'').
  rewrite (Hget x y z Hvalid), (Hget' x y z Hvalid), square_of_opposite.
  fold d2. split; [|split].
  - destruct (F32.leb d2 _); [reflexivity|].
    now destruct (Volume.get_voxel v x y z).
  - destruct (F32.leb d2 _); [|reflexivity].
    now destruct (Volume.get_voxel v x y z).
  - intros ->.
    assert (F32.leb d2 (F32.mul S754_nan S754_nan) = false) as ->; [|reflexivity].
    unfold F32.leb, SFleb. now destruct d2.
Qed.

Lemma fill_sphere_marks_ball_witness :
  exists v' v'',
    Volume.fill_sphere (vec3_splat F32.zero) (F32.of_int 100) Scene.carve_color
                       Sample.vol2 = Some v'
    /\ Volume.fill_sphere (vec3_splat F32.zero) (F32.neg (F32.of_int 100))
                          Scene.carve_color Sample.vol2 = Some v''
    /\ Volume.is_voxel_active v'' 1 1 0 = Volume.is_voxel_active v' 1 1 0.
Proof.
  destruct (fill_sphere_marks_ball (vec3_splat F32.zero) (F32.of_int 100)
              Scene.carve_color Sample.vol2)
    as (v' & v'' & Hrun & Hrun' & _ & Hget).
  - unfold Volume.wf. vm_compute. repeat split; congruence.
  - exists v', v''. split; [exact Hrun|]. split; [exact Hrun'|].
    exact (proj1 (proj2 (Hget 1 1 0 eq_refl))).
Defined.

(** The cell of the [j]-th voxel of the array. *)
Lemma cell_of_index (w h d j : Z) :
  0 < w -> 0 < h -> 0 <= j < w * h * d ->
  0 <= j mod w < w /\ 0 <= (j / w) mod h < h /\ 0 <= j / (w * h) < d
  /\ cell w h (j mod w) ((j / w) mod h) (j / (w * h)) = j.
Proof.
  intros Hw Hh Hj.
  pose proof (Z.mod_pos_bound j w Hw) as Hx.
  pose proof (Z.mod_pos_bound (j / w) h Hh) as Hy.
  assert (0 <= j / (w * h) < d) as Hz.
  { split; [apply Z.div_pos; nia|]. apply Z.div_lt_upper_bound; nia. }
  split; [exact Hx|]. split; [exact Hy|]. split; [exact Hz|].
  unfold cell.
  pose proof (Z.div_mod j w ltac:(lia)) as Hjw.
  pose proof (Z.div_mod (j / w) h ltac:(lia)) as Hjh.
  rewrite Z.div_div in Hjh by lia.
  rewrite Hjw at 4. rewrite Hjh at 2. ring.
Qed.

(** A property of every voxel that the getter returns holds of every
    voxel of the array. *)
Lemma voxels_Forall (v : Volume.t) (P : Voxel -> Prop) :
  Volume.wf v ->
  (forall x y z vx,
     Volume.is_valid_coordinate v x y z = true ->
     Volume.get_voxel v x y z = Some vx -> P vx) ->
  Forall P (Volume.voxels_ v).
Proof.
  intros Hwf HP. apply Forall_lookup. intros j vx Hvx.
  pose proof Hwf as (Hw & Hh & Hd & _ & Hlen).
  assert (0 <= Z.of_nat j < Volume.width_ v * Volume.height_ v * Volume.depth_ v)
    as Hj by (apply lookup_lt_Some in Hvx; lia).
  assert (0 < Volume.width_ v) as Hw' by nia.
  assert (0 < Volume.height_ v) as Hh' by nia.
  destruct (cell_of_index _ _ _ _ Hw' Hh' Hj) as (Hx & Hy & Hz & Hcell).
  assert (Volume.is_valid_coordinate v (Z.of_nat j mod Volume.width_ v)
            ((Z.of_nat j / Volume.width_ v) mod Volume.height_ v)
            (Z.of_nat j / (Volume.width_ v * Volume.height_ v)) = true) as Hvalid
    by (apply valid_coordinate; auto).
  apply (HP _ _ _ vx Hvalid).
  destruct (voxel_lookup_valid v _ _ _ Hwf Hvalid) as [-> _].
  now rewrite Hcell, Nat2Z.id.
Qed.

(** X22.  [generate_active_voxel_data] returns the positions and the
    colours of the active voxels, in the order of the voxel array; both
    lists have [active_voxel_count] entries. *)
Theorem active_voxel_data_lists_active_voxels (v : Volume.t) :
  Volume.generate_active_voxel_data v
  = (position <$> filter (fun vx => active vx = true) (Volume.voxels_ v),
     color <$> filter (fun vx => active vx = true) (Volume.voxels_ v))
  /\ Z.of_nat (length (Volume.generate_active_voxel_data v).1)
     = Volume.active_voxel_count v
  /\ Z.of_nat (length (Volume.generate_active_voxel_data v).2)
     = Volume.active_voxel_count v.
Proof.
  assert (forall l ps cs,
            foldl (fun (pc : list vec3 * list vec4) voxel =>
                     if active voxel
                     then (pc.1 ++ [position voxel], pc.2 ++ [color voxel])
                     else pc)
                  (ps, cs) l
            = (ps ++ (position <$> filter (fun vx => active vx = true) l),
               cs ++ (color <$> filter (fun vx => active vx = true) l))) as Hfold.
  { induction l as [|vx l IH]; intros ps cs; cbn [foldl].
    - now rewrite filter_nil, !fmap_nil, !app_nil_r.
    - rewrite filter_cons. destruct (active vx) eqn:Hvx.
      + rewrite decide_True by reflexivity. rewrite IH. cbn [fst snd].
        now rewrite !fmap_cons, <- !app_assoc.
      + rewrite decide_False by discriminate. apply IH. }
  assert (Volume.generate_active_voxel_data v
          = (position <$> filter (fun vx => active vx = true) (Volume.voxels_ v),
             color <$> filter (fun vx => active vx = true) (Volume.voxels_ v)))
    as Hdata by (unfold Volume.generate_active_voxel_data; now rewrite Hfold).
  split; [exact Hdata|]. rewrite Hdata. cbn [fst snd].
  unfold Volume.active_voxel_count. now rewrite !length_fmap.
Qed.

(** Outside a sphere of radius at most 34 around the origin: every voxel of
    a grid of voxel size 40 with an odd number of cells along each axis. *)
Lemma outside_small_sphere (v : Volume.t) (radius x y z : Z) :
  0 <= radius <= 34 ->
  Volume.width_ v = 2 * radius + 1 -> Volume.height_ v = 2 * radius + 1 ->
  Volume.voxel_size_ v = F32.of_int 40 ->
  0 <= x < 2 * radius + 1 -> 0 <= y < 2 * radius + 1 -> 0 <= z < 2 * radius + 1 ->
  F32.leb (Volume.distance_squared (vec3_splat F32.zero)
                                   (Volume.voxel_to_world v x y z))
          (F32.mul (F32.of_int radius) (F32.of_int radius)) = false.
Proof.
  intros Hr Hw Hh Hs Hx Hy Hz.
  unfold Volume.distance_squared, vec3_dot, vec3_sub, Volume.voxel_to_world,
    vec3_splat.
  rewrite Hw, Hh, Hs. cbn [v3x v3y v3z].
  pose (squares := (fun j => F32.mul (F32.of_int (40 * j + 20))
                                     (F32.of_int (40 * j + 20))) <$> seqZ 0 35).
  assert (Forall (fun r =>
            Forall (fun k =>
              F32.mul
                (F32.sub (F32.mul (F32.sub (F32.of_int k)
                                     (F32.mul (F32.of_int (2 * r + 1)) F32.half))
                                  (F32.of_int 40)) F32.zero)
                (F32.sub (F32.mul (F32.sub (F32.of_int k)
                                     (F32.mul (F32.of_int (2 * r + 1)) F32.half))
                                  (F32.of_int 40)) F32.zero)
              ∈ squares) (seqZ 0 (2 * r + 1))) (seqZ 0 35)) as Hxs
    by (apply (bool_decide_unpack _); vm_compute; exact I).
  assert (Forall (fun r =>
            Forall (fun k =>
              F32.mul
                (F32.sub (F32.mul (F32.neg (F32.sub (F32.of_int k)
                                     (F32.mul (F32.of_int (2 * r + 1)) F32.half)))
                                  (F32.of_int 40)) F32.zero)
                (F32.sub (F32.mul (F32.neg (F32.sub (F32.of_int k)
                                     (F32.mul (F32.of_int (2 * r + 1)) F32.half)))
                                  (F32.of_int 40)) F32.zero)
              ∈ squares) (seqZ 0 (2 * r + 1))) (seqZ 0 35)) as Hzs
    by (apply (bool_decide_unpack _); vm_compute; exact I).
  pose (heights := (fun j => F32.mul (F32.of_int (40 * j + 20))
                                     (F32.of_int (40 * j + 20))) <$> seqZ 0 69).
  assert (Forall (fun k =>
            F32.mul
              (F32.sub (F32.add (F32.mul (F32.of_int k) (F32.of_int 40))
                                (F32.mul (F32.of_int 40) F32.half))
                       F32.zero)
              (F32.sub (F32.add (F32.mul (F32.of_int k) (F32.of_int 40))
                                (F32.mul (F32.of_int 40) F32.half))
                       F32.zero)
            ∈ heights) (seqZ 0 69)) as Hys
    by (apply (bool_decide_unpack _); vm_compute; exact I).
  assert (Forall (fun a =>
            Forall (fun k =>
              Forall (fun b =>
                F32.leb (F32.add (F32.add a k) b) (F32.of_int 1156) = false)
                squares) heights) squares) as Hsum
    by (apply (bool_decide_unpack _); vm_compute; exact I).
  assert (Forall (fun r => F32.leb (F32.mul (F32.of_int r) (F32.of_int r))
                                   (F32.of_int 1156) = true) (seqZ 0 35)) as Hrr
    by (apply (bool_decide_unpack _); vm_compute; exact I).
  rewrite Forall_seqZ in Hxs, Hzs, Hrr.
  specialize (Hxs radius ltac:(lia)). specialize (Hzs radius ltac:(lia)).
  specialize (Hrr radius ltac:(lia)).
  rewrite Forall_seqZ in Hxs, Hzs.
  specialize (Hxs x ltac:(lia)). specialize (Hzs y ltac:(lia)).
  rewrite Forall_seqZ in Hys. specialize (Hys z ltac:(lia)).
  rewrite Forall_forall in Hsum. specialize (Hsum _ Hxs).
  rewrite Forall_forall in Hsum. specialize (Hsum _ Hys).
  rewrite Forall_forall in Hsum. specialize (Hsum _ Hzs).
  destruct (F32.leb _ (F32.mul _ _)) eqn:Hin; [|reflexivity].
  rewrite (leb_trans _ _ _ Hin Hrr) in Hsum. discriminate Hsum.
Qed.

(** X24.  [create_sphere] of a radius from 0 to 34 returns a grid without a
    single active voxel: the grid has voxels of size 40 whose centres are at
    least 20 away from the origin along every axis, so that no one is within
    the radius. *)
Theorem small_sphere_is_empty (radius : Z) (c : vec4) :
  0 <= radius <= 34 ->
  exists v,
    Volume.create_sphere radius c = Some v
    /\ Volume.wf v
    /\ Volume.width_ v = 2 * radius + 1 /\ Volume.height_ v = 2 * radius + 1
    /\ Volume.depth_ v = 2 * radius + 1
    /\ Volume.active_voxel_count v = 0
    /\ forall x y z,
         Volume.is_valid_coordinate v x y z = true ->
         Volume.get_voxel v x y z
         = Some (set_position (Volume.voxel_to_world v x y z) Voxel_default).
Proof.
  intros Hr. unfold Volume.create_sphere.
  assert (CInt.add (CInt.mul radius 2) 1 = 2 * radius + 1) as ->.
  { unfold CInt.add, CInt.mul.
    rewrite (int_wrap_small (radius * 2)) by (unfold CInt.in_range; lia).
    rewrite int_wrap_small by (unfold CInt.in_range; lia). lia. }
  cbv zeta.
  destruct (make_spec (2 * radius + 1) (2 * radius + 1) (2 * radius + 1)
              (F32.of_int VOLUME_VOXEL_SIZE))
    as (v0 & -> & Hwf & Hw & Hh & Hd & Hs & _ & _ & Hget); try nia.
  cbn [mbind option_bind].
  destruct (fill_sphere_voxels (vec3_splat F32.zero) (F32.of_int radius) c v0 Hwf)
    as (v & -> & Hshape & Hget').
  exists v. split; [reflexivity|].
  assert (Volume.wf v) as Hwf' by (eapply same_shape_wf; eauto).
  pose proof Hshape as (Hw' & Hh' & Hd' & Hs' & _).
  split; [exact Hwf'|]. rewrite Hw', Hh', Hd'.
  split; [exact Hw|]. split; [exact Hh|]. split; [exact Hd|].
  assert (forall x y z,
            Volume.is_valid_coordinate v x y z = true ->
            Volume.get_voxel v x y z
            = Some (set_position (Volume.voxel_to_world v x y z) Voxel_default))
    as Hsame.
  { intros x y z Hvalid.
    destruct (same_shape_index v0 v x y z Hshape) as (_ & Hval & Hpos).
    rewrite Hval in Hvalid. rewrite Hpos, (Hget' x y z Hvalid).
    apply valid_coordinate in Hvalid as Hxyz. rewrite Hw, Hh, Hd in Hxyz.
    rewrite (outside_small_sphere v0 radius x y z Hr Hw Hh Hs) by tauto.
    exact (Hget x y z Hvalid). }
  split; [|exact Hsame].
  unfold Volume.active_voxel_count. rewrite filter_none; [reflexivity|].
  apply voxels_Forall; [exact Hwf'|].
  intros x y z vx Hvalid Hvx. rewrite (Hsame x y z Hvalid) in Hvx.
  injection Hvx as <-. cbn [set_position active Voxel_default]. discriminate.
Qed.

Lemma small_sphere_is_empty_witness :
  exists v,
    Volume.create_sphere 3 Scene.carve_color = Some v
    /\ Volume.width_ v = 7
    /\ Volume.active_voxel_count v = 0.
Proof.
  destruct (small_sphere_is_empty 3 Scene.carve_color ltac:(lia))
    as (v & Hrun & _ & Hw & _ & _ & Hcount & _).
  exists v. split; [exact Hrun|]. split; [exact Hw|exact Hcount].
Defined.

(** The test of [fill_box] along the first axis, for a box from [-s / 2] to
    [s / 2] in a grid of [s] cells of size 40: passed by the middle cell
    of an even [s] only. *)
Lemma middle_cell_first_axis (s k : Z) :
  0 <= s < 40 -> 0 <= k < s ->
  F32.geb (F32.mul (F32.sub (F32.of_int k) (F32.mul (F32.of_int s) F32.half))
                   (F32.of_int 40))
          (F32.mul (F32.of_int (CInt.neg s)) F32.half)
  && F32.leb (F32.mul (F32.sub (F32.of_int k) (F32.mul (F32.of_int s) F32.half))
                      (F32.of_int 40))
             (F32.mul (F32.of_int s) F32.half)
  = Z.even s && (k =? s / 2).
Proof.
  intros Hs Hk.
  assert (Forall (fun s =>
            Forall (fun k =>
              F32.geb (F32.mul (F32.sub (F32.of_int k)
                                        (F32.mul (F32.of_int s) F32.half))
                               (F32.of_int 40))
                      (F32.mul (F32.of_int (CInt.neg s)) F32.half)
              && F32.leb (F32.mul (F32.sub (F32.of_int k)
                                           (F32.mul (F32.of_int s) F32.half))
                                  (F32.of_int 40))
                         (F32.mul (F32.of_int s) F32.half)
              = Z.even s && (k =? s / 2)) (seqZ 0 s)) (seqZ 0 40)) as Hall
    by (apply (bool_decide_unpack _); vm_compute; exact I).
  rewrite Forall_seqZ in Hall. specialize (Hall s ltac:(lia)).
  rewrite Forall_seqZ in Hall. exact (Hall k ltac:(lia)).
Qed.

(** The same along the third axis of the world, which runs against the
    second index of the grid. *)
Lemma middle_cell_third_axis (s k : Z) :
  0 <= s < 40 -> 0 <= k < s ->
  F32.geb (F32.mul (F32.neg (F32.sub (F32.of_int k)
                                     (F32.mul (F32.of_int s) F32.half)))
                   (F32.of_int 40))
          (F32.mul (F32.of_int (CInt.neg s)) F32.half)
  && F32.leb (F32.mul (F32.neg (F32.sub (F32.of_int k)
                                        (F32.mul (F32.of_int s) F32.half)))
                      (F32.of_int 40))
             (F32.mul (F32.of_int s) F32.half)
  = Z.even s && (k =? s / 2).
Proof.
  intros Hs Hk.
  assert (Forall (fun s =>
            Forall (fun k =>
              F32.geb (F32.mul (F32.neg (F32.sub (F32.of_int k)
                                                 (F32.mul (F32.of_int s) F32.half)))
                               (F32.of_int 40))
                      (F32.mul (F32.of_int (CInt.neg s)) F32.half)
              && F32.leb (F32.mul (F32.neg (F32.sub (F32.of_int k)
                                                    (F32.mul (F32.of_int s) F32.half)))
                                  (F32.of_int 40))
                         (F32.mul (F32.of_int s) F32.half)
              = Z.even s && (k =? s / 2)) (seqZ 0 s)) (seqZ 0 40)) as Hall
    by (apply (bool_decide_unpack _); vm_compute; exact I).
  rewrite Forall_seqZ in Hall. specialize (Hall s ltac:(lia)).
  rewrite Forall_seqZ in Hall. exact (Hall k ltac:(lia)).
Qed.

(** Along the second axis of the world the centre of a voxel is at least
    20 above the floor, outside of a box that ends at [s / 2]. *)
Lemma no_cell_second_axis (s k : Z) :
  0 <= s < 40 -> 0 <= k < 40 ->
  F32.geb (F32.add (F32.mul (F32.of_int k) (F32.of_int 40))
                   (F32.mul (F32.of_int 40) F32.half))
          (F32.mul (F32.of_int (CInt.neg s)) F32.half)
  && F32.leb (F32.add (F32.mul (F32.of_int k) (F32.of_int 40))
                      (F32.mul (F32.of_int 40) F32.half))
             (F32.mul (F32.of_int s) F32.half)
  = false.
Proof.
  intros Hs Hk.
  assert (Forall (fun s =>
            Forall (fun k =>
              F32.geb (F32.add (F32.mul (F32.of_int k) (F32.of_int 40))
                               (F32.mul (F32.of_int 40) F32.half))
                      (F32.mul (F32.of_int (CInt.neg s)) F32.half)
              && F32.leb (F32.add (F32.mul (F32.of_int k) (F32.of_int 40))
                                  (F32.mul (F32.of_int 40) F32.half))
                         (F32.mul (F32.of_int s) F32.half)
              = false) (seqZ 0 40)) (seqZ 0 40)) as Hall
    by (apply (bool_decide_unpack _); vm_compute; exact I).
  rewrite Forall_seqZ in Hall. specialize (Hall s ltac:(lia)).
  rewrite Forall_seqZ in Hall. exact (Hall k ltac:(lia)).
Qed.

(** The test of [create_plane] along the third axis of the world, for the
    box from [-0.5] to [0.5]. *)
Lemma middle_cell_thin_axis (s k : Z) :
  0 <= s < 40 -> 0 <= k < s ->
  F32.geb (F32.mul (F32.neg (F32.sub (F32.of_int k)
                                     (F32.mul (F32.of_int s) F32.half)))
                   (F32.of_int 40))
          (F32.neg F32.half)
  && F32.leb (F32.mul (F32.neg (F32.sub (F32.of_int k)
                                        (F32.mul (F32.of_int s) F32.half)))
                      (F32.of_int 40))
             F32.half
  = Z.even s && (k =? s / 2).
Proof.
  intros Hs Hk.
  assert (Forall (fun s =>
            Forall (fun k =>
              F32.geb (F32.mul (F32.neg (F32.sub (F32.of_int k)
                                                 (F32.mul (F32.of_int s) F32.half)))
                               (F32.of_int 40))
                      (F32.neg F32.half)
              && F32.leb (F32.mul (F32.neg (F32.sub (F32.of_int k)
                                                    (F32.mul (F32.of_int s) F32.half)))
                                  (F32.of_int 40))
                         F32.half
              = Z.even s && (k =? s / 2)) (seqZ 0 s)) (seqZ 0 40)) as Hall
    by (apply (bool_decide_unpack _); vm_compute; exact I).
  rewrite Forall_seqZ in Hall. specialize (Hall s ltac:(lia)).
  rewrite Forall_seqZ in Hall. exact (Hall k ltac:(lia)).
Qed.

(** The active voxels after [fill_box] on a grid that the constructor has
    just built. *)
Lemma fill_box_on_fresh_grid (w h d : Z) (min_pos max_pos : vec3) (c : vec4) :
  0 <= w -> 0 <= h -> 0 <= d -> w * h < 2 ^ 31 -> w * h * d < 2 ^ 31 ->
  exists v0 v,
    Volume.make w h d (F32.of_int VOLUME_VOXEL_SIZE) = Some v0
    /\ Volume.fill_box min_pos max_pos c v0 = Some v
    /\ Volume.wf v
    /\ Volume.width_ v0 = w /\ Volume.height_ v0 = h
    /\ Volume.voxel_size_ v0 = F32.of_int 40
    /\ Volume.width_ v = w /\ Volume.height_ v = h /\ Volume.depth_ v = d
    /\ forall x y z,
         0 <= x < w -> 0 <= y < h -> 0 <= z < d ->
         Volume.is_voxel_active v x y z
         = Some (Volume.box_test min_pos max_pos (Volume.voxel_to_world v0 x y z)).
Proof.
  intros Hw Hh Hd Hwh Hwhd.
  destruct (make_spec w h d (F32.of_int VOLUME_VOXEL_SIZE) Hw Hh Hd Hwh Hwhd)
    as (v0 & Hmake & Hwf & Hw0 & Hh0 & Hd0 & Hs0 & _ & _ & Hget).
  destruct (fill_box_voxels min_pos max_pos c v0 Hwf) as (v & Hfill & Hshape & Hget').
  exists v0, v. split; [exact Hmake|]. split; [exact Hfill|].
  assert (Volume.wf v) as Hwf' by (eapply same_shape_wf; eauto).
  pose proof Hshape as (Hw' & Hh' & Hd' & _).
  split; [exact Hwf'|]. rewrite Hw', Hh', Hd'.
  split; [exact Hw0|]. split; [exact Hh0|]. split; [exact Hs0|].
  split; [exact Hw0|]. split; [exact Hh0|]. split; [exact Hd0|].
  intros x y z Hx Hy Hz.
  assert (Volume.is_valid_coordinate v0 x y z = true) as Hvalid
    by (apply valid_coordinate; rewrite Hw0, Hh0, Hd0; auto).
  assert (Volume.is_valid_coordinate v x y z = true) as Hvalid'
    by (destruct (same_shape_index v0 v x y z Hshape) as (_ & -> & _); exact Hvalid).
  rewrite (active_of_voxel v x y z Hwf' Hvalid'), (Hget' x y z Hvalid),
    (Hget x y z Hvalid).
  now destruct (Volume.box_test _ _ _).
Qed.

(** X25.  [create_cube] of a size below 40 does not return a solid cube.
    For an even size the active voxels are those of the two middle planes
    [x = size / 2] and [y = size / 2]; for an odd size there is none.  The
    box is measured in world units, the grid in voxels of size 40, and one
    axis inside the box is enough for a voxel to be filled. *)
Theorem small_cube_is_two_planes (size : Z) (c : vec4) :
  0 <= size < 40 ->
  exists v,
    Volume.create_cube size c = Some v
    /\ Volume.wf v
    /\ Volume.width_ v = size /\ Volume.height_ v = size /\ Volume.depth_ v = size
    /\ forall x y z,
         0 <= x < size -> 0 <= y < size -> 0 <= z < size ->
         Volume.is_voxel_active v x y z
         = Some (Z.even size && ((x =? size / 2) || (y =? size / 2))).
Proof.
  intros Hsize. unfold Volume.create_cube.
  destruct (fill_box_on_fresh_grid size size size
              (vec3_splat (F32.mul (F32.of_int (CInt.neg size)) F32.half))
              (vec3_splat (F32.mul (F32.of_int size) F32.half)) c)
    as (v0 & v & -> & Hfill & Hwf & Hw0 & Hh0 & Hs0 & Hw & Hh & Hd & Hactive);
    try nia.
  cbn [mbind option_bind]. exists v. split; [exact Hfill|]. split; [exact Hwf|].
  split; [exact Hw|]. split; [exact Hh|]. split; [exact Hd|].
  intros x y z Hx Hy Hz. rewrite (Hactive x y z Hx Hy Hz). f_equal.
  unfold Volume.box_test, Volume.voxel_to_world, vec3_splat.
  rewrite Hw0, Hh0, Hs0. cbn [v3x v3y v3z].
  rewrite (middle_cell_first_axis size x Hsize Hx).
  rewrite (no_cell_second_axis size z Hsize) by lia.
  rewrite (middle_cell_third_axis size y Hsize Hy).
  destruct (Z.even size), (x =? size / 2), (y =? size / 2); reflexivity.
Qed.

Lemma small_cube_is_two_planes_witness :
  exists v,
    Volume.create_cube 4 Scene.carve_color = Some v
    /\ Volume.is_voxel_active v 0 0 0 = Some false
    /\ Volume.is_voxel_active v 2 0 3 = Some true.
Proof.
  destruct (small_cube_is_two_planes 4 Scene.carve_color ltac:(lia))
    as (v & Hrun & _ & _ & _ & _ & Hactive).
  exists v. split; [exact Hrun|]. split.
  - exact (Hactive 0 0 0 ltac:(lia) ltac:(lia) ltac:(lia)).
  - exact (Hactive 2 0 3 ltac:(lia) ltac:(lia) ltac:(lia)).
Defined.

(** X26.  [create_plane] of a width and a height below 40 returns a grid
    of one layer in which the active voxels form a cross, not a plane: the
    column [x = width / 2] when the width is even and the row
    [y = height / 2] when the height is even. *)
Theorem small_plane_is_a_cross (width height : Z) (c : vec4) :
  0 <= width < 40 -> 0 <= height < 40 ->
  exists v,
    Volume.create_plane width height c = Some v
    /\ Volume.wf v
    /\ Volume.width_ v = width /\ Volume.height_ v = height /\ Volume.depth_ v = 1
    /\ forall x y,
         0 <= x < width -> 0 <= y < height ->
         Volume.is_voxel_active v x y 0
         = Some (Z.even width && (x =? width / 2)
                 || Z.even height && (y =? height / 2)).
Proof.
  intros Hwidth Hheight. unfold Volume.create_plane.
  destruct (fill_box_on_fresh_grid width height 1
              (Vec3 (F32.mul (F32.of_int (CInt.neg width)) F32.half)
                    (F32.mul (F32.of_int (CInt.neg height)) F32.half)
                    (F32.neg F32.half))
              (Vec3 (F32.mul (F32.of_int width) F32.half)
                    (F32.mul (F32.of_int height) F32.half)
                    F32.half) c)
    as (v0 & v & -> & Hfill & Hwf & Hw0 & Hh0 & Hs0 & Hw & Hh & Hd & Hactive);
    try nia.
  cbn [mbind option_bind]. exists v. split; [exact Hfill|]. split; [exact Hwf|].
  split; [exact Hw|]. split; [exact Hh|]. split; [exact Hd|].
  intros x y Hx Hy. rewrite (Hactive x y 0 Hx Hy ltac:(lia)). f_equal.
  unfold Volume.box_test, Volume.voxel_to_world.
  rewrite Hw0, Hh0, Hs0. cbn [v3x v3y v3z].
  rewrite (middle_cell_first_axis width x Hwidth Hx).
  rewrite (no_cell_second_axis height 0 Hheight) by lia.
  rewrite (middle_cell_thin_axis height y Hheight Hy).
  now rewrite orb_false_r.
Qed.

Lemma small_plane_is_a_cross_witness :
  exists v,
    Volume.create_plane 4 3 Scene.carve_color = Some v
    /\ Volume.is_voxel_active v 0 0 0 = Some false
    /\ Volume.is_voxel_active v 2 0 0 = Some true.
Proof.
  destruct (small_plane_is_a_cross 4 3 Scene.carve_color ltac:(lia) ltac:(lia))
    as (v & Hrun & _ & _ & _ & _ & Hactive).
  exists v. split; [exact Hrun|]. split.
  - exact (Hactive 0 0 ltac:(lia) ltac:(lia)).
  - exact (Hactive 2 0 ltac:(lia) ltac:(lia)).
Defined.

(** X27.  [world_to_voxel] inverts [voxel_to_world]: on a grid of voxel size
    40 with at most 100 cells along each axis, the world position of a cell
    is mapped back to the indices of the cell. *)
Theorem world_to_voxel_inverts_voxel_to_world (v : Volume.t) (x y z : Z) :
  Volume.voxel_size_ v = F32.of_int 40 ->
  Volume.width_ v <= 100 -> Volume.height_ v <= 100 -> Volume.depth_ v <= 100 ->
  Volume.is_valid_coordinate v x y z = true ->
  Volume.world_to_voxel v (Volume.voxel_to_world v x y z) = Some (x, y, z).
Proof.
  intros Hs Hw Hh Hd Hvalid.
  apply valid_coordinate in Hvalid as (Hx & Hy & Hz).
  unfold Volume.world_to_voxel, Volume.voxel_to_world.
  rewrite Hs. cbn [v3x v3y v3z]. cbv zeta.
  assert (Forall (fun w =>
            Forall (fun k =>
              Volume.round_to_int
                (F32.add (F32.div (F32.mul (F32.sub (F32.of_int k)
                                              (F32.mul (F32.of_int w) F32.half))
                                           (F32.of_int 40))
                                  (F32.of_int 40))
                         (F32.mul (F32.of_int w) F32.half))
              = Some k) (seqZ 0 w)) (seqZ 0 101)) as Hxs
    by (apply (bool_decide_unpack _); vm_compute; exact I).
  assert (Forall (fun k =>
            Volume.round_to_int
              (F32.div (F32.sub (F32.add (F32.mul (F32.of_int k) (F32.of_int 40))
                                         (F32.mul (F32.of_int 40) F32.half))
                                (F32.mul (F32.of_int 40) F32.half))
                       (F32.of_int 40))
            = Some k) (seqZ 0 100)) as Hzs
    by (apply (bool_decide_unpack _); vm_compute; exact I).
  assert (Forall (fun h =>
            Forall (fun k =>
              Volume.round_to_int
                (F32.add (F32.div (F32.neg
                                     (F32.mul (F32.neg (F32.sub (F32.of_int k)
                                                 (F32.mul (F32.of_int h) F32.half)))
                                              (F32.of_int 40)))
                                  (F32.of_int 40))
                         (F32.mul (F32.of_int h) F32.half))
              = Some k) (seqZ 0 h)) (seqZ 0 101)) as Hys
    by (apply (bool_decide_unpack _); vm_compute; exact I).
  rewrite Forall_seqZ in Hxs, Hzs, Hys.
  specialize (Hxs (Volume.width_ v) ltac:(lia)).
  specialize (Hys (Volume.height_ v) ltac:(lia)).
  rewrite Forall_seqZ in Hxs, Hys.
  rewrite (Hxs x ltac:(lia)), (Hzs z ltac:(lia)), (Hys y ltac:(lia)).
  reflexivity.
Qed.

Lemma world_to_voxel_inverts_voxel_to_world_witness :
  Volume.world_to_voxel Sample.vol2 (Volume.voxel_to_world Sample.vol2 1 0 1)
  = Some (1, 0, 1).
Proof.
  apply (world_to_voxel_inverts_voxel_to_world Sample.vol2 1 0 1).
  - reflexivity.
  - simpl. lia.
  - simpl. lia.
  - simpl. lia.
  - reflexivity.
Defined.

(** * Properties of the camera's current view *)

Section CurrentView.
Context `{Glm}.

Lemma calc_proj_defined (intrinsic : Mat.t F64.t)
    (width height near_plane far_plane : F32.t) :
  Mat.wf intrinsic ->
  is_Some (Camera.calc_proj intrinsic width height near_plane far_plane).
Proof.
  intros (Hr & Hc & Hlen). unfold Camera.calc_proj.
  destruct (Mat.empty intrinsic || (Mat.rows intrinsic <? 3)
            || (Mat.cols intrinsic <? 3)) eqn:Hdeg; [eauto|].
  rewrite !orb_false_iff, !Z.ltb_ge in Hdeg. destruct Hdeg as [[_ Hrows] Hcols].
  unfold Mat.at_.
  change ((0 <=? 0) && (0 <=? 0)) with true.
  change ((0 <=? 1) && (0 <=? 1)) with true.
  change ((0 <=? 0) && (0 <=? 2)) with true.
  change ((0 <=? 1) && (0 <=? 2)) with true.
  cbv iota.
  destruct (lookup_lt_is_Some_2 (Mat.data intrinsic)
              (Z.to_nat (0 * Mat.cols intrinsic + 0))) as [fx ->]; [nia|].
  destruct (lookup_lt_is_Some_2 (Mat.data intrinsic)
              (Z.to_nat (1 * Mat.cols intrinsic + 1))) as [fy ->]; [nia|].
  destruct (lookup_lt_is_Some_2 (Mat.data intrinsic)
              (Z.to_nat (0 * Mat.cols intrinsic + 2))) as [cx ->]; [nia|].
  destruct (lookup_lt_is_Some_2 (Mat.data intrinsic)
              (Z.to_nat (1 * Mat.cols intrinsic + 2))) as [cy ->]; [nia|].
  cbn [mbind option_bind].
  destruct (Camera.guess_resolution cx cy) as [[best_err calib_w] calib_h]. eauto.
Qed.

Lemma first_entry_defined (intrinsic : Mat.t F64.t) :
  Mat.empty intrinsic = false -> is_Some (Mat.at_ intrinsic 0 0).
Proof.
  unfold Mat.empty, Mat.at_. destruct (Mat.data intrinsic) as [|x l];
    [discriminate|]. intros _.
  change ((0 <=? 0) && (0 <=? 0)) with true. cbv iota.
  rewrite Z.mul_0_l. cbn. eauto.
Qed.

Lemma to_size_t_small (i : Z) : 0 <= i -> CInt.in_range i -> CInt.to_size_t i = i.
Proof.
  unfold CInt.in_range, CInt.to_size_t. intros Hi Hr. apply Z.mod_small. lia.
Qed.

Lemma set_view_valid (c : Camera.State) (view_index : Z) (view : View) :
  CInt.in_range view_index -> 0 <= view_index ->
  views (Camera.project_ c) !! Z.to_nat view_index = Some view ->
  Camera.set_view view_index c
  = Some (Camera.MkState view_index (Camera.project_ c) view).
Proof.
  intros Hint Hpos Hview. destruct c as [index project freeform].
  cbn [Camera.project_] in Hview |- *.
  unfold Camera.set_view, Camera.current_view, Camera.assign_freeform_view,
    Camera.assign_current_view, Camera.assign_current_view_index,
    Camera.assign_freeform_view, vec_get.
  cbn [Camera.current_view_index_ Camera.project_ Camera.freeform_view_].
  rewrite (to_size_t_small view_index Hpos Hint).
  assert ((view_index >=? 0) && (view_index <? Z.of_nat (length (views project)))
          = true) as Hin.
  { apply lookup_lt_Some in Hview.
    rewrite andb_true_iff, Z.geb_le, Z.ltb_lt. lia. }
  destruct (index =? -1);
    cbn [Camera.current_view_index_ Camera.project_ Camera.freeform_view_];
    rewrite Hin, Hview; reflexivity.
Qed.

(** X28.  [set_view] and the free-form camera.  The member
    [current_view_] is a reference to [freeform_view_], so for an index
    within the views of the project [set_view] copies the static view over
    the free-form view: afterwards [current_view] and [freeform_view_] are
    both that view, and the free-form pose that the code means to save is
    gone.  For any other index, negative ones included, nothing changes,
    and the camera stays in the mode it was in. *)
Theorem set_view_overwrites_freeform_view (c : Camera.State) (view_index : Z) :
  CInt.in_range view_index ->
  (forall view,
     0 <= view_index ->
     views (Camera.project_ c) !! Z.to_nat view_index = Some view ->
     exists c',
       Camera.set_view view_index c = Some c'
       /\ Camera.current_view_index_ c' = view_index
       /\ Camera.in_static_view c' = true
       /\ Camera.current_view c' = view
       /\ Camera.freeform_view_ c' = view
       /\ Camera.project_ c' = Camera.project_ c)
  /\ (view_index < 0
      \/ Z.of_nat (length (views (Camera.project_ c))) <= view_index ->
      Camera.set_view view_index c = Some c).
Proof.
  intros Hint. split.
  - intros view Hpos Hview. eexists.
    split; [exact (set_view_valid c view_index view Hint Hpos Hview)|].
    cbn [Camera.current_view_index_ Camera.current_view Camera.freeform_view_
         Camera.project_]. unfold Camera.in_static_view.
    cbn [Camera.current_view_index_].
    repeat split. apply Z.geb_le. lia.
  - intros Hout. unfold Camera.set_view. cbv zeta.
    assert (Camera.assign_freeform_view (Camera.current_view c) c = c) as Hself
      by now destruct c.
    assert ((if Camera.current_view_index_ c =? -1
             then Camera.assign_freeform_view (Camera.current_view c) c
             else c) = c) as -> by (destruct (_ =? _); [exact Hself|reflexivity]).
    assert ((view_index >=? 0)
            && (CInt.to_size_t view_index
                <? Z.of_nat (length (views (Camera.project_ c)))) = false) as ->;
      [|reflexivity].
    destruct (Z.ltb_spec view_index 0) as [Hneg | Hpos].
    + assert ((view_index >=? 0) = false) as ->
        by (rewrite Z.geb_leb; apply Z.leb_gt; lia).
      reflexivity.
    + rewrite (to_size_t_small view_index Hpos Hint).
      apply andb_false_iff. right. apply Z.ltb_ge. lia.
Qed.

(** X29.  Resizing the window in a static view.  After [set_view] to a
    view of the project, [resize] recomputes the projection of the view in
    the project from its intrinsic matrix, but the view that is shown is the
    copy in [freeform_view_], and that one receives the field of view and
    the symmetric perspective projection of the free-form camera.  The
    camera stays in the static view. *)
Theorem resize_in_static_view (c : Camera.State) (view_index width height : Z)
    (view : View) :
  CInt.in_range view_index -> 0 <= view_index ->
  views (Camera.project_ c) !! Z.to_nat view_index = Some view ->
  Forall (fun v => Mat.wf (intrinsic v) /\ Mat.empty (intrinsic v) = false)
         (views (Camera.project_ c)) ->
  exists c1 c2 fx calibrated,
    Camera.set_view view_index c = Some c1
    /\ Camera.resize width height c1 = Some c2
    /\ Camera.in_static_view c2 = true
    /\ Camera.current_view_index_ c2 = view_index
    /\ proj (Camera.current_view c2)
       = perspective (radians DEFAULT_FOV)
                     (F32.div (F32.of_int width) (F32.of_int height))
                     DEFAULT_NEAR DEFAULT_FAR
    /\ fov (Camera.current_view c2) = Camera.calc_fov DEFAULT_FOV (F32.of_int width)
    /\ intrinsic (Camera.current_view c2) = intrinsic view
    /\ Mat.at_ (intrinsic view) 0 0 = Some fx
    /\ Camera.calc_proj (intrinsic view) (F32.of_int width) (F32.of_int height)
                        DEFAULT_NEAR DEFAULT_FAR = Some calibrated
    /\ views (Camera.project_ c2) !! Z.to_nat view_index
       = Some (set_mask_fov_proj (mask view)
                 (Camera.calc_fov (F64.to_f32 fx) (F32.of_int width))
                 calibrated view).
Proof.
  intros Hint Hpos Hview Hviews.
  pose (step := fun v : View =>
                  fx ← Mat.at_ (intrinsic v) 0 0;
                  proj ← Camera.calc_proj (intrinsic v) (F32.of_int width)
                           (F32.of_int height) DEFAULT_NEAR DEFAULT_FAR;
                  Some (set_mask_fov_proj (mask v)
                          (Camera.calc_fov (F64.to_f32 fx) (F32.of_int width))
                          proj v)).
  assert (forall v,
            Mat.wf (intrinsic v) /\ Mat.empty (intrinsic v) = false ->
            exists fx calibrated,
              Mat.at_ (intrinsic v) 0 0 = Some fx
              /\ Camera.calc_proj (intrinsic v) (F32.of_int width)
                   (F32.of_int height) DEFAULT_NEAR DEFAULT_FAR = Some calibrated
              /\ step v
                 = Some (set_mask_fov_proj (mask v)
                           (Camera.calc_fov (F64.to_f32 fx) (F32.of_int width))
                           calibrated v)) as Hstep.
  { intros v [Hwf Hne].
    destruct (first_entry_defined _ Hne) as [fx Hfx].
    destruct (calc_proj_defined (intrinsic v) (F32.of_int width)
                (F32.of_int height) DEFAULT_NEAR DEFAULT_FAR Hwf)
      as [calibrated Hcal].
    exists fx, calibrated. split; [exact Hfx|]. split; [exact Hcal|].
    unfold step. now rewrite Hfx, Hcal. }
  destruct (mapM_is_Some_2 step (views (Camera.project_ c))) as [vs Hvs].
  { eapply Forall_impl; [exact Hviews|]. intros v Hv.
    destruct (Hstep v Hv) as (fx & calibrated & _ & _ & Hv').
    unfold compose. rewrite Hv'. eauto. }
  destruct (Hstep view (Forall_lookup_1 _ _ _ _ Hviews Hview))
    as (fx & calibrated & Hfx & Hcal & Hnew).
  exists (Camera.MkState view_index (Camera.project_ c) view).
  eexists. exists fx, calibrated.
  split; [exact (set_view_valid c view_index view Hint Hpos Hview)|].
  split.
  { unfold Camera.resize. cbv zeta.
    cbn [Camera.assign_freeform_view Camera.project_ Camera.freeform_view_
         Camera.current_view_index_].
    change (mapM _ (views (Camera.project_ c)))
      with (mapM step (views (Camera.project_ c))).
    rewrite Hvs. cbn [mbind option_bind]. reflexivity. }
  cbn [Camera.current_view_index_ Camera.current_view Camera.freeform_view_
       Camera.project_ set_mask_fov_proj proj fov intrinsic set_views views].
  unfold Camera.in_static_view. cbn [Camera.current_view_index_].
  split; [apply Z.geb_le; lia|]. split; [reflexivity|].
  split; [reflexivity|]. split; [reflexivity|]. split; [reflexivity|].
  split; [exact Hfx|]. split; [exact Hcal|].
  apply mapM_Some_1 in Hvs.
  destruct (Forall2_lookup_l _ _ _ _ _ Hvs Hview) as (view' & Hview' & Hstep').
  rewrite Hview'. congruence.
Qed.

End CurrentView.

Lemma set_view_overwrites_freeform_view_witness :
  exists c',
    Camera.set_view 1
      (Camera.MkState (-1) Sample.last_view_fails Sample.one_pixel_view) = Some c'
    /\ Camera.freeform_view_ c' = Sample.view_at "board22.png" "cb2.yml".
Proof.
  destruct (set_view_overwrites_freeform_view
              (Camera.MkState (-1) Sample.last_view_fails Sample.one_pixel_view) 1)
    as [Hvalid _].
  - unfold CInt.in_range. lia.
  - destruct (Hvalid (Sample.view_at "board22.png" "cb2.yml") ltac:(lia) eq_refl)
      as (c' & Hrun & _ & _ & _ & Hfree & _).
    exists c'. split; [exact Hrun|exact Hfree].
Defined.

Lemma resize_in_static_view_witness :
  exists c1 c2,
    Camera.set_view 0
      (Camera.MkState (-1) (Sample.project_of [Sample.one_pixel_view])
                      (Sample.view_at "bg.png" "cb.yml")) = Some c1
    /\ @Camera.resize Sample.glm 800 600 c1 = Some c2
    /\ proj (Camera.current_view c2)
       = @perspective Sample.glm (@radians Sample.glm DEFAULT_FOV)
           (F32.div (F32.of_int 800) (F32.of_int 600)) DEFAULT_NEAR DEFAULT_FAR.
Proof.
  destruct (@resize_in_static_view Sample.glm
              (Camera.MkState (-1) (Sample.project_of [Sample.one_pixel_view])
                              (Sample.view_at "bg.png" "cb.yml"))
              0 800 600 Sample.one_pixel_view)
    as (c1 & c2 & fx & calibrated & Hset & Hresize & _ & _ & Hproj & _).
  - unfold CInt.in_range. lia.
  - lia.
  - reflexivity.
  - repeat constructor; simpl; lia.
  - exists c1, c2. split; [exact Hset|]. split; [exact Hresize|exact Hproj].
Defined.
